(** * The Gambit command-line front-ends [enummixed] and [nfgipa]

    A shallow embedding of the two [main] functions of the repository
    (src/tools/enummixed/enummixed.cc and src/tools/gt/nfgipa.cc) and of
    [PrintCliques], together with the properties the specification states
    about them.

    The two programs are thin shells: they scan [argv] by hand, open the game
    file, call library code (the game reader, the solvers, the CSV renderer)
    and map exceptions to an exit status.  The library (libgambit) lies
    outside these two translation units; it enters the development as a
    record of collaborators ([Collaborators]), so that a statement about
    [main] holds whatever the library does. *)

From Stdlib Require Import List String Ascii ZArith Bool Lia Arith.
From Stdlib Require Import Decimal DecimalString.
From Stdlib Require DecimalFacts DecimalNat.
From Stdlib Require Import QArith Qcanon Lqa Permutation.
Import ListNotations.

Local Open Scope string_scope.
Local Open Scope list_scope.

(* ===================================================================== *)
(** * C strings and the argument vector *)
(* ===================================================================== *)

Definition NUL : ascii := Ascii.zero.

(** Line feed, the ['\n'] of the string literals and of [std::endl]. *)
Definition nl : string := String (ascii_of_nat 10) EmptyString.

(** [s[k]] for a NUL-terminated string: the byte at [k], the terminator at
    [k = strlen s].  The front-ends read index 1 only after index 0 was seen
    to be ['-'], so they never index past the terminator. *)
Definition char_at (s : string) (k : nat) : ascii :=
  match String.get k s with
  | Some c => c
  | None => NUL
  end.

(** [argv] is the list of its [argc] strings; [argv[argc]] is the null
    pointer, which [nth_error] renders as [None]. *)
Definition argc (argv : list string) : Z := Z.of_nat (List.length argv).

Definition isprint (c : ascii) : bool :=
  (32 <=? nat_of_ascii c)%nat && (nat_of_ascii c <=? 126)%nat.

Definition isspace (c : ascii) : bool :=
  (nat_of_ascii c =? 32)%nat
  || ((9 <=? nat_of_ascii c)%nat && (nat_of_ascii c <=? 13)%nat).

Definition isdigit (c : ascii) : bool :=
  (48 <=? nat_of_ascii c)%nat && (nat_of_ascii c <=? 57)%nat.

Fixpoint skip_space (s : string) : string :=
  match s with
  | String c r => if isspace c then skip_space r else s
  | EmptyString => s
  end.

Fixpoint digits (acc : Z) (s : string) : Z :=
  match s with
  | String c r =>
      if isdigit c
      then digits (10 * acc + (Z.of_nat (nat_of_ascii c) - 48))%Z r
      else acc
  | EmptyString => acc
  end.

(** The integer a decimal prefix of [s] denotes: white space, an optional
    sign, digits; whatever follows is ignored, and no digits give 0. *)
Definition decimal_prefix (s : string) : Z :=
  match skip_space s with
  | String c r =>
      if (c =? "-")%char then (- digits 0 r)%Z
      else if (c =? "+")%char then digits 0 r
      else digits 0 (String c r)
  | EmptyString => 0%Z
  end.

Definition INT_MIN : Z := (- 2 ^ 31)%Z.
Definition INT_MAX : Z := (2 ^ 31 - 1)%Z.

Definition fits_int (n : Z) : bool := (INT_MIN <=? n)%Z && (n <=? INT_MAX)%Z.

(* ===================================================================== *)
(** * Effects: what a run does and how it ends *)
(* ===================================================================== *)

(** The exceptions the library can raise.  [main] catches
    [std::runtime_error] only. *)
Inductive exn : Type :=
| runtime_error (what : string)
| other_exception.

(** Behaviour the C standard leaves undefined. *)
Inductive UB : Type :=
| atoi_null            (* atoi applied to the null pointer *)
| atoi_range           (* atoi of a number that does not fit an int *)
| argv_out_of_bounds.  (* argv[k] outside 0..argc *)

(** How a computation stops before it returns. *)
Inductive Halt : Type :=
| Exit (status : Z)    (* exit(status), or return from main *)
| Abort                (* abort(), std::terminate *)
| Undefined (u : UB)
| Throw (e : exn).

(** The stream [input_stream] points to. *)
Inductive istream : Type :=
| cin
| file_stream (path : string).

(** A mixed strategy profile: per player, the weights of that player's
    strategies. *)
Definition MixedStrategyProfile (T : Type) : Type := list (list T).

(** [Rational] is an arbitrary-precision fraction kept in lowest terms. *)
Definition Rational : Type := Qc.

Section Effects.

(** The floating-point type.  [main] only passes doubles on. *)
Variable double : Type.

Inductive Event : Type :=
| cerr (text : string)                    (* std::cerr << text *)
| perror (msg : string)                   (* perror(msg) *)
| ifstream_open (path : string)           (* file_stream.open(path) *)
| ReadGameFrom (s : istream)              (* ReadGame( *input_stream) *)
| RenderRational (p : MixedStrategyProfile Rational) (label : string)
| RenderDouble (numDecimals : Z) (p : MixedStrategyProfile double)
               (label : string).

(** A computation writes a trace and returns a value or stops. *)
Definition M (A : Type) : Type := (list Event * (A + Halt))%type.

Definition ret {A} (a : A) : M A := ([], inl a).

Definition bind {A B} (m : M A) (f : A -> M B) : M B :=
  match snd m with
  | inl a => (fst m ++ fst (f a), snd (f a))
  | inr h => (fst m, inr h)
  end.

Definition emit (e : Event) : M unit := ([e], inl tt).

Definition halt {A} (h : Halt) : M A := ([], inr h).

End Effects.

Arguments cerr {double}.
Arguments perror {double}.
Arguments ifstream_open {double}.
Arguments ReadGameFrom {double}.
Arguments RenderRational {double}.
Arguments RenderDouble {double}.
Arguments ret {double A}.
Arguments bind {double A B}.
Arguments emit {double}.
Arguments halt {double A}.

Declare Scope run_scope.
Delimit Scope run_scope with run.
Notation "x <- m ;; k" := (bind m (fun x => k))
  (at level 61, m at next level, right associativity) : run_scope.
Notation "m ;; k" := (bind m (fun _ => k))
  (at level 61, right associativity) : run_scope.
Local Open Scope run_scope.

(** [atoi(optarg)]. *)
Definition atoi {double} (optarg : option string) : M double Z :=
  match optarg with
  | None => halt (Undefined atoi_null)
  | Some s =>
      if fits_int (decimal_prefix s) then ret (decimal_prefix s)
      else halt (Undefined atoi_range)
  end.

(** [for (int i = from; ...; i++) body], [count] iterations. *)
Fixpoint for_loop {double V} (body : nat -> V -> M double V)
    (count from : nat) (v : V) : M double V :=
  match count with
  | O => ret v
  | S k => v' <- body from v ;; for_loop body k (S from) v'
  end.

(* ===================================================================== *)
(** * The library, as the front-ends see it *)
(* ===================================================================== *)

(** Modelled from the spec: the [Game] value of section 3 of the
    specification (class [Gambit::Game] of libgambit): ordered players, each
    with a finite ordered set of pure strategies, and a payoff per player for
    every pure-strategy profile.  [strategies] lists the number of pure
    strategies of each player; strategies and players count from 0. *)
Record Game : Type := mkGame {
  strategies : list nat;
  payoff : list nat -> nat -> Q
}.

Definition players (g : Game) : nat := List.length (strategies g).

(** What a solver call does: the profiles it hands to its renderer, with
    their labels, and the value it returns or the exception it raises. *)
Record SolverRun (P R : Type) : Type := mkRun {
  rendered : list (P * string);
  outcome : R + exn
}.

Arguments mkRun {P R}.
Arguments rendered {P R}.
Arguments outcome {P R}.

(** [EnumMixedStrategySolution<T>], of which [main] uses [GetCliques()]. *)
Record EnumMixedStrategySolution (T : Type) : Type := mkSolution {
  GetCliques : list (list (MixedStrategyProfile T))
}.

Arguments mkSolution {T}.
Arguments GetCliques {T}.

(** The result the polymatrix solver returns. *)
Inductive Convergence : Type := Converged | NotConverged.

Record Collaborators (double : Type) : Type := mkCollaborators {
  (** the [VERSION] macro *)
  VERSION : string;
  (** what [List<T>::operator[]] throws for an index outside [1..size] *)
  IndexException : exn;
  (** [file_stream.open(path); file_stream.is_open()] *)
  is_open : string -> bool;
  (** [ReadGame(stream)] *)
  ReadGame : istream -> Game + exn;
  (** [EnumMixedLrsStrategySolver(renderer).Solve(game)] *)
  lrs_Solve : Game -> SolverRun (MixedStrategyProfile Rational) unit;
  (** [EnumMixedStrategySolver<Rational>(renderer).SolveDetailed(game)] *)
  SolveDetailed_Rational :
    Game -> SolverRun (MixedStrategyProfile Rational)
                      (EnumMixedStrategySolution Rational);
  (** [EnumMixedStrategySolver<double>(renderer).SolveDetailed(game)] *)
  SolveDetailed_double :
    Game -> SolverRun (MixedStrategyProfile double)
                      (EnumMixedStrategySolution double);
  (** [NashIPAStrategySolver(renderer).Solve(game)] *)
  ipa_Solve :
    Game -> SolverRun (MixedStrategyProfile double)
                      (MixedStrategyProfile double * Convergence)
}.

Arguments VERSION {double}.
Arguments IndexException {double}.
Arguments is_open {double}.
Arguments ReadGame {double}.
Arguments lrs_Solve {double}.
Arguments SolveDetailed_Rational {double}.
Arguments SolveDetailed_double {double}.
Arguments ipa_Solve {double}.

(** How the process ends. *)
Inductive Termination : Type :=
| Exited (status : Z)
| Aborted
| UndefinedBehaviour (u : UB).

(* ===================================================================== *)
(** * What the two programs share *)
(* ===================================================================== *)

Section Shell.

Context {double : Type}.
Variable env : Collaborators double.

Definition throw {A} (e : exn) : M double A := halt (Throw e).

(** A library call: its rendering goes to the trace, its exception
    propagates. *)
Definition call {P R} (Render : P -> string -> Event double)
    (r : SolverRun P R) : M double R :=
  (map (fun pl => Render (fst pl) (snd pl)) (rendered r),
   match outcome r with
   | inl x => inl x
   | inr e => inr (Throw e)
   end).

Definition read_game (input_stream : istream) : M double Game :=
  emit (ReadGameFrom input_stream) ;;
  match ReadGame env input_stream with
  | inl g => ret g
  | inr e => throw e
  end.

(** [argv[k]] for an [int k]. *)
Definition argv_at (argv : list string) (k : Z) : M double string :=
  if (k <? 0)%Z then halt (Undefined argv_out_of_bounds)
  else match nth_error argv (Z.to_nat k) with
       | Some s => ret s
       | None => halt (Undefined argv_out_of_bounds)
       end.

(** Lines 132-143 of enummixed.cc, 107-118 of nfgipa.cc:
<<
    std::istream* input_stream = &std::cin;
    std::ifstream file_stream;
    if (optind < argc) {
      file_stream.open(argv[optind]);
      if (!file_stream.is_open()) { ... perror(...); exit(1); }
      input_stream = &file_stream;
    }
>>
    with [optind = argc - 1] from line 84 (66). *)
Definition open_input (argv : list string) : M double istream :=
  let optind := (argc argv - 1)%Z in
  if (optind <? argc argv)%Z then
    path <- argv_at argv optind ;;
    emit (ifstream_open path) ;;
    if is_open env path then ret (file_stream path)
    else
      argv0 <- argv_at argv 0 ;;
      emit (perror (argv0 ++ ": " ++ path)) ;;
      halt (Exit 1)
  else ret cin.

(** [try { body } catch (std::runtime_error &e)
      { std::cerr << "Error: " << e.what() << std::endl; return 1; }] *)
Definition try_catch (body : M double Z) : M double Z :=
  match snd body with
  | inr (Throw (runtime_error what)) =>
      (fst body ++ [cerr ("Error: " ++ what ++ nl)], inl 1%Z)
  | _ => body
  end.

(** The process around [main]: the value [main] returns is the exit
    status; an exception nobody catches ends in [std::terminate]. *)
Definition process (m : M double Z) : list (Event double) * Termination :=
  (fst m,
   match snd m with
   | inl status => Exited status
   | inr (Exit status) => Exited status
   | inr Abort => Aborted
   | inr (Undefined u) => UndefinedBehaviour u
   | inr (Throw _) => Aborted
   end).

(** [Gambit::List<T>::operator[]]: indices run from 1. *)
Definition List_at {A} (l : list A) (k : nat) : M double A :=
  match k with
  | O => throw (IndexException env)
  | S j => match nth_error l j with
           | Some a => ret a
           | None => throw (IndexException env)
           end
  end.

(** [lexical_cast<std::string>(cl)] for a non-negative [int]. *)
Definition lexical_cast (cl : nat) : string :=
  NilZero.string_of_uint (Nat.to_uint cl).

End Shell.

(* ===================================================================== *)
(** * enummixed: src/tools/enummixed/enummixed.cc *)
(* ===================================================================== *)

Module EnumMixed.

(** The local variables of [main] that the option loop assigns. *)
Record Locals : Type := mkLocals {
  useFloat : bool;
  uselrs : bool;
  quiet : bool;
  eliminate : bool;
  showConnect : bool;
  numDecimals : Z
}.

Definition initial : Locals :=
  {| useFloat := false; uselrs := false; quiet := false;
     eliminate := true; showConnect := false; numDecimals := 6 |}.

Section Program.

Context {double : Type}.
Variable env : Collaborators double.

(** Lines 37-47. *)
Definition PrintCliques {T : Type}
    (p_cliques : list (list (MixedStrategyProfile T)))
    (Render : MixedStrategyProfile T -> string -> Event double)
  : M double unit :=
  for_loop
    (fun cl _ =>
       clique <- List_at env p_cliques cl ;;
       for_loop
         (fun i _ =>
            row <- List_at env p_cliques cl ;;
            p <- List_at env row i ;;
            emit (Render p ("convex-" ++ lexical_cast cl)%string))
         (List.length clique) 1%nat tt)
    (List.length p_cliques) 1%nat tt.

Definition banner : list string :=
  [ ("Compute Nash equilibria by enumerating extreme points" ++ nl)%string;
    ("Gambit version " ++ VERSION env
       ++ ", Copyright (C) 1994-2016, The Gambit Project" ++ nl)%string;
    ("Enumeration code based on lrslib 6.2," ++ nl)%string;
    ("Copyright (C) 1995-2016 by David Avis (avis@cs.mcgill.ca)"
       ++ nl)%string;
    ("This is free software, distributed under the GNU GPL"
       ++ nl ++ nl)%string ].

(** Lines 49-56, on [std::cerr]. *)
Definition PrintBanner : M double unit :=
  (map cerr banner, inl tt).

Definition usage (progname : string) : list string :=
  [ ("Usage: " ++ progname ++ " [OPTIONS] [file]" ++ nl)%string;
    ("If file is not specified, attempts to read game from standard input."
       ++ nl)%string;
    ("With no options, reports all Nash equilibria found."
       ++ nl ++ nl)%string;
    ("Options:" ++ nl)%string;
    ("  -d DECIMALS      compute using floating-point arithmetic;"
       ++ nl)%string;
    ("                   display results with DECIMALS digits"
       ++ nl)%string;
    ("  -D               don't eliminate dominated strategies first"
       ++ nl)%string;
    ("  -L               use lrslib for enumeration (experimental!)"
       ++ nl)%string;
    ("  -c               output connectedness information" ++ nl)%string;
    ("  -h, --help       print this help message" ++ nl)%string;
    ("  -q               quiet mode (suppresses banner)" ++ nl)%string;
    ("  -v, --version    print version information" ++ nl)%string ].

(** Lines 58-75: never returns. *)
Definition PrintHelp {A} (progname : string) : M double A :=
  PrintBanner ;;
  (map cerr (usage progname), inl tt) ;;
  halt (Exit 1).

(** The [switch (optopt)] of lines 91-125. *)
Definition option_switch (argv0 : string) (optarg : option string)
    (optopt : ascii) (v : Locals) : M double Locals :=
  if (optopt =? "v")%char then
    PrintBanner ;; halt (Exit 1)
  else if (optopt =? "d")%char then
    n <- atoi optarg ;;
    ret {| useFloat := true; uselrs := uselrs v; quiet := quiet v;
           eliminate := eliminate v; showConnect := showConnect v;
           numDecimals := n |}
  else if (optopt =? "D")%char then
    ret {| useFloat := useFloat v; uselrs := uselrs v; quiet := quiet v;
           eliminate := false; showConnect := showConnect v;
           numDecimals := numDecimals v |}
  else if (optopt =? "L")%char then
    ret {| useFloat := useFloat v; uselrs := true; quiet := quiet v;
           eliminate := eliminate v; showConnect := showConnect v;
           numDecimals := numDecimals v |}
  else if (optopt =? "h")%char then
    PrintHelp argv0
  else if (optopt =? "c")%char then
    ret {| useFloat := useFloat v; uselrs := uselrs v; quiet := quiet v;
           eliminate := eliminate v; showConnect := true;
           numDecimals := numDecimals v |}
  else if (optopt =? "S")%char then
    ret v
  else if (optopt =? "q")%char then
    ret {| useFloat := useFloat v; uselrs := uselrs v; quiet := true;
           eliminate := eliminate v; showConnect := showConnect v;
           numDecimals := numDecimals v |}
  else if (optopt =? "?")%char then
    (if isprint optopt then
       emit (cerr (argv0 ++ ": Unknown option `-"
                     ++ String optopt EmptyString ++ "'." ++ nl))
     else
       emit (cerr (argv0 ++ ": Unknown option character `\x"
                     ++ String optopt EmptyString ++ "`." ++ nl))) ;;
    halt (Exit 1)
  else
    halt Abort.

(** The body of the loop of lines 85-126 at index [i]. *)
Definition option_body (argv : list string) (i : nat) (v : Locals)
  : M double Locals :=
  match nth_error argv i with
  | None => halt (Undefined argv_out_of_bounds)
  | Some a =>
      if negb (char_at a 0 =? "-")%char then ret v
      else
        let optarg := nth_error argv (S i) in
        let optopt := char_at a 1 in
        option_switch (hd "" argv) optarg optopt v
  end.

(** [for (int i = 1; i < argc; i++)]. *)
Definition option_loop (argv : list string) : M double Locals :=
  for_loop (option_body argv) (List.length argv - 1) 1%nat initial.

(** Lines 147-178: what the [try] block does with the game. *)
Definition enumerate (v : Locals) (game : Game) : M double Z :=
  if uselrs v then
    call RenderRational (lrs_Solve env game) ;;
    ret 0%Z
  else if useFloat v then
    solution <- call (RenderDouble (numDecimals v))
                     (SolveDetailed_double env game) ;;
    (if showConnect v then
       PrintCliques (GetCliques solution) (RenderDouble (numDecimals v))
     else ret tt) ;;
    ret 0%Z
  else
    solution <- call RenderRational (SolveDetailed_Rational env game) ;;
    (if showConnect v then
       PrintCliques (GetCliques solution) RenderRational
     else ret tt) ;;
    ret 0%Z.

(** The body of the [try] block, lines 146-178. *)
Definition try_block (v : Locals) (input_stream : istream) : M double Z :=
  game <- read_game env input_stream ;;
  enumerate v game.

(** Lines 145-183. *)
Definition solve (v : Locals) (input_stream : istream) : M double Z :=
  try_catch (try_block v input_stream).

Definition main_body (argv : list string) : M double Z :=
  v <- option_loop argv ;;
  (if negb (quiet v) then PrintBanner else ret tt) ;;
  input_stream <- open_input env argv ;;
  solve v input_stream.

Definition main (argv : list string) : list (Event double) * Termination :=
  process (main_body argv).

End Program.

End EnumMixed.

(* ===================================================================== *)
(** * nfgipa: src/tools/gt/nfgipa.cc *)
(* ===================================================================== *)

Module NfgIpa.

Record Locals : Type := mkLocals {
  quiet : bool;
  verbose : bool;
  numDecimals : Z
}.

Definition initial : Locals :=
  {| quiet := false; verbose := false; numDecimals := 6 |}.

Section Program.

Context {double : Type}.
Variable env : Collaborators double.

Definition banner : list string :=
  [ ("Compute Nash equilibria using iterated polymatrix approximation"
       ++ nl)%string;
    ("Gametracer version 0.2, Copyright (C) 2002, "
       ++ "Ben Blum and Christian Shelton" ++ nl)%string;
    ("Gambit version " ++ VERSION env
       ++ ", Copyright (C) 1994-2016, The Gambit Project" ++ nl)%string;
    ("This is free software, distributed under the GNU GPL"
       ++ nl ++ nl)%string ].

(** Lines 36-42, on [std::cerr]. *)
Definition PrintBanner : M double unit :=
  (map cerr banner, inl tt).

Definition usage (progname : string) : list string :=
  [ ("Usage: " ++ progname ++ " [OPTIONS] [file]" ++ nl)%string;
    ("If file is not specified, attempts to read game from standard input."
       ++ nl)%string;
    ("Options:" ++ nl)%string;
    ("  -d DECIMALS      show equilibria as floating point "
       ++ "with DECIMALS digits" ++ nl)%string;
    ("  -h, --help       print this help message" ++ nl)%string;
    ("  -q               quiet mode (suppresses banner)" ++ nl)%string;
    ("  -V, --verbose    verbose mode (shows intermediate output)"
       ++ nl)%string;
    ("  -v, --version    print version information" ++ nl)%string ].

(** Lines 44-57: never returns. *)
Definition PrintHelp {A} (progname : string) : M double A :=
  PrintBanner ;;
  (map cerr (usage progname), inl tt) ;;
  halt (Exit 1).

(** The [switch (optopt)] of lines 73-100. *)
Definition option_switch (argv0 : string) (optarg : option string)
    (optopt : ascii) (v : Locals) : M double Locals :=
  if (optopt =? "v")%char then
    PrintBanner ;; halt (Exit 1)
  else if (optopt =? "q")%char then
    ret {| quiet := true; verbose := verbose v;
           numDecimals := numDecimals v |}
  else if (optopt =? "V")%char then
    ret {| quiet := quiet v; verbose := true;
           numDecimals := numDecimals v |}
  else if (optopt =? "d")%char then
    n <- atoi optarg ;;
    ret {| quiet := quiet v; verbose := verbose v; numDecimals := n |}
  else if (optopt =? "S")%char then
    ret v
  else if (optopt =? "h")%char then
    PrintHelp argv0
  else if (optopt =? "?")%char then
    (if isprint optopt then
       emit (cerr (argv0 ++ ": Unknown option `-"
                     ++ String optopt EmptyString ++ "'." ++ nl))
     else
       emit (cerr (argv0 ++ ": Unknown option character `\x"
                     ++ String optopt EmptyString ++ "`." ++ nl))) ;;
    halt (Exit 1)
  else
    halt Abort.

(** The body of the loop of lines 67-101 at index [i]. *)
Definition option_body (argv : list string) (i : nat) (v : Locals)
  : M double Locals :=
  match nth_error argv i with
  | None => halt (Undefined argv_out_of_bounds)
  | Some a =>
      if negb (char_at a 0 =? "-")%char then ret v
      else
        let optarg := nth_error argv (S i) in
        let optopt := char_at a 1 in
        option_switch (hd "" argv) optarg optopt v
  end.

(** [for (int i = 1; i < argc; i++)]. *)
Definition option_loop (argv : list string) : M double Locals :=
  for_loop (option_body argv) (List.length argv - 1) 1%nat initial.

(** Lines 122-127: what the [try] block does with the game. *)
Definition approximate (v : Locals) (game : Game) : M double Z :=
  call (RenderDouble (numDecimals v)) (ipa_Solve env game) ;;
  ret 0%Z.

(** The body of the [try] block, lines 121-127. *)
Definition try_block (v : Locals) (input_stream : istream) : M double Z :=
  game <- read_game env input_stream ;;
  approximate v game.

(** Lines 120-132. *)
Definition solve (v : Locals) (input_stream : istream) : M double Z :=
  try_catch (try_block v input_stream).

Definition main_body (argv : list string) : M double Z :=
  v <- option_loop argv ;;
  (if negb (quiet v) then PrintBanner else ret tt) ;;
  input_stream <- open_input env argv ;;
  solve v input_stream.

Definition main (argv : list string) : list (Event double) * Termination :=
  process (main_body argv).

End Program.

End NfgIpa.

(* ===================================================================== *)
(** * The solvers, as the specification describes them *)
(* ===================================================================== *)

(** The solver classes live in libgambit; what follows renders the
    contracts the specification gives for them, for the statements that
    are about the solvers rather than about the front-ends. *)

Module SpecModel.

Definition total (w : list Q) : Q := fold_right Qplus 0%Q w.

(** Modelled from the spec: a probability distribution of section 3,
    "non-negative weights summing to 1", over [n] pure strategies
    (class [MixedStrategyProfile] of libgambit). *)
Definition is_distribution (n : nat) (w : list Rational) : bool :=
  (List.length w =? n)%nat
  && forallb (fun x : Rational => Qle_bool 0 x) w
  && Qeq_bool (total (map this w)) 1.

Fixpoint all2 {A B} (f : A -> B -> bool) (l : list A) (m : list B) : bool :=
  match l, m with
  | [], [] => true
  | a :: l', b :: m' => f a b && all2 f l' m'
  | _, _ => false
  end.

(** Modelled from the spec: a Mixed Strategy Profile of section 3, one
    distribution per player (class [MixedStrategyProfile]). *)
Definition is_profile (g : Game) (sigma : MixedStrategyProfile Rational)
  : bool :=
  all2 is_distribution (strategies g) sigma.

(** Modelled from the spec: the pure-strategy profiles of section 3, "one
    strategy per player", over which the payoff function of a [Game] is
    defined. *)
Fixpoint pure_profiles (ns : list nat) : list (list nat) :=
  match ns with
  | [] => [[]]
  | n :: rest =>
      flat_map (fun s => map (cons s) (pure_profiles rest)) (seq 0 n)
  end.

Definition weight (sigma : MixedStrategyProfile Rational) (q s : nat) : Q :=
  this (nth s (nth q sigma []) 0%Qc).

(** Modelled from the spec: the weight a Mixed Strategy Profile gives to
    the pure profile [pi], player [p] left out: the probability that the
    players other than [p] play as in [pi]. *)
Definition others (g : Game) (sigma : MixedStrategyProfile Rational)
    (p : nat) (pi : list nat) : Q :=
  fold_right Qmult 1%Q
    (map (fun q => if (q =? p)%nat then 1%Q
                   else weight sigma q (nth q pi O))
         (seq 0 (players g))).

(** Modelled from the spec: the payoff of section 3, taken in expectation:
    what the pure strategy [s] pays player [p] against the mixed strategies
    of the others. *)
Definition payoff_against (g : Game) (sigma : MixedStrategyProfile Rational)
    (p s : nat) : Q :=
  total (map (fun pi => (others g sigma p pi * payoff g pi p)%Q)
             (filter (fun pi => (nth p pi O =? s)%nat)
                     (pure_profiles (strategies g)))).

(** Modelled from the spec: a best response, as in the glossary and in the
    Equilibrium Pairer of section 4.4: no pure strategy of player [p] pays
    more against the others than [s] does. *)
Definition best_response (g : Game) (sigma : MixedStrategyProfile Rational)
    (p s : nat) : bool :=
  forallb (fun s' => Qle_bool (payoff_against g sigma p s')
                              (payoff_against g sigma p s))
          (seq 0 (nth p (strategies g) O)).

(** Modelled from the spec: the complementarity condition of section 3
    and of the glossary, "a strategy is played with positive probability
    only if it is a best response" (checked by the Equilibrium Pairer of
    [EnumMixedStrategySolver]). *)
Definition complementary (g : Game) (sigma : MixedStrategyProfile Rational)
  : bool :=
  forallb (fun p =>
             forallb (fun s => Qle_bool (weight sigma p s) 0
                               || best_response g sigma p s)
                     (seq 0 (nth p (strategies g) O)))
          (seq 0 (players g)).

(** Modelled from the spec: a confirmed equilibrium of section 3, a Mixed
    Strategy Profile that satisfies complementarity. *)
Definition is_equilibrium (g : Game) (sigma : MixedStrategyProfile Rational)
  : bool :=
  is_profile g sigma && complementary g sigma.

(** Modelled from the spec: the output contract of the exact enumeration
    ([EnumMixedStrategySolver<Rational>::SolveDetailed]) on a game with
    finitely many equilibria, sections 4.3, 4.4 and 8: every equilibrium
    is reported, exactly once, and nothing else is. *)
Definition enumerates (g : Game)
    (out : list (MixedStrategyProfile Rational)) : Prop :=
  NoDup out /\ forall sigma, In sigma out <-> is_equilibrium g sigma = true.

Definition matrix_entry (m : list (list Z)) (i j : nat) : Q :=
  inject_Z (nth j (nth i m []) 0%Z).

(** Modelled from the spec: a two-player [Game] given by its payoff
    matrices, [a] for player 1 and [b] for player 2; rows are player 1's
    strategies, columns player 2's. *)
Definition bimatrix (a b : list (list Z)) : Game :=
  mkGame [List.length a; List.length (nth 0 a [])]
    (fun pi p => match p with
                 | O => matrix_entry a (nth 0 pi O) (nth 1 pi O)
                 | _ => matrix_entry b (nth 0 pi O) (nth 1 pi O)
                 end).

(** Modelled from the spec: the coordination game of the scenario of
    section 8, payoff matrices [[3,0],[0,2]] and [[2,0],[0,3]]. *)
Definition coordination : Game :=
  bimatrix [[3; 0]; [0; 2]]%Z [[2; 0]; [0; 3]]%Z.

Definition frac (n : Z) (d : positive) : Rational := Q2Qc (n # d).

Definition pure_1 : MixedStrategyProfile Rational := [[1; 0]; [1; 0]]%Qc.
Definition pure_2 : MixedStrategyProfile Rational := [[0; 1]; [0; 1]]%Qc.

(** Player 1 plays (3/5, 2/5), player 2 plays (2/5, 3/5). *)
Definition mixed : MixedStrategyProfile Rational :=
  [[frac 3 5; frac 2 5]; [frac 2 5; frac 3 5]].

(** Player 1 plays (2/5, 3/5), player 2 plays (3/5, 2/5). *)
Definition mixed_swapped : MixedStrategyProfile Rational :=
  [[frac 2 5; frac 3 5]; [frac 3 5; frac 2 5]].

Section Polymatrix.

Context {T : Type}.

(** One update of the profile: the decoupled best responses,
    recombined. *)
Variable refine :
  Game -> MixedStrategyProfile T -> MixedStrategyProfile T.

(** Whether the update from the first profile to the second is below
    the convergence tolerance. *)
Variable below_tolerance :
  MixedStrategyProfile T -> MixedStrategyProfile T -> bool.

Variable max_iterations : nat.

(** The weight [1/n]. *)
Variable one_over : nat -> T.

Variable label : string.

(** Modelled from the spec: the loop of the Polymatrix Approximation
    Solver, section 4.6 ([NashIPAStrategySolver::Solve]): "repeats until
    the update's magnitude falls below a convergence tolerance or a
    maximum iteration count is reached", and then "signals
    non-convergence as a distinct result state". *)
Fixpoint iterate (g : Game) (fuel : nat) (sigma : MixedStrategyProfile T)
  : MixedStrategyProfile T * Convergence :=
  match fuel with
  | O => (sigma, NotConverged)
  | S k =>
      if below_tolerance sigma (refine g sigma)
      then (refine g sigma, Converged)
      else iterate g k (refine g sigma)
  end.

(** Modelled from the spec: the uniform starting profile of the scenario
    of section 8, every strategy of a player with [n] strategies at weight
    [1/n]. *)
Definition uniform (g : Game) : MixedStrategyProfile T :=
  map (fun n => repeat (one_over n) n) (strategies g).

(** Modelled from the spec: [NashIPAStrategySolver::Solve] started from
    the uniform profile: it "returns exactly one approximate Mixed
    Strategy Profile", which it hands to its renderer. *)
Definition polymatrix_Solve (g : Game)
  : SolverRun (MixedStrategyProfile T)
              (MixedStrategyProfile T * Convergence) :=
  let r := iterate g max_iterations (uniform g) in
  mkRun [(fst r, label)] (inl r).

End Polymatrix.

End SpecModel.

(* ===================================================================== *)
(** * A concrete library, for running the programs *)
(* ===================================================================== *)

Module Example.

Import SpecModel.

(** A finite binary64 value, [mantissa * 2 ^ exponent]. *)
Definition binary64 : Type := (Z * Z)%type.

Definition coordination_file : string := "coordination.nfg".
Definition three_player_file : string := "three.nfg".
Definition malformed_file : string := "malformed.nfg".

(** Three players with two strategies each; everybody gets 1 when all
    play the same strategy and 0 otherwise. *)
Definition three_players : Game :=
  mkGame [2; 2; 2]%nat
    (fun pi _ =>
       if (nth 0 pi O =? nth 1 pi O)%nat && (nth 1 pi O =? nth 2 pi O)%nat
       then 1%Q else 0%Q).

Definition equilibria : list (MixedStrategyProfile Rational) :=
  [pure_1; pure_2; mixed].

(** The doubles nearest to 1, 0, 3/5 and 2/5. *)
Definition equilibria_double : list (MixedStrategyProfile binary64) :=
  [ [[(1, 0); (0, 0)]; [(1, 0); (0, 0)]];
    [[(0, 0); (1, 0)]; [(0, 0); (1, 0)]];
    [[(5404319552844595, -53); (7205759403792794, -54)];
     [(7205759403792794, -54); (5404319552844595, -53)]] ]%Z.

Definition labelled {P} (l : list P) : list (P * string) :=
  map (fun p => (p, "NE"%string)) l.

Definition read (s : istream) : Game + exn :=
  match s with
  | file_stream path =>
      if (path =? coordination_file)%string then inl coordination
      else if (path =? three_player_file)%string then inl three_players
      else inr (runtime_error "Parse error in game file")
  | cin => inr (runtime_error "Parse error in game file")
  end.

(** A polymatrix step that leaves the profile alone, so that the first
    update already is below any tolerance. *)
Definition ipa : Game -> SolverRun (MixedStrategyProfile binary64)
                            (MixedStrategyProfile binary64 * Convergence) :=
  polymatrix_Solve (fun _ sigma => sigma) (fun _ _ => true) 100
                   (fun n => ((2 ^ 53 / Z.of_nat n)%Z, (-53)%Z)) "NE".

Definition library : Collaborators binary64 := {|
  VERSION := "16.0.0";
  IndexException := runtime_error "Index out of range";
  is_open := fun path =>
    (path =? coordination_file)%string || (path =? three_player_file)%string
    || (path =? malformed_file)%string;
  ReadGame := read;
  lrs_Solve := fun _ => mkRun (labelled equilibria) (inl tt);
  SolveDetailed_Rational := fun _ =>
    mkRun (labelled equilibria)
          (inl (mkSolution (map (fun p => [p]) equilibria)));
  SolveDetailed_double := fun _ =>
    mkRun (labelled equilibria_double)
          (inl (mkSolution (map (fun p => [p]) equilibria_double)));
  ipa_Solve := ipa
|}.


(** The same library around a polymatrix solver whose updates never get
    below the tolerance: it runs through its 100 iterations. *)
Definition stalled : Collaborators binary64 := {|
  VERSION := VERSION library;
  IndexException := IndexException library;
  is_open := is_open library;
  ReadGame := ReadGame library;
  lrs_Solve := lrs_Solve library;
  SolveDetailed_Rational := SolveDetailed_Rational library;
  SolveDetailed_double := SolveDetailed_double library;
  ipa_Solve :=
    polymatrix_Solve (fun _ sigma => sigma) (fun _ _ => false) 100
                     (fun n => ((2 ^ 53 / Z.of_nat n)%Z, (-53)%Z)) "NE"
|}.

End Example.

(* ===================================================================== *)
(** * Vocabulary of the statements *)
(* ===================================================================== *)

(** The option letters that have a [case] of their own, ['?'] apart. *)
Definition enummixed_letters : list ascii :=
  ["v"; "d"; "D"; "L"; "h"; "c"; "S"; "q"]%char.

Definition nfgipa_letters : list ascii :=
  ["v"; "q"; "V"; "d"; "S"; "h"]%char.

(** What [case '?'] does: the diagnostic, then [return 1]. *)
Definition unknown_option {double V} (argv0 : string) : M double V :=
  ([cerr (argv0 ++ ": Unknown option `-?'." ++ nl)], inr (Exit 1)).

(** The events [PrintCliques] is to produce: clique after clique, counted
    from [cl], each profile labelled with the number of its clique. *)
Fixpoint clique_events {double P} (Render : P -> string -> Event double)
    (cl : nat) (cliques : list (list P)) : list (Event double) :=
  match cliques with
  | [] => []
  | clique :: rest =>
      map (fun p => Render p ("convex-" ++ lexical_cast cl)%string) clique
      ++ clique_events Render (S cl) rest
  end.

(** The profiles a trace renders, in order: the standard output. *)
Definition is_render {double} (e : Event double) : bool :=
  match e with
  | RenderRational _ _ | RenderDouble _ _ _ => true
  | _ => false
  end.

Definition renders {double} (t : list (Event double)) : list (Event double) :=
  filter is_render t.

(** An argument the option loops take for the option [-d]. *)
Definition is_d_option (a : string) : Prop :=
  char_at a 0 = "-"%char /\ char_at a 1 = "d"%char.

(** A computation that can stop only by throwing. *)
Definition throws_only {double A} (m : M double A) : Prop :=
  forall h, snd m = inr h -> exists e, h = Throw e.

(** The termination a halt stands for when nothing handles it. *)
Definition ends (h : Halt) : Termination :=
  match h with
  | Exit status => Exited status
  | Abort => Aborted
  | Undefined u => UndefinedBehaviour u
  | Throw _ => Aborted
  end.

(** Diagnostics and file handling: the events before the game is read. *)
Definition is_quiet {double} (e : Event double) : bool :=
  match e with
  | cerr _ | perror _ | ifstream_open _ => true
  | _ => false
  end.

Definition quiet_event {double} (e : Event double) : Prop :=
  is_quiet e = true.

(** Renderings: what the solvers and [PrintCliques] emit. *)
Definition render_event {double} (e : Event double) : Prop :=
  is_render e = true.

(** The termination of a computation that returns [main]'s value. *)
Definition termination {double} (m : M double Z) : Termination :=
  match snd m with
  | inl status => Exited status
  | inr h => ends h
  end.

(** A solver's own rendering, as events. *)
Definition rendering {double P R} (Render : P -> string -> Event double)
    (r : SolverRun P R) : list (Event double) :=
  map (fun pl => Render (fst pl) (snd pl)) (rendered r).

(** What the solver that the options select renders for a game. *)
Definition solver_rendering {double} (env : Collaborators double)
    (v : EnumMixed.Locals) (g : Game) : list (Event double) :=
  if EnumMixed.uselrs v then rendering RenderRational (lrs_Solve env g)
  else if EnumMixed.useFloat v then
    rendering (RenderDouble (EnumMixed.numDecimals v))
              (SolveDetailed_double env g)
  else rendering RenderRational (SolveDetailed_Rational env g).

(** The clique output of a run: what [PrintCliques] is given to print. *)
Definition clique_output {double} (env : Collaborators double)
    (v : EnumMixed.Locals) (g : Game) : list (Event double) :=
  if EnumMixed.uselrs v then []
  else if EnumMixed.useFloat v then
    match outcome (SolveDetailed_double env g) with
    | inl solution =>
        clique_events (RenderDouble (EnumMixed.numDecimals v)) 1
                      (GetCliques solution)
    | inr _ => []
    end
  else
    match outcome (SolveDetailed_Rational env g) with
    | inl solution => clique_events RenderRational 1 (GetCliques solution)
    | inr _ => []
    end.

(** The locals with [eliminate] set to [b]. *)
Definition with_eliminate (b : bool) (v : EnumMixed.Locals)
  : EnumMixed.Locals :=
  {| EnumMixed.useFloat := EnumMixed.useFloat v;
     EnumMixed.uselrs := EnumMixed.uselrs v;
     EnumMixed.quiet := EnumMixed.quiet v;
     EnumMixed.eliminate := b;
     EnumMixed.showConnect := EnumMixed.showConnect v;
     EnumMixed.numDecimals := EnumMixed.numDecimals v |}.

(** Whether the option loops take the argument [a] for the option [-c]:
    [argv[i][0] == '-'] and [argv[i][1] == c]. *)
Definition option_is (c : ascii) (a : string) : bool :=
  (char_at a 0 =? "-")%char && (char_at a 1 =? c)%char.

(** The value [numDecimals] holds after the arguments [args], from [d]:
    each [-d] stores what [atoi] makes of the argument that follows it. *)
Fixpoint decimals_after (args : list string) (d : Z) : Z :=
  match args with
  | [] => d
  | a :: rest =>
      decimals_after rest
        (if option_is "d" a
         then match rest with
              | s :: _ => decimal_prefix s
              | [] => d
              end
         else d)
  end.

(** The locals of nfgipa with [verbose] set to [b]. *)
Definition with_verbose (b : bool) (v : NfgIpa.Locals) : NfgIpa.Locals :=
  {| NfgIpa.quiet := NfgIpa.quiet v;
     NfgIpa.verbose := b;
     NfgIpa.numDecimals := NfgIpa.numDecimals v |}.

(** The shape of the trace of a run: diagnostics and file handling, and
    then, if the game is read at all, the read from [s], renderings, and at
    most one error line. *)
Definition run_shape {double} (s : istream) (t : list (Event double)) : Prop :=
  exists pre post,
    t = pre ++ post
    /\ Forall quiet_event pre
    /\ (post = []
        \/ exists rs err,
             post = ReadGameFrom s :: rs ++ err
             /\ Forall render_event rs
             /\ (err = []
                 \/ exists what, err = [cerr ("Error: " ++ what ++ nl)])).

(** The size of a clique partition: the number of its profiles. *)
Definition profiles_in {P} (cliques : list (list P)) : nat :=
  List.length (List.concat cliques).

(** The body of an option loop on the argument [a], followed in [argv] by
    [optarg]. *)
Definition scan_arg {double V}
    (switch : string -> option string -> ascii -> V -> M double V)
    (argv0 a : string) (optarg : option string) (v : V) : M double V :=
  if negb (char_at a 0 =? "-")%char then ret v
  else switch argv0 optarg (char_at a 1) v.

(** An option loop as a recursion over the arguments it has yet to see. *)
Fixpoint scan {double V}
    (switch : string -> option string -> ascii -> V -> M double V)
    (argv0 : string) (args : list string) (v : V) : M double V :=
  match args with
  | [] => ret v
  | a :: rest =>
      bind (scan_arg switch argv0 a (hd_error rest) v)
           (scan switch argv0 rest)
  end.

(* ===================================================================== *)
(** * Laws of the trace monad and of the loop *)
(* ===================================================================== *)

Section Laws.

Context {double : Type}.

Lemma bind_ret_l {A B} (a : A) (f : A -> M double B) :
  bind (ret a) f = f a.
Proof. unfold bind, ret; simpl. now destruct (f a). Qed.

Lemma bind_halt {A B} (h : Halt) (f : A -> M double B) :
  bind (halt h) f = halt h.
Proof. reflexivity. Qed.

Lemma bind_returns {A B} (m : M double A) (f : A -> M double B) t a :
  m = (t, inl a) -> bind m f = (t ++ fst (f a), snd (f a)).
Proof. now intros ->. Qed.

Lemma bind_halts {A B} (m : M double A) (f : A -> M double B) t h :
  m = (t, inr h) -> bind m f = (t, inr h).
Proof. now intros ->. Qed.

Lemma bind_assoc {A B C} (m : M double A) (f : A -> M double B)
    (g : B -> M double C) :
  bind (bind m f) g = bind m (fun a => bind (f a) g).
Proof.
  destruct m as [t [a | h]]; unfold bind; simpl; [| reflexivity].
  destruct (f a) as [t' [b | h']]; simpl; [| reflexivity].
  now rewrite app_assoc.
Qed.

Lemma bind_ext {A B} (m : M double A) (f g : A -> M double B) :
  (forall a, f a = g a) -> bind m f = bind m g.
Proof.
  intros H. destruct m as [t [a | h]]; unfold bind; simpl;
    [now rewrite H | reflexivity].
Qed.

(** Every event of [bind m f] comes from [m] or from the continuation. *)
Lemma bind_Forall {A B} (P : Event double -> Prop) (m : M double A)
    (f : A -> M double B) :
  Forall P (fst m) ->
  (forall a, snd m = inl a -> Forall P (fst (f a))) ->
  Forall P (fst (bind m f)).
Proof.
  destruct m as [t [a | h]]; unfold bind; simpl; intros Hm Hf.
  - apply Forall_app; split; [exact Hm | now apply Hf].
  - exact Hm.
Qed.

Lemma for_loop_Forall {V} (P : Event double -> Prop)
    (body : nat -> V -> M double V) :
  (forall i v, Forall P (fst (body i v))) ->
  forall count from v, Forall P (fst (for_loop body count from v)).
Proof.
  intros Hbody count; induction count as [| k IH]; intros from v; simpl.
  - constructor.
  - apply bind_Forall; [apply Hbody | intros; apply IH].
Qed.

(** A loop of [n + m] rounds is [n] rounds and then [m] more. *)
Lemma for_loop_add {V} (body : nat -> V -> M double V) n m from v :
  for_loop body (n + m) from v
  = bind (for_loop body n from v) (for_loop body m (from + n)).
Proof.
  revert from v; induction n as [| n IH]; intros from v; simpl.
  - rewrite bind_ret_l, Nat.add_0_r. reflexivity.
  - rewrite bind_assoc. apply bind_ext; intro v'.
    rewrite IH. now rewrite Nat.add_succ_r.
Qed.

End Laws.

(* ===================================================================== *)
(** * The option loops *)
(* ===================================================================== *)

Ltac switch_on c :=
  repeat match goal with
         | |- context [(c =? ?k)%char] =>
             destruct (Ascii.eqb_spec c k) as [-> | ?]
         end.

Section OptionLoops.

Context {double : Type}.
Variable env : Collaborators double.

Lemma enummixed_default argv0 optarg c v :
  ~ In c enummixed_letters -> c <> "?"%char ->
  EnumMixed.option_switch env argv0 optarg c v = halt Abort.
Proof.
  unfold enummixed_letters; simpl; intros Hc Hq.
  unfold EnumMixed.option_switch.
  switch_on c; try reflexivity; exfalso; tauto.
Qed.

Lemma nfgipa_default argv0 optarg c v :
  ~ In c nfgipa_letters -> c <> "?"%char ->
  NfgIpa.option_switch env argv0 optarg c v = halt Abort.
Proof.
  unfold nfgipa_letters; simpl; intros Hc Hq.
  unfold NfgIpa.option_switch.
  switch_on c; try reflexivity; exfalso; tauto.
Qed.

Lemma atoi_cases (optarg : option string) :
  (exists n, atoi (double := double) optarg = ret n)
  \/ (exists u, atoi (double := double) optarg = halt (Undefined u)).
Proof.
  destruct optarg as [s |]; simpl; [| right; eauto].
  destruct (fits_int (decimal_prefix s)); [left | right]; eauto.
Qed.

Lemma enummixed_diagnostic argv0 optarg c v :
  EnumMixed.option_switch env argv0 optarg c v = unknown_option argv0
  <-> c = "?"%char.
Proof.
  split.
  - unfold EnumMixed.option_switch, unknown_option.
    switch_on c; try reflexivity; try discriminate.
    destruct (atoi_cases optarg) as [[k ->] | [u ->]]; discriminate.
  - intros ->. reflexivity.
Qed.

Lemma nfgipa_diagnostic argv0 optarg c v :
  NfgIpa.option_switch env argv0 optarg c v = unknown_option argv0
  <-> c = "?"%char.
Proof.
  split.
  - unfold NfgIpa.option_switch, unknown_option.
    switch_on c; try reflexivity; try discriminate.
    destruct (atoi_cases optarg) as [[k ->] | [u ->]]; discriminate.
  - intros ->. reflexivity.
Qed.

End OptionLoops.

(* ===================================================================== *)
(** * How computations stop, and what PrintCliques renders *)
(* ===================================================================== *)

Section Inversion.

Context {double : Type}.

Lemma bind_inr {A B} (m : M double A) (f : A -> M double B) h :
  snd (bind m f) = inr h ->
  snd m = inr h \/ exists a, snd m = inl a /\ snd (f a) = inr h.
Proof.
  destruct m as [t [a | h']]; unfold bind; cbn [fst snd]; intros H.
  - right. now exists a.
  - left. now inversion H.
Qed.

Lemma throws_only_ret {A} (a : A) : throws_only (ret (double := double) a).
Proof. intros h H; discriminate H. Qed.

Lemma throws_only_returns {A} (m : M double A) t a :
  m = (t, inl a) -> throws_only m.
Proof. intros -> h H; discriminate H. Qed.

Lemma throws_only_bind {A B} (m : M double A) (f : A -> M double B) :
  throws_only m -> (forall a, throws_only (f a)) -> throws_only (bind m f).
Proof.
  intros Hm Hf h H. apply bind_inr in H. destruct H as [H | [a [_ H]]].
  - now apply Hm.
  - now apply (Hf a).
Qed.

Lemma throws_only_call {P R} (Render : P -> string -> Event double)
    (r : SolverRun P R) :
  throws_only (call Render r).
Proof.
  intros h. unfold call; simpl. destruct (outcome r); intros H;
    inversion H; eauto.
Qed.

Lemma throws_only_try_catch (m : M double Z) :
  throws_only m -> throws_only (try_catch m).
Proof.
  intros Hm h. unfold try_catch.
  destruct m as [t [n | [status | | u | [what |]]]]; simpl; intros H;
    try discriminate H; apply (Hm h); exact H.
Qed.

Variable env : Collaborators double.

Lemma throws_only_read_game s : throws_only (read_game env s).
Proof.
  unfold read_game. apply throws_only_bind.
  - apply throws_only_returns with (t := [ReadGameFrom s]) (a := tt).
    reflexivity.
  - intros _. destruct (ReadGame env s).
    + apply throws_only_ret.
    + intros h H. inversion H. eauto.
Qed.

(** ** [PrintCliques] *)

Section Cliques.

Context {T : Type}.
Variable Render : MixedStrategyProfile T -> string -> Event double.
Variable p_cliques : list (list (MixedStrategyProfile T)).

(** The inner loop, started at profile [1 + length done]. *)
Lemma inner_loop cl clique done todo :
  nth_error p_cliques cl = Some clique ->
  clique = done ++ todo ->
  for_loop
    (fun i _ =>
       row <- List_at env p_cliques (S cl) ;;
       p <- List_at env row i ;;
       emit (Render p ("convex-" ++ lexical_cast (S cl))))
    (List.length todo) (S (List.length done)) tt
  = (map (fun p => Render p ("convex-" ++ lexical_cast (S cl))) todo,
     inl tt).
Proof.
  intros Hcl. revert done.
  induction todo as [| p todo IH]; intros done Hsplit; [reflexivity |].
  cbn [List.length for_loop].
  assert (Hp : nth_error clique (List.length done) = Some p).
  { rewrite Hsplit, nth_error_app2, Nat.sub_diag by lia. reflexivity. }
  assert (Hstep :
    (row <- List_at env p_cliques (S cl) ;;
     q <- List_at env row (S (List.length done)) ;;
     emit (Render q ("convex-" ++ lexical_cast (S cl))))
    = ([Render p ("convex-" ++ lexical_cast (S cl))], inl tt)).
  { unfold List_at. rewrite Hcl, bind_ret_l, Hp, bind_ret_l.
    reflexivity. }
  rewrite (bind_returns _ _ _ _ Hstep).
  specialize (IH (done ++ [p])).
  rewrite length_app, Nat.add_comm in IH. cbn [List.length Nat.add] in IH.
  rewrite IH by (rewrite <- app_assoc; exact Hsplit).
  reflexivity.
Qed.

Lemma outer_loop done todo :
  p_cliques = done ++ todo ->
  for_loop
    (fun cl _ =>
       clique <- List_at env p_cliques cl ;;
       for_loop
         (fun i _ =>
            row <- List_at env p_cliques cl ;;
            p <- List_at env row i ;;
            emit (Render p ("convex-" ++ lexical_cast cl)))
         (List.length clique) 1%nat tt)
    (List.length todo) (S (List.length done)) tt
  = (clique_events Render (S (List.length done)) todo, inl tt).
Proof.
  revert done. induction todo as [| clique todo IH]; intros done Hsplit;
    [reflexivity |].
  cbn [List.length for_loop clique_events].
  assert (Hcl : nth_error p_cliques (List.length done) = Some clique).
  { rewrite Hsplit, nth_error_app2, Nat.sub_diag by lia. reflexivity. }
  pose proof (inner_loop (List.length done) clique [] clique Hcl eq_refl)
    as Hin.
  cbn [List.length] in Hin.
  unfold List_at at 1. rewrite Hcl, bind_ret_l. cbv beta.
  rewrite Hin.
  specialize (IH (done ++ [clique])).
  rewrite length_app, Nat.add_comm in IH. cbn [List.length Nat.add] in IH.
  unfold bind at 1. cbn [fst snd].
  rewrite IH by (rewrite <- app_assoc; exact Hsplit).
  reflexivity.
Qed.

(** [PrintCliques] never raises [IndexException] and renders the
    cliques in order. *)
Lemma PrintCliques_events :
  EnumMixed.PrintCliques env p_cliques Render
  = (clique_events Render 1 p_cliques, inl tt).
Proof. exact (outer_loop [] p_cliques eq_refl). Qed.

End Cliques.

End Inversion.

(* ===================================================================== *)
(** * Where the option loop stops *)
(* ===================================================================== *)

Section Reaching.

Context {double : Type}.

(** If the loop over [argv] arrives at index [i] and stops there, the
    whole loop stops there. *)
Lemma for_loop_stops {V} (body : nat -> V -> M double V)
    (argv : list string) (i : nat) (v0 v : V) t t' h :
  (1 <= i)%nat -> (i < List.length argv)%nat ->
  for_loop body (i - 1) 1 v0 = (t, inl v) ->
  body i v = (t', inr h) ->
  for_loop body (List.length argv - 1) 1 v0 = (t ++ t', inr h).
Proof.
  intros Hi Hlen Hreach Hstop.
  replace (List.length argv - 1)%nat
    with ((i - 1) + S (List.length argv - 1 - i))%nat by lia.
  rewrite for_loop_add, (bind_returns _ _ _ _ Hreach).
  replace (1 + (i - 1))%nat with i by lia.
  cbn [for_loop]. rewrite (bind_halts _ _ _ _ Hstop). reflexivity.
Qed.

Lemma process_halts {A} (m : M double A) (k : A -> M double Z) t h :
  m = (t, inr h) ->
  process (bind m k)
  = (t, ends h).
Proof. intros ->. now destruct h. Qed.

End Reaching.


(* ===================================================================== *)
(** * Opening the input, and the stages of [main] *)
(* ===================================================================== *)

Lemma nth_error_last {A} (l : list A) (d : A) :
  l <> [] -> nth_error l (List.length l - 1) = Some (last l d).
Proof.
  intros Hl. destruct (exists_last Hl) as (l' & a & ->).
  rewrite last_last, length_app, nth_error_app2 by (simpl; lia).
  simpl. replace (List.length l' + 1 - 1 - List.length l')%nat with O by lia.
  reflexivity.
Qed.

Lemma optind_below_argc (argv : list string) :
  (argc argv - 1 <? argc argv)%Z = true.
Proof. apply Z.ltb_lt. lia. Qed.

Section Stages.

Context {double : Type}.
Variable env : Collaborators double.

Lemma argv_at_last (argv : list string) :
  argv <> [] -> argv_at (double := double) argv (argc argv - 1) = ret (last argv "").
Proof.
  intros Hl. unfold argv_at, argc.
  assert (0 < List.length argv)%nat
    by (destruct argv; [congruence | simpl; lia]).
  destruct (Z.ltb_spec (Z.of_nat (List.length argv) - 1) 0); [lia |].
  replace (Z.to_nat (Z.of_nat (List.length argv) - 1))
    with (List.length argv - 1)%nat by lia.
  now rewrite (nth_error_last argv "" Hl).
Qed.

Lemma argv_at_0 (argv : list string) :
  argv <> [] -> argv_at (double := double) argv 0 = ret (hd "" argv).
Proof. destruct argv; [congruence | reflexivity]. Qed.

(** The file opened is the last argument, whatever it is. *)
Lemma open_input_last (argv : list string) :
  argv <> [] ->
  open_input env argv
  = if is_open env (last argv "")
    then ([ifstream_open (last argv "")], inl (file_stream (last argv "")))
    else ([ifstream_open (last argv "");
           perror (hd "" argv ++ ": " ++ last argv "")],
          inr (Exit 1)).
Proof.
  intros Hl. unfold open_input.
  rewrite optind_below_argc, (argv_at_last argv Hl), bind_ret_l.
  destruct (is_open env (last argv "")); [reflexivity |].
  rewrite (argv_at_0 argv Hl). reflexivity.
Qed.

Lemma open_input_nil :
  open_input env [] = halt (Undefined argv_out_of_bounds).
Proof. reflexivity. Qed.

(** [input_stream] never stays at [&std::cin]. *)
Lemma open_input_file (argv : list string) s :
  snd (open_input env argv) = inl s -> s = file_stream (last argv "").
Proof.
  destruct argv as [| a argv]; [discriminate |].
  rewrite open_input_last by discriminate.
  destruct (is_open env _); simpl; congruence.
Qed.

Lemma open_input_halts (argv : list string) h :
  snd (open_input env argv) = inr h ->
  h = Exit 1 \/ h = Undefined argv_out_of_bounds.
Proof.
  destruct argv as [| a argv]; [simpl; intros H; inversion H; tauto |].
  rewrite open_input_last by discriminate.
  destruct (is_open env _); simpl; intros H; inversion H; tauto.
Qed.

(** ** The solving stage *)

Lemma enumerate_throws_only v g :
  throws_only (EnumMixed.enumerate env v g).
Proof.
  unfold EnumMixed.enumerate.
  destruct (EnumMixed.uselrs v); [| destruct (EnumMixed.useFloat v)];
    repeat (apply throws_only_bind; [| intros ?]);
    try apply throws_only_call; try apply throws_only_ret;
    (destruct (EnumMixed.showConnect v);
     [ rewrite PrintCliques_events;
       eapply throws_only_returns; reflexivity
     | apply throws_only_ret ]).
Qed.

Lemma enummixed_solve_throws_only v s :
  throws_only (EnumMixed.solve env v s).
Proof.
  apply throws_only_try_catch, throws_only_bind;
    [apply throws_only_read_game | intros g; apply enumerate_throws_only].
Qed.

Lemma nfgipa_solve_throws_only v s :
  throws_only (NfgIpa.solve env v s).
Proof.
  apply throws_only_try_catch, throws_only_bind;
    [apply throws_only_read_game | intros g].
  unfold NfgIpa.approximate.
  apply throws_only_bind; [apply throws_only_call | intros; apply throws_only_ret].
Qed.

End Stages.

(* ===================================================================== *)
(** * The events of each stage *)
(* ===================================================================== *)

Section Traces.

Context {double : Type}.
Variable env : Collaborators double.

Lemma cerr_quiet (l : list string) :
  Forall quiet_event (map (cerr (double := double)) l).
Proof. induction l; simpl; constructor; [reflexivity | assumption]. Qed.

Lemma atoi_quiet optarg : Forall quiet_event (fst (atoi (double := double) optarg)).
Proof.
  destruct (atoi_cases (double := double) optarg) as [[k ->] | [u ->]];
    constructor.
Qed.

Lemma enummixed_switch_quiet argv0 optarg c v :
  Forall quiet_event (fst (EnumMixed.option_switch env argv0 optarg c v)).
Proof.
  unfold EnumMixed.option_switch.
  unfold EnumMixed.PrintHelp.
  switch_on c;
    first [ solve [simpl; repeat constructor]
          | solve [repeat (apply bind_Forall; [| intros ? _]);
                   first [apply cerr_quiet | apply atoi_quiet
                         | constructor]] ].
Qed.

Lemma nfgipa_switch_quiet argv0 optarg c v :
  Forall quiet_event (fst (NfgIpa.option_switch env argv0 optarg c v)).
Proof.
  unfold NfgIpa.option_switch.
  unfold NfgIpa.PrintHelp.
  switch_on c;
    first [ solve [simpl; repeat constructor]
          | solve [repeat (apply bind_Forall; [| intros ? _]);
                   first [apply cerr_quiet | apply atoi_quiet
                         | constructor]] ].
Qed.

Lemma enummixed_loop_quiet argv count from v :
  Forall quiet_event
         (fst (for_loop (EnumMixed.option_body env argv) count from v)).
Proof.
  apply for_loop_Forall. intros i w. unfold EnumMixed.option_body.
  destruct (nth_error argv i) as [a |]; [| constructor].
  destruct (negb _); [constructor | apply enummixed_switch_quiet].
Qed.

Lemma nfgipa_loop_quiet argv count from v :
  Forall quiet_event
         (fst (for_loop (NfgIpa.option_body env argv) count from v)).
Proof.
  apply for_loop_Forall. intros i w. unfold NfgIpa.option_body.
  destruct (nth_error argv i) as [a |]; [| constructor].
  destruct (negb _); [constructor | apply nfgipa_switch_quiet].
Qed.

Lemma open_input_quiet argv : Forall quiet_event (fst (open_input env argv)).
Proof.
  destruct argv as [| a argv]; [constructor |].
  rewrite open_input_last by discriminate.
  destruct (is_open env _); repeat constructor.
Qed.

Lemma call_renders {P R} (Render : P -> string -> Event double)
    (r : SolverRun P R) :
  (forall p l, render_event (Render p l)) ->
  Forall render_event (fst (call Render r)).
Proof.
  intros HR. unfold call; simpl.
  induction (rendered r); simpl; constructor; [apply HR | assumption].
Qed.

Lemma clique_events_render {P} (Render : P -> string -> Event double)
    cl (cliques : list (list P)) :
  (forall p l, render_event (Render p l)) ->
  Forall render_event (clique_events Render cl cliques).
Proof.
  intros HR. revert cl; induction cliques as [| c rest IH]; intros cl;
    simpl; [constructor |].
  apply Forall_app; split; [| apply IH].
  induction c; simpl; constructor; [apply HR | assumption].
Qed.

Lemma enumerate_renders v g :
  Forall render_event (fst (EnumMixed.enumerate env v g)).
Proof.
  unfold EnumMixed.enumerate.
  destruct (EnumMixed.uselrs v); [| destruct (EnumMixed.useFloat v)];
    repeat (apply bind_Forall; [| intros ? _]);
    try (apply call_renders; reflexivity); try constructor;
    (destruct (EnumMixed.showConnect v);
     [ rewrite PrintCliques_events; apply clique_events_render; reflexivity
     | constructor ]).
Qed.

Lemma approximate_renders v g :
  Forall render_event (fst (NfgIpa.approximate env v g)).
Proof.
  unfold NfgIpa.approximate.
  apply bind_Forall; [apply call_renders; reflexivity | intros; constructor].
Qed.

Lemma renders_quiet (t : list (Event double)) :
  Forall quiet_event t -> renders t = [].
Proof.
  induction 1 as [| e t He _ IH]; [reflexivity |].
  unfold renders in *; simpl.
  destruct e; try discriminate He; exact IH.
Qed.

Lemma renders_render (t : list (Event double)) :
  Forall render_event t -> renders t = t.
Proof.
  induction 1 as [| e t He _ IH]; [reflexivity |].
  unfold renders in *; simpl. rewrite He. now f_equal.
Qed.

Lemma renders_app (t u : list (Event double)) :
  renders (t ++ u) = renders t ++ renders u.
Proof. apply filter_app. Qed.

End Traces.

(* ===================================================================== *)
(** * [main], stage by stage *)
(* ===================================================================== *)

Section Main.

Context {double : Type}.
Variable env : Collaborators double.

Lemma process_termination (m : M double Z) :
  process m = (fst m, termination m).
Proof.
  unfold process, termination.
  destruct m as [t [n | [status | | u | e]]]; reflexivity.
Qed.

(** Once the options are scanned: the banner unless [-q], the file named
    by the last argument, the solving stage. *)
Lemma enummixed_main_stages argv t v :
  argv <> [] ->
  EnumMixed.option_loop env argv = (t, inl v) ->
  EnumMixed.main env argv
  = if is_open env (last argv "")
    then
      (t ++ (if EnumMixed.quiet v then [] else map cerr (EnumMixed.banner env))
         ++ ifstream_open (last argv "")
         :: fst (EnumMixed.solve env v (file_stream (last argv ""))),
       termination (EnumMixed.solve env v (file_stream (last argv ""))))
    else
      (t ++ (if EnumMixed.quiet v then [] else map cerr (EnumMixed.banner env))
         ++ [ifstream_open (last argv "");
             perror (hd "" argv ++ ": " ++ last argv "")],
       Exited 1).
Proof.
  intros Hl Hloop.
  unfold EnumMixed.main, EnumMixed.main_body.
  rewrite process_termination, (bind_returns _ _ _ _ Hloop).
  rewrite (open_input_last env argv Hl).
  unfold termination, EnumMixed.PrintBanner.
  destruct (EnumMixed.quiet v), (is_open env (last argv "")); cbn;
    destruct (EnumMixed.solve env v (file_stream (last argv "")))
      as [ts [n | h]]; cbn; rewrite ?app_nil_r; reflexivity.
Qed.

Lemma nfgipa_main_stages argv t v :
  argv <> [] ->
  NfgIpa.option_loop env argv = (t, inl v) ->
  NfgIpa.main env argv
  = if is_open env (last argv "")
    then
      (t ++ (if NfgIpa.quiet v then [] else map cerr (NfgIpa.banner env))
         ++ ifstream_open (last argv "")
         :: fst (NfgIpa.solve env v (file_stream (last argv ""))),
       termination (NfgIpa.solve env v (file_stream (last argv ""))))
    else
      (t ++ (if NfgIpa.quiet v then [] else map cerr (NfgIpa.banner env))
         ++ [ifstream_open (last argv "");
             perror (hd "" argv ++ ": " ++ last argv "")],
       Exited 1).
Proof.
  intros Hl Hloop.
  unfold NfgIpa.main, NfgIpa.main_body.
  rewrite process_termination, (bind_returns _ _ _ _ Hloop).
  rewrite (open_input_last env argv Hl).
  unfold termination, NfgIpa.PrintBanner.
  destruct (NfgIpa.quiet v), (is_open env (last argv "")); cbn;
    destruct (NfgIpa.solve env v (file_stream (last argv "")))
      as [ts [n | h]]; cbn; rewrite ?app_nil_r; reflexivity.
Qed.

(** ** Standard input *)

Lemma quiet_not_cin (t : list (Event double)) :
  Forall quiet_event t -> Forall (fun e => e <> ReadGameFrom cin) t.
Proof.
  apply Forall_impl. intros e He ->. discriminate He.
Qed.

Lemma render_not_cin (t : list (Event double)) :
  Forall render_event t -> Forall (fun e => e <> ReadGameFrom cin) t.
Proof.
  apply Forall_impl. intros e He ->. discriminate He.
Qed.

Lemma try_catch_Forall (P : Event double -> Prop) (m : M double Z) :
  (forall text, P (cerr text)) ->
  Forall P (fst m) -> Forall P (fst (try_catch m)).
Proof.
  intros Hc Hm. unfold try_catch.
  destruct m as [t [n | [status | | u | [what |]]]]; simpl in *; trivial.
  apply Forall_app; split; [assumption | constructor; [apply Hc | constructor]].
Qed.

Lemma read_game_file_not_cin path :
  Forall (fun e => e <> ReadGameFrom cin)
         (fst (read_game env (file_stream path))).
Proof.
  unfold read_game. apply bind_Forall.
  - repeat constructor. discriminate.
  - intros _ _. destruct (ReadGame env _); constructor.
Qed.

Lemma enummixed_solve_not_cin v path :
  Forall (fun e => e <> ReadGameFrom cin)
         (fst (EnumMixed.solve env v (file_stream path))).
Proof.
  apply try_catch_Forall; [discriminate |].
  apply bind_Forall; [apply read_game_file_not_cin |].
  intros g _. apply render_not_cin, enumerate_renders.
Qed.

Lemma nfgipa_solve_not_cin v path :
  Forall (fun e => e <> ReadGameFrom cin)
         (fst (NfgIpa.solve env v (file_stream path))).
Proof.
  apply try_catch_Forall; [discriminate |].
  apply bind_Forall; [apply read_game_file_not_cin |].
  intros g _. apply render_not_cin, approximate_renders.
Qed.

Lemma enummixed_never_reads_cin argv :
  ~ In (ReadGameFrom cin) (fst (EnumMixed.main env argv)).
Proof.
  intros Hin.
  assert (H : Forall (fun e => e <> ReadGameFrom cin)
                     (fst (EnumMixed.main env argv))).
  { unfold EnumMixed.main, EnumMixed.main_body.
    rewrite process_termination. cbn [fst].
    apply bind_Forall; [apply quiet_not_cin, enummixed_loop_quiet |].
    intros v _. apply bind_Forall.
    { destruct (negb _); [apply quiet_not_cin, cerr_quiet | constructor]. }
    intros _ _. apply bind_Forall;
      [apply quiet_not_cin, open_input_quiet |].
    intros s Hs. rewrite (open_input_file env argv s Hs).
    apply enummixed_solve_not_cin. }
  rewrite Forall_forall in H. exact (H _ Hin eq_refl).
Qed.

Lemma nfgipa_never_reads_cin argv :
  ~ In (ReadGameFrom cin) (fst (NfgIpa.main env argv)).
Proof.
  intros Hin.
  assert (H : Forall (fun e => e <> ReadGameFrom cin)
                     (fst (NfgIpa.main env argv))).
  { unfold NfgIpa.main, NfgIpa.main_body.
    rewrite process_termination. cbn [fst].
    apply bind_Forall; [apply quiet_not_cin, nfgipa_loop_quiet |].
    intros v _. apply bind_Forall.
    { destruct (negb _); [apply quiet_not_cin, cerr_quiet | constructor]. }
    intros _ _. apply bind_Forall;
      [apply quiet_not_cin, open_input_quiet |].
    intros s Hs. rewrite (open_input_file env argv s Hs).
    apply nfgipa_solve_not_cin. }
  rewrite Forall_forall in H. exact (H _ Hin eq_refl).
Qed.

End Main.

(** C3. In both programs the game file is the last argument, whatever it
    is: [optind = argc - 1] makes the test [optind < argc] true, so that no
    run reads standard input; once the options are scanned the file opened
    is [argv[argc - 1]], the run exits with status 1 when it does not open,
    and otherwise the game is read from it.  With no arguments that file is
    the program's own name, [argv[0]]; a trailing [-q] is taken as an option
    and then opened as the file. *)
Theorem last_argument_is_the_game_file :
  forall {double : Type} (env : Collaborators double) (argv : list string),
    (argc argv - 1 <? argc argv)%Z = true
    /\ ~ In (ReadGameFrom cin) (fst (EnumMixed.main env argv))
    /\ ~ In (ReadGameFrom cin) (fst (NfgIpa.main env argv))
    /\ (argv <> [] ->
        open_input env argv
        = (if is_open env (last argv "")
           then ([ifstream_open (last argv "")],
                 inl (file_stream (last argv "")))
           else ([ifstream_open (last argv "");
                  perror (hd "" argv ++ ": " ++ last argv "")],
                 inr (Exit 1)))
        /\ (forall t v,
              EnumMixed.option_loop env argv = (t, inl v) ->
              let banner :=
                if EnumMixed.quiet v then []
                else map cerr (EnumMixed.banner env) in
              EnumMixed.main env argv
              = if is_open env (last argv "")
                then (t ++ banner ++ ifstream_open (last argv "")
                        :: fst (EnumMixed.solve env v
                                  (file_stream (last argv ""))),
                      termination (EnumMixed.solve env v
                                     (file_stream (last argv ""))))
                else (t ++ banner
                        ++ [ifstream_open (last argv "");
                            perror (hd "" argv ++ ": " ++ last argv "")],
                      Exited 1))
        /\ (forall t v,
              NfgIpa.option_loop env argv = (t, inl v) ->
              let banner :=
                if NfgIpa.quiet v then []
                else map cerr (NfgIpa.banner env) in
              NfgIpa.main env argv
              = if is_open env (last argv "")
                then (t ++ banner ++ ifstream_open (last argv "")
                        :: fst (NfgIpa.solve env v
                                  (file_stream (last argv ""))),
                      termination (NfgIpa.solve env v
                                     (file_stream (last argv ""))))
                else (t ++ banner
                        ++ [ifstream_open (last argv "");
                            perror (hd "" argv ++ ": " ++ last argv "")],
                      Exited 1)))
    /\ (forall prog,
          EnumMixed.main env [prog]
          = (if is_open env prog
             then (map cerr (EnumMixed.banner env) ++ ifstream_open prog
                     :: fst (EnumMixed.solve env EnumMixed.initial
                               (file_stream prog)),
                   termination (EnumMixed.solve env EnumMixed.initial
                                  (file_stream prog)))
             else (map cerr (EnumMixed.banner env)
                     ++ [ifstream_open prog; perror (prog ++ ": " ++ prog)],
                   Exited 1))
          /\ NfgIpa.main env [prog]
             = (if is_open env prog
                then (map cerr (NfgIpa.banner env) ++ ifstream_open prog
                        :: fst (NfgIpa.solve env NfgIpa.initial
                                  (file_stream prog)),
                      termination (NfgIpa.solve env NfgIpa.initial
                                     (file_stream prog)))
                else (map cerr (NfgIpa.banner env)
                        ++ [ifstream_open prog;
                            perror (prog ++ ": " ++ prog)],
                      Exited 1)))
    /\ (forall prog,
          (let v := {| EnumMixed.useFloat := false; EnumMixed.uselrs := false;
                       EnumMixed.quiet := true; EnumMixed.eliminate := true;
                       EnumMixed.showConnect := false;
                       EnumMixed.numDecimals := 6 |} in
           EnumMixed.main env [prog; "-q"]
           = (if is_open env "-q"
              then (ifstream_open "-q"
                      :: fst (EnumMixed.solve env v (file_stream "-q")),
                    termination (EnumMixed.solve env v (file_stream "-q")))
              else ([ifstream_open "-q"; perror (prog ++ ": -q")],
                    Exited 1)))
          /\ (let v := {| NfgIpa.quiet := true; NfgIpa.verbose := false;
                          NfgIpa.numDecimals := 6 |} in
              NfgIpa.main env [prog; "-q"]
              = (if is_open env "-q"
                 then (ifstream_open "-q"
                         :: fst (NfgIpa.solve env v (file_stream "-q")),
                       termination (NfgIpa.solve env v (file_stream "-q")))
                 else ([ifstream_open "-q"; perror (prog ++ ": -q")],
                       Exited 1)))).
Proof.
  intros double env argv.
  split; [apply optind_below_argc |].
  split; [apply enummixed_never_reads_cin |].
  split; [apply nfgipa_never_reads_cin |].
  split.
  { intros Hl. split; [now apply open_input_last |].
    split; intros t v Hloop;
      [now apply enummixed_main_stages | now apply nfgipa_main_stages]. }
  split.
  { intros prog. split.
    - now rewrite (enummixed_main_stages env [prog] [] EnumMixed.initial)
        by (discriminate || reflexivity).
    - now rewrite (nfgipa_main_stages env [prog] [] NfgIpa.initial)
        by (discriminate || reflexivity). }
  intros prog. split; intros v.
  - now rewrite (enummixed_main_stages env [prog; "-q"] [] v)
      by (discriminate || reflexivity).
  - now rewrite (nfgipa_main_stages env [prog; "-q"] [] v)
      by (discriminate || reflexivity).
Qed.

(** Witness of C3: [enummixed -q -c coordination.nfg], whose last argument
    opens. *)
Lemma last_argument_is_the_game_file_witness :
  open_input Example.library ["enummixed"; "-q"; "-c"; "coordination.nfg"]
  = ([ifstream_open "coordination.nfg"],
     inl (file_stream "coordination.nfg"))
  /\ exists rest,
       fst (EnumMixed.main Example.library
              ["enummixed"; "-q"; "-c"; "coordination.nfg"])
       = ifstream_open "coordination.nfg"
           :: ReadGameFrom (file_stream "coordination.nfg") :: rest.
Proof.
  assert (Hne : ["enummixed"; "-q"; "-c"; "coordination.nfg"] <> [])
    by (intro H; discriminate H).
  destruct (last_argument_is_the_game_file Example.library
              ["enummixed"; "-q"; "-c"; "coordination.nfg"])
    as (_ & _ & _ & Hlast & _).
  destruct (Hlast Hne) as (Hopen & Hmain & _).
  split; [exact Hopen |].
  rewrite (Hmain [] _ eq_refl). eexists. reflexivity.
Defined.

(* ===================================================================== *)
(** * The argument of [-d] *)
(* ===================================================================== *)

Section Decimals.

Context {double : Type}.
Variable env : Collaborators double.

Lemma atoi_null_only (optarg : option string) :
  snd (atoi (double := double) optarg) = inr (Undefined atoi_null) ->
  optarg = None.
Proof.
  destruct optarg as [s |]; [| reflexivity].
  simpl. destruct (fits_int (decimal_prefix s)); discriminate.
Qed.

Lemma enummixed_switch_atoi_null argv0 optarg c v :
  snd (EnumMixed.option_switch env argv0 optarg c v)
  = inr (Undefined atoi_null) ->
  c = "d"%char /\ optarg = None.
Proof.
  unfold EnumMixed.option_switch.
  switch_on c; try discriminate.
  intros H. split; [reflexivity |].
  apply bind_inr in H. destruct H as [H | (k & _ & H)];
    [now apply atoi_null_only | discriminate H].
Qed.

Lemma nfgipa_switch_atoi_null argv0 optarg c v :
  snd (NfgIpa.option_switch env argv0 optarg c v)
  = inr (Undefined atoi_null) ->
  c = "d"%char /\ optarg = None.
Proof.
  unfold NfgIpa.option_switch.
  switch_on c; try discriminate.
  intros H. split; [reflexivity |].
  apply bind_inr in H. destruct H as [H | (k & _ & H)];
    [now apply atoi_null_only | discriminate H].
Qed.

(** The loop hands a null pointer to [atoi] only at an argument [-d] in
    the last position. *)
Lemma enummixed_body_atoi_null argv i v :
  snd (EnumMixed.option_body env argv i v) = inr (Undefined atoi_null) ->
  exists a, nth_error argv i = Some a /\ is_d_option a
            /\ S i = List.length argv.
Proof.
  unfold EnumMixed.option_body.
  destruct (nth_error argv i) as [a |] eqn:Ha; [| discriminate].
  destruct (Ascii.eqb_spec (char_at a 0) "-"); [| discriminate].
  cbn [negb]. intros H.
  apply enummixed_switch_atoi_null in H. destruct H as [Hd Hnone].
  exists a. repeat split; trivial.
  apply nth_error_None in Hnone.
  assert (i < List.length argv)%nat by (apply nth_error_Some; congruence).
  lia.
Qed.

Lemma nfgipa_body_atoi_null argv i v :
  snd (NfgIpa.option_body env argv i v) = inr (Undefined atoi_null) ->
  exists a, nth_error argv i = Some a /\ is_d_option a
            /\ S i = List.length argv.
Proof.
  unfold NfgIpa.option_body.
  destruct (nth_error argv i) as [a |] eqn:Ha; [| discriminate].
  destruct (Ascii.eqb_spec (char_at a 0) "-"); [| discriminate].
  cbn [negb]. intros H.
  apply nfgipa_switch_atoi_null in H. destruct H as [Hd Hnone].
  exists a. repeat split; trivial.
  apply nth_error_None in Hnone.
  assert (i < List.length argv)%nat by (apply nth_error_Some; congruence).
  lia.
Qed.

Lemma for_loop_halts_at {V} (body : nat -> V -> M double V) count from v h :
  snd (for_loop body count from v) = inr h ->
  exists i w, (from <= i < from + count)%nat /\ snd (body i w) = inr h.
Proof.
  revert from v; induction count as [| k IH]; intros from v H;
    [discriminate H |].
  cbn [for_loop] in H. apply bind_inr in H.
  destruct H as [H | (w & _ & H)].
  - exists from, v. split; [lia | exact H].
  - destruct (IH _ _ H) as (i & w' & Hi & Hb).
    exists i, w'. split; [lia | exact Hb].
Qed.

Lemma body_d_null (argv : list string) i a :
  nth_error argv i = Some a -> S i = List.length argv -> is_d_option a ->
  nth_error argv (S i) = None
  /\ (forall v, EnumMixed.option_body env argv i v
                = halt (Undefined atoi_null))
  /\ (forall v, NfgIpa.option_body env argv i v
                = halt (Undefined atoi_null)).
Proof.
  intros Ha Hlast [Hdash Hd].
  assert (Hnone : nth_error argv (S i) = None)
    by (apply nth_error_None; lia).
  repeat split; trivial; intros v.
  - unfold EnumMixed.option_body.
    rewrite Ha, Hdash, Hnone, Hd. reflexivity.
  - unfold NfgIpa.option_body.
    rewrite Ha, Hdash, Hnone, Hd. reflexivity.
Qed.

Lemma enummixed_main_atoi_null argv :
  snd (EnumMixed.main env argv) = UndefinedBehaviour atoi_null ->
  exists i a, (1 <= i)%nat /\ nth_error argv i = Some a /\ is_d_option a
              /\ S i = List.length argv.
Proof.
  unfold EnumMixed.main. rewrite process_termination. cbn [snd].
  unfold termination, EnumMixed.main_body.
  destruct (snd (bind _ _)) as [n | h] eqn:H; [discriminate |].
  intros Hh. assert (h = Undefined atoi_null)
    by (destruct h as [| | [] |]; simpl in Hh; congruence).
  subst h. clear Hh.
  apply bind_inr in H. destruct H as [H | (v & _ & H)].
  - apply for_loop_halts_at in H. destruct H as (i & w & Hi & H).
    apply enummixed_body_atoi_null in H. destruct H as (a & H).
    exists i, a. split; [lia | exact H].
  - exfalso. apply bind_inr in H. destruct H as [H | (? & _ & H)].
    + destruct (negb _); discriminate H.
    + apply bind_inr in H. destruct H as [H | (s & _ & H)].
      * apply open_input_halts in H. destruct H; discriminate.
      * apply enummixed_solve_throws_only in H. destruct H; discriminate.
Qed.

Lemma nfgipa_main_atoi_null argv :
  snd (NfgIpa.main env argv) = UndefinedBehaviour atoi_null ->
  exists i a, (1 <= i)%nat /\ nth_error argv i = Some a /\ is_d_option a
              /\ S i = List.length argv.
Proof.
  unfold NfgIpa.main. rewrite process_termination. cbn [snd].
  unfold termination, NfgIpa.main_body.
  destruct (snd (bind _ _)) as [n | h] eqn:H; [discriminate |].
  intros Hh. assert (h = Undefined atoi_null)
    by (destruct h as [| | [] |]; simpl in Hh; congruence).
  subst h. clear Hh.
  apply bind_inr in H. destruct H as [H | (v & _ & H)].
  - apply for_loop_halts_at in H. destruct H as (i & w & Hi & H).
    apply nfgipa_body_atoi_null in H. destruct H as (a & H).
    exists i, a. split; [lia | exact H].
  - exfalso. apply bind_inr in H. destruct H as [H | (? & _ & H)].
    + destruct (negb _); discriminate H.
    + apply bind_inr in H. destruct H as [H | (s & _ & H)].
      * apply open_input_halts in H. destruct H; discriminate.
      * apply nfgipa_solve_throws_only in H. destruct H; discriminate.
Qed.

End Decimals.

(** C10. When an option [-d] is the last argument, [optarg = argv[i + 1]]
    is [argv[argc]], the null pointer that ends the argument vector, and the
    loop body hands it to [atoi]: undefined behaviour, in both programs, and
    the end of the run if the loop arrives there.  When every option [-d] is
    followed by a further argument, no run hands a null pointer to [atoi]. *)
Theorem trailing_d_reaches_atoi_with_null :
  forall {double : Type} (env : Collaborators double) (argv : list string),
    (forall i a,
        nth_error argv i = Some a -> S i = List.length argv ->
        is_d_option a ->
        nth_error argv (S i) = None
        /\ (forall v, EnumMixed.option_body env argv i v
                      = halt (Undefined atoi_null))
        /\ (forall v, NfgIpa.option_body env argv i v
                      = halt (Undefined atoi_null))
        /\ (forall t v,
              (1 <= i)%nat ->
              for_loop (EnumMixed.option_body env argv) (i - 1) 1
                       EnumMixed.initial = (t, inl v) ->
              EnumMixed.main env argv = (t, UndefinedBehaviour atoi_null))
        /\ (forall t v,
              (1 <= i)%nat ->
              for_loop (NfgIpa.option_body env argv) (i - 1) 1
                       NfgIpa.initial = (t, inl v) ->
              NfgIpa.main env argv = (t, UndefinedBehaviour atoi_null)))
    /\ ((forall i a,
            (1 <= i)%nat -> nth_error argv i = Some a -> is_d_option a ->
            (S i < List.length argv)%nat) ->
        snd (EnumMixed.main env argv) <> UndefinedBehaviour atoi_null
        /\ snd (NfgIpa.main env argv) <> UndefinedBehaviour atoi_null).
Proof.
  intros double env argv. split.
  - intros i a Ha Hlast Hd.
    destruct (body_d_null env argv i a Ha Hlast Hd) as (Hnone & He & Hn).
    assert (Hlen : (i < List.length argv)%nat) by lia.
    repeat split; trivial.
    + intros t v Hi Hreach. unfold EnumMixed.main, EnumMixed.main_body.
      erewrite process_halts with (t := t) (h := Undefined atoi_null);
        [reflexivity |].
      unfold EnumMixed.option_loop.
      rewrite (for_loop_stops _ argv i _ v t [] (Undefined atoi_null)
                 Hi Hlen Hreach (He v)).
      now rewrite app_nil_r.
    + intros t v Hi Hreach. unfold NfgIpa.main, NfgIpa.main_body.
      erewrite process_halts with (t := t) (h := Undefined atoi_null);
        [reflexivity |].
      unfold NfgIpa.option_loop.
      rewrite (for_loop_stops _ argv i _ v t [] (Undefined atoi_null)
                 Hi Hlen Hreach (Hn v)).
      now rewrite app_nil_r.
  - intros Hpre. split; intros H.
    + apply enummixed_main_atoi_null in H.
      destruct H as (i & a & Hi & Ha & Hd & Hlast).
      specialize (Hpre i a Hi Ha Hd). lia.
    + apply nfgipa_main_atoi_null in H.
      destruct H as (i & a & Hi & Ha & Hd & Hlast).
      specialize (Hpre i a Hi Ha Hd). lia.
Qed.

(** Witness of C10: [enummixed -d], and [enummixed -d 3 coordination.nfg]. *)
Lemma trailing_d_reaches_atoi_with_null_witness :
  EnumMixed.main Example.library ["enummixed"; "-d"]
  = ([], UndefinedBehaviour atoi_null)
  /\ snd (EnumMixed.main Example.library
            ["enummixed"; "-d"; "3"; "coordination.nfg"])
     <> UndefinedBehaviour atoi_null.
Proof.
  split.
  - destruct (trailing_d_reaches_atoi_with_null Example.library
                ["enummixed"; "-d"]) as [Hlast _].
    destruct (Hlast 1%nat "-d" eq_refl eq_refl (conj eq_refl eq_refl))
      as (_ & _ & _ & Hmain & _).
    apply (Hmain [] EnumMixed.initial); [lia | reflexivity].
  - destruct (trailing_d_reaches_atoi_with_null Example.library
                ["enummixed"; "-d"; "3"; "coordination.nfg"]) as [_ Hsafe].
    apply Hsafe.
    intros [| [| [| [| i]]]] a Hi Ha [Hdash Hd]; simpl in *;
      try lia; try discriminate Ha;
      try (destruct i; discriminate Ha);
      injection Ha as <-; discriminate Hdash.
Defined.

(* ===================================================================== *)
(** * Options without a case *)
(* ===================================================================== *)

(** C9. An argument that begins with '-' and whose second character has no
    [case] of its own -- any long option, whose second character is '-', and
    any unknown letter other than '?' -- sends the option switch of either
    program to its [default] branch, [abort()]; if the loop arrives at such
    an argument the process is aborted.  [case '?'], the "Unknown option"
    diagnostic, is entered exactly by an argument that spells the option
    [-?], that is whose second character is '?'. *)
Theorem unlisted_option_aborts :
  forall {double : Type} (env : Collaborators double)
         (argv : list string) (i : nat) (a : string),
    nth_error argv i = Some a ->
    char_at a 0 = "-"%char ->
    (~ In (char_at a 1) enummixed_letters -> char_at a 1 <> "?"%char ->
     (forall v, EnumMixed.option_body env argv i v = halt Abort)
     /\ (forall t v,
           (1 <= i)%nat ->
           for_loop (EnumMixed.option_body env argv) (i - 1) 1
                    EnumMixed.initial = (t, inl v) ->
           EnumMixed.main env argv = (t, Aborted)))
    /\ (~ In (char_at a 1) nfgipa_letters -> char_at a 1 <> "?"%char ->
        (forall v, NfgIpa.option_body env argv i v = halt Abort)
        /\ (forall t v,
              (1 <= i)%nat ->
              for_loop (NfgIpa.option_body env argv) (i - 1) 1
                       NfgIpa.initial = (t, inl v) ->
              NfgIpa.main env argv = (t, Aborted)))
    /\ (char_at a 1 = "-"%char ->
        (forall v, EnumMixed.option_body env argv i v = halt Abort)
        /\ (forall v, NfgIpa.option_body env argv i v = halt Abort))
    /\ (forall v, EnumMixed.option_body env argv i v
                  = unknown_option (hd "" argv)
                  <-> char_at a 1 = "?"%char)
    /\ (forall v, NfgIpa.option_body env argv i v
                  = unknown_option (hd "" argv)
                  <-> char_at a 1 = "?"%char).
Proof.
  intros double env argv i a Hnth Hdash.
  assert (Hlen : (i < List.length argv)%nat)
    by (apply nth_error_Some; congruence).
  assert (He : forall v, EnumMixed.option_body env argv i v
                 = EnumMixed.option_switch env (hd "" argv)
                     (nth_error argv (S i)) (char_at a 1) v).
  { intros v. unfold EnumMixed.option_body. rewrite Hnth, Hdash. reflexivity. }
  assert (Hn : forall v, NfgIpa.option_body env argv i v
                 = NfgIpa.option_switch env (hd "" argv)
                     (nth_error argv (S i)) (char_at a 1) v).
  { intros v. unfold NfgIpa.option_body. rewrite Hnth, Hdash. reflexivity. }
  repeat split.
  - intros v. rewrite He. now apply enummixed_default.
  - intros t v Hi Hreach. unfold EnumMixed.main, EnumMixed.main_body.
    erewrite process_halts with (t := t) (h := Abort); [reflexivity |].
    unfold EnumMixed.option_loop.
    rewrite (for_loop_stops _ argv i _ v t [] Abort Hi Hlen Hreach).
    + now rewrite app_nil_r.
    + rewrite He. now apply enummixed_default.
  - intros v. rewrite Hn. now apply nfgipa_default.
  - intros t v Hi Hreach. unfold NfgIpa.main, NfgIpa.main_body.
    erewrite process_halts with (t := t) (h := Abort); [reflexivity |].
    unfold NfgIpa.option_loop.
    rewrite (for_loop_stops _ argv i _ v t [] Abort Hi Hlen Hreach).
    + now rewrite app_nil_r.
    + rewrite Hn. now apply nfgipa_default.
  - intros v. rewrite He, H. reflexivity.
  - intros v. rewrite Hn, H. reflexivity.
  - rewrite He. apply enummixed_diagnostic.
  - rewrite He. apply enummixed_diagnostic.
  - rewrite Hn. apply nfgipa_diagnostic.
  - rewrite Hn. apply nfgipa_diagnostic.
Qed.

(** Witness of C9: [--help] and [-x] abort both programs; [-?] is
    diagnosed. *)
Lemma unlisted_option_aborts_witness :
  EnumMixed.main Example.library ["enummixed"; "--help"] = ([], Aborted)
  /\ NfgIpa.main Example.library ["nfgipa"; "-x"; "three.nfg"]
     = ([], Aborted)
  /\ EnumMixed.option_body Example.library ["enummixed"; "-?"] 1
       EnumMixed.initial
     = unknown_option "enummixed".
Proof.
  split; [| split].
  - destruct (unlisted_option_aborts Example.library
                ["enummixed"; "--help"] 1 "--help" eq_refl eq_refl)
      as (He & _).
    apply (proj2 (He ltac:(simpl; intuition discriminate)
                     ltac:(discriminate)) [] EnumMixed.initial);
      [lia | reflexivity].
  - destruct (unlisted_option_aborts Example.library
                ["nfgipa"; "-x"; "three.nfg"] 1 "-x" eq_refl eq_refl)
      as (_ & Hn & _).
    apply (proj2 (Hn ltac:(simpl; intuition discriminate)
                     ltac:(discriminate)) [] NfgIpa.initial);
      [lia | reflexivity].
  - destruct (unlisted_option_aborts Example.library
                ["enummixed"; "-?"] 1 "-?" eq_refl eq_refl)
      as (_ & _ & _ & Hq & _).
    apply Hq. reflexivity.
Defined.

(* ===================================================================== *)
(** * The [try] block and its handler *)
(* ===================================================================== *)

Section Handler.

Context {double : Type}.
Variable env : Collaborators double.

Lemma bind_inl {A B} (m : M double A) (f : A -> M double B) b :
  snd (bind m f) = inl b -> exists a, snd m = inl a /\ snd (f a) = inl b.
Proof.
  destruct m as [t [a | h]]; unfold bind; cbn [fst snd]; intros H.
  - now exists a.
  - discriminate H.
Qed.

Lemma try_catch_caught (m : M double Z) what :
  snd m = inr (Throw (runtime_error what)) ->
  try_catch m = (fst m ++ [cerr ("Error: " ++ what ++ nl)], inl 1%Z).
Proof. unfold try_catch. now intros ->. Qed.

Lemma try_catch_returns (m : M double Z) n :
  snd m = inl n -> try_catch m = (fst m, inl n).
Proof. unfold try_catch. destruct m as [t r]. simpl. now intros ->. Qed.

Lemma enumerate_returns_0 v g n :
  snd (EnumMixed.enumerate env v g) = inl n -> n = 0%Z.
Proof.
  unfold EnumMixed.enumerate.
  destruct (EnumMixed.uselrs v); [| destruct (EnumMixed.useFloat v)];
    intros H; repeat (apply bind_inl in H; destruct H as (? & _ & H));
    now inversion H.
Qed.

Lemma enummixed_try_block_returns_0 v s n :
  snd (EnumMixed.try_block env v s) = inl n -> n = 0%Z.
Proof.
  unfold EnumMixed.try_block. intros H.
  apply bind_inl in H. destruct H as (g & _ & H).
  now apply enumerate_returns_0 in H.
Qed.

Lemma nfgipa_try_block_returns_0 v s n :
  snd (NfgIpa.try_block env v s) = inl n -> n = 0%Z.
Proof.
  unfold NfgIpa.try_block, NfgIpa.approximate. intros H.
  repeat (apply bind_inl in H; destruct H as (? & _ & H)).
  now inversion H.
Qed.

Lemma read_game_fails s e :
  ReadGame env s = inr e ->
  read_game env s = ([ReadGameFrom s], inr (Throw e)).
Proof. unfold read_game. now intros ->. Qed.

Lemma read_game_succeeds s g :
  ReadGame env s = inl g ->
  read_game env s = ([ReadGameFrom s], inl g).
Proof. unfold read_game. now intros ->. Qed.

Lemma call_fails {P R} (Render : P -> string -> Event double)
    (r : SolverRun P R) e :
  outcome r = inr e -> snd (call Render r) = inr (Throw e).
Proof. unfold call. now intros ->. Qed.

Lemma bind_throws {A B} (m : M double A) (f : A -> M double B) h :
  snd m = inr h -> snd (bind m f) = inr h.
Proof. destruct m as [t r]. simpl. intros ->. reflexivity. Qed.

End Handler.

(** C5. A failure signaled while the game is read or solved, as a
    [std::runtime_error], is reported on [std::cerr] as ["Error: "] followed
    by its message, and the process exits with status 1; a run whose [try]
    block ends without an exception exits with status 0.  The reader and
    each solver are such sources of failure; both programs. *)
Theorem signaled_failure_is_reported :
  forall {double : Type} (env : Collaborators double),
    (forall v s what,
        snd (EnumMixed.try_block env v s) = inr (Throw (runtime_error what)) ->
        EnumMixed.solve env v s
        = (fst (EnumMixed.try_block env v s)
             ++ [cerr ("Error: " ++ what ++ nl)], inl 1%Z))
    /\ (forall v s n,
          snd (EnumMixed.try_block env v s) = inl n ->
          EnumMixed.solve env v s
          = (fst (EnumMixed.try_block env v s), inl 0%Z))
    /\ (forall v s what,
          snd (NfgIpa.try_block env v s) = inr (Throw (runtime_error what)) ->
          NfgIpa.solve env v s
          = (fst (NfgIpa.try_block env v s)
               ++ [cerr ("Error: " ++ what ++ nl)], inl 1%Z))
    /\ (forall v s n,
          snd (NfgIpa.try_block env v s) = inl n ->
          NfgIpa.solve env v s = (fst (NfgIpa.try_block env v s), inl 0%Z))
    /\ (forall s what,
          ReadGame env s = inr (runtime_error what) ->
          (forall v, EnumMixed.solve env v s
                     = ([ReadGameFrom s; cerr ("Error: " ++ what ++ nl)],
                        inl 1%Z))
          /\ (forall v, NfgIpa.solve env v s
                        = ([ReadGameFrom s; cerr ("Error: " ++ what ++ nl)],
                           inl 1%Z)))
    /\ (forall s g what,
          ReadGame env s = inl g ->
          (forall v, EnumMixed.uselrs v = true ->
                     outcome (lrs_Solve env g) = inr (runtime_error what) ->
                     snd (EnumMixed.try_block env v s)
                     = inr (Throw (runtime_error what)))
          /\ (forall v, EnumMixed.uselrs v = false ->
                        EnumMixed.useFloat v = true ->
                        outcome (SolveDetailed_double env g)
                        = inr (runtime_error what) ->
                        snd (EnumMixed.try_block env v s)
                        = inr (Throw (runtime_error what)))
          /\ (forall v, EnumMixed.uselrs v = false ->
                        EnumMixed.useFloat v = false ->
                        outcome (SolveDetailed_Rational env g)
                        = inr (runtime_error what) ->
                        snd (EnumMixed.try_block env v s)
                        = inr (Throw (runtime_error what)))
          /\ (forall v, outcome (ipa_Solve env g) = inr (runtime_error what) ->
                        snd (NfgIpa.try_block env v s)
                        = inr (Throw (runtime_error what))))
    /\ (forall argv t v,
          argv <> [] ->
          EnumMixed.option_loop env argv = (t, inl v) ->
          is_open env (last argv "") = true ->
          (forall what,
              snd (EnumMixed.try_block env v (file_stream (last argv "")))
              = inr (Throw (runtime_error what)) ->
              snd (EnumMixed.main env argv) = Exited 1
              /\ exists t', fst (EnumMixed.main env argv)
                            = t' ++ [cerr ("Error: " ++ what ++ nl)])
          /\ (forall n,
                snd (EnumMixed.try_block env v (file_stream (last argv "")))
                = inl n ->
                snd (EnumMixed.main env argv) = Exited 0))
    /\ (forall argv t v,
          argv <> [] ->
          NfgIpa.option_loop env argv = (t, inl v) ->
          is_open env (last argv "") = true ->
          (forall what,
              snd (NfgIpa.try_block env v (file_stream (last argv "")))
              = inr (Throw (runtime_error what)) ->
              snd (NfgIpa.main env argv) = Exited 1
              /\ exists t', fst (NfgIpa.main env argv)
                            = t' ++ [cerr ("Error: " ++ what ++ nl)])
          /\ (forall n,
                snd (NfgIpa.try_block env v (file_stream (last argv "")))
                = inl n ->
                snd (NfgIpa.main env argv) = Exited 0)).
Proof.
  intros double env.
  split; [intros v s what H; now apply try_catch_caught |].
  split.
  { intros v s n H. unfold EnumMixed.solve.
    rewrite (try_catch_returns _ n H).
    now rewrite (enummixed_try_block_returns_0 env v s n H). }
  split; [intros v s what H; now apply try_catch_caught |].
  split.
  { intros v s n H. unfold NfgIpa.solve.
    rewrite (try_catch_returns _ n H).
    now rewrite (nfgipa_try_block_returns_0 env v s n H). }
  split.
  { intros s what H. split; intros v.
    - unfold EnumMixed.solve, EnumMixed.try_block.
      rewrite (read_game_fails env s _ H). reflexivity.
    - unfold NfgIpa.solve, NfgIpa.try_block.
      rewrite (read_game_fails env s _ H). reflexivity. }
  split.
  { intros s g what Hg.
    split; [| split; [| split]].
    - intros v Hl Ho. unfold EnumMixed.try_block, EnumMixed.enumerate.
      rewrite (read_game_succeeds env s g Hg), Hl.
      unfold bind at 1; cbn [fst snd].
      now apply bind_throws, call_fails.
    - intros v Hl Hf Ho. unfold EnumMixed.try_block, EnumMixed.enumerate.
      rewrite (read_game_succeeds env s g Hg), Hl, Hf.
      unfold bind at 1; cbn [fst snd].
      now apply bind_throws, call_fails.
    - intros v Hl Hf Ho. unfold EnumMixed.try_block, EnumMixed.enumerate.
      rewrite (read_game_succeeds env s g Hg), Hl, Hf.
      unfold bind at 1; cbn [fst snd].
      now apply bind_throws, call_fails.
    - intros v Ho. unfold NfgIpa.try_block, NfgIpa.approximate.
      rewrite (read_game_succeeds env s g Hg).
      unfold bind at 1; cbn [fst snd].
      now apply bind_throws, call_fails. }
  split.
  { intros argv t v Hl Hloop Hopen.
    rewrite (enummixed_main_stages env argv t v Hl Hloop), Hopen.
    cbn [fst snd]. unfold termination. split.
    - intros what H. unfold EnumMixed.solve.
      rewrite (try_catch_caught _ what H). cbn [fst snd].
      split; [reflexivity |].
      eexists. rewrite app_comm_cons, !app_assoc. reflexivity.
    - intros n H. unfold EnumMixed.solve.
      rewrite (try_catch_returns _ n H). cbn [snd].
      now rewrite (enummixed_try_block_returns_0 env v _ n H). }
  { intros argv t v Hl Hloop Hopen.
    rewrite (nfgipa_main_stages env argv t v Hl Hloop), Hopen.
    cbn [fst snd]. unfold termination. split.
    - intros what H. unfold NfgIpa.solve.
      rewrite (try_catch_caught _ what H). cbn [fst snd].
      split; [reflexivity |].
      eexists. rewrite app_comm_cons, !app_assoc. reflexivity.
    - intros n H. unfold NfgIpa.solve.
      rewrite (try_catch_returns _ n H). cbn [snd].
      now rewrite (nfgipa_try_block_returns_0 env v _ n H). }
Qed.

(** Witness of C5: a file that opens and does not parse, and one that
    does. *)
Lemma signaled_failure_is_reported_witness :
  (snd (EnumMixed.main Example.library ["enummixed"; "-q"; "malformed.nfg"])
   = Exited 1
   /\ exists t',
        fst (EnumMixed.main Example.library
               ["enummixed"; "-q"; "malformed.nfg"])
        = t' ++ [cerr ("Error: " ++ "Parse error in game file" ++ nl)])
  /\ snd (NfgIpa.main Example.library ["nfgipa"; "three.nfg"]) = Exited 0.
Proof.
  destruct (signaled_failure_is_reported Example.library)
    as (_ & _ & _ & _ & _ & _ & He & Hn).
  split.
  - assert (Hne : ["enummixed"; "-q"; "malformed.nfg"] <> [])
      by (intro H; discriminate H).
    destruct (He ["enummixed"; "-q"; "malformed.nfg"] [] _ Hne
                eq_refl eq_refl) as [Hfail _].
    apply Hfail. reflexivity.
  - assert (Hne : ["nfgipa"; "three.nfg"] <> [])
      by (intro H; discriminate H).
    destruct (Hn ["nfgipa"; "three.nfg"] [] _ Hne eq_refl eq_refl)
      as [_ Hok].
    apply (Hok 0%Z). reflexivity.
Defined.

(* ===================================================================== *)
(** * What a run renders *)
(* ===================================================================== *)

Section Output.

Context {double : Type}.
Variable env : Collaborators double.

Lemma call_run {P R} (Render : P -> string -> Event double)
    (r : SolverRun P R) :
  call Render r
  = (rendering Render r,
     match outcome r with
     | inl x => inl x
     | inr e => inr (Throw e)
     end).
Proof. reflexivity. Qed.

(** The events of the enumeration: the solver's rendering, then the clique
    output when [-c] was given. *)
Lemma enumerate_events v g :
  fst (EnumMixed.enumerate env v g)
  = solver_rendering env v g
      ++ (if EnumMixed.showConnect v then clique_output env v g else []).
Proof.
  unfold EnumMixed.enumerate, solver_rendering, clique_output.
  destruct (EnumMixed.uselrs v).
  - rewrite call_run. destruct (outcome (lrs_Solve env g));
      unfold bind; cbn [fst snd];
      destruct (EnumMixed.showConnect v); now rewrite ?app_nil_r.
  - destruct (EnumMixed.useFloat v); rewrite call_run.
    + destruct (outcome (SolveDetailed_double env g)) as [sol | e];
        unfold bind at 1; cbn [fst snd].
      * destruct (EnumMixed.showConnect v).
        -- rewrite PrintCliques_events. unfold bind; cbn [fst snd].
           now rewrite app_nil_r.
        -- reflexivity.
      * destruct (EnumMixed.showConnect v); now rewrite ?app_nil_r.
    + destruct (outcome (SolveDetailed_Rational env g)) as [sol | e];
        unfold bind at 1; cbn [fst snd].
      * destruct (EnumMixed.showConnect v).
        -- rewrite PrintCliques_events. unfold bind; cbn [fst snd].
           now rewrite app_nil_r.
        -- reflexivity.
      * destruct (EnumMixed.showConnect v); now rewrite ?app_nil_r.
Qed.

Lemma clique_events_In {P} (Render : P -> string -> Event double)
    (cliques : list (list P)) first cl clique p :
  nth_error cliques cl = Some clique -> In p clique ->
  In (Render p ("convex-" ++ lexical_cast (first + cl))%string)
     (clique_events Render first cliques).
Proof.
  revert first cl. induction cliques as [| c rest IH]; intros first cl Hcl Hp.
  - destruct cl; discriminate Hcl.
  - cbn [clique_events]. apply in_or_app. destruct cl as [| cl].
    + left. injection Hcl as ->. rewrite Nat.add_0_r.
      now apply (in_map (fun q => Render q _)).
    + right. rewrite <- Nat.add_succ_comm. now apply IH.
Qed.

Lemma clique_events_inv {P} (Render : P -> string -> Event double)
    (cliques : list (list P)) first e :
  In e (clique_events Render first cliques) ->
  exists cl clique p,
    nth_error cliques cl = Some clique /\ In p clique
    /\ e = Render p ("convex-" ++ lexical_cast (first + cl))%string.
Proof.
  revert first. induction cliques as [| c rest IH]; intros first H;
    [destruct H |].
  cbn [clique_events] in H. apply in_app_or in H. destruct H as [H | H].
  - apply in_map_iff in H. destruct H as (p & <- & Hp).
    exists O, c, p. rewrite Nat.add_0_r. now repeat split.
  - destruct (IH _ H) as (cl & clique & p & Hcl & Hp & ->).
    exists (S cl), clique, p. rewrite <- Nat.add_succ_comm. now repeat split.
Qed.

(** The standard output of the solving stage is that of the enumeration. *)
Lemma solve_renders v s g :
  ReadGame env s = inl g ->
  renders (fst (EnumMixed.solve env v s)) = fst (EnumMixed.enumerate env v g).
Proof.
  intros Hg. unfold EnumMixed.solve, EnumMixed.try_block.
  rewrite (read_game_succeeds env s g Hg).
  pose proof (enumerate_renders env v g) as Hr.
  unfold bind at 1; cbn [fst snd]. unfold try_catch.
  destruct (EnumMixed.enumerate env v g) as [t [n | [st | | u | [what |]]]];
    cbn [fst snd] in *;
    change (ReadGameFrom s :: ?l) with ([ReadGameFrom s] ++ l);
    rewrite ?renders_app, (renders_render t Hr); try reflexivity.
  now rewrite app_nil_r.
Qed.

Lemma solve_termination v s g :
  ReadGame env s = inl g ->
  termination (EnumMixed.solve env v s)
  = termination (try_catch (EnumMixed.enumerate env v g)).
Proof.
  intros Hg. unfold EnumMixed.solve, EnumMixed.try_block.
  rewrite (read_game_succeeds env s g Hg).
  unfold bind at 1; cbn [fst snd]. unfold try_catch, termination.
  destruct (EnumMixed.enumerate env v g) as [t [n | [st | | u | [what |]]]];
    reflexivity.
Qed.

Lemma main_renders argv t v g :
  argv <> [] ->
  EnumMixed.option_loop env argv = (t, inl v) ->
  is_open env (last argv "") = true ->
  ReadGame env (file_stream (last argv "")) = inl g ->
  renders (fst (EnumMixed.main env argv)) = fst (EnumMixed.enumerate env v g)
  /\ snd (EnumMixed.main env argv)
     = termination (try_catch (EnumMixed.enumerate env v g)).
Proof.
  intros Hl Hloop Hopen Hg.
  rewrite (enummixed_main_stages env argv t v Hl Hloop), Hopen.
  cbn [fst snd]. split; [| now apply solve_termination].
  change (ifstream_open (last argv "") :: ?l)
    with ([ifstream_open (double := double) (last argv "")] ++ l).
  rewrite !renders_app, (solve_renders v _ g Hg).
  rewrite (renders_quiet t).
  - rewrite (renders_quiet (if EnumMixed.quiet v then [] else _)).
    + reflexivity.
    + destruct (EnumMixed.quiet v); [constructor | apply cerr_quiet].
  - pose proof (enummixed_loop_quiet env argv (List.length argv - 1) 1
                  EnumMixed.initial) as Hq.
    unfold EnumMixed.option_loop in Hloop. now rewrite Hloop in Hq.
Qed.

End Output.

(** C4. [PrintCliques] renders the cliques in partition order and each
    clique's profiles in stored order, every profile of clique number [cl],
    counted from 1, under the label ["convex-"] followed by [cl]; it renders
    nothing else and never fails.  A run renders what its solver renders and
    then, only when [-c] was given, this clique output. *)
Theorem clique_output_is_labelled :
  forall {double : Type} (env : Collaborators double),
    (forall (T : Type) (cliques : list (list (MixedStrategyProfile T)))
            (Render : MixedStrategyProfile T -> string -> Event double),
        EnumMixed.PrintCliques env cliques Render
        = (clique_events Render 1 cliques, inl tt)
        /\ (forall cl clique p,
              nth_error cliques cl = Some clique -> In p clique ->
              In (Render p ("convex-" ++ lexical_cast (S cl))%string)
                 (clique_events Render 1 cliques))
        /\ (forall e,
              In e (clique_events Render 1 cliques) ->
              exists cl clique p,
                nth_error cliques cl = Some clique /\ In p clique
                /\ e = Render p ("convex-" ++ lexical_cast (S cl))%string)
        /\ (forall clique rest,
              cliques = clique :: rest ->
              clique_events Render 1 cliques
              = map (fun p => Render p "convex-1"%string) clique
                  ++ clique_events Render 2 rest))
    /\ (forall v g,
          fst (EnumMixed.enumerate env v g)
          = solver_rendering env v g
              ++ (if EnumMixed.showConnect v then clique_output env v g
                  else []))
    /\ (forall v g,
          EnumMixed.showConnect v = false ->
          fst (EnumMixed.enumerate env v g) = solver_rendering env v g)
    /\ (forall argv t v g,
          argv <> [] ->
          EnumMixed.option_loop env argv = (t, inl v) ->
          is_open env (last argv "") = true ->
          ReadGame env (file_stream (last argv "")) = inl g ->
          renders (fst (EnumMixed.main env argv))
          = solver_rendering env v g
              ++ (if EnumMixed.showConnect v then clique_output env v g
                  else [])).
Proof.
  intros double env. split; [| split; [| split]].
  - intros T cliques Render. split; [apply PrintCliques_events |].
    split; [| split].
    + intros cl clique p Hcl Hp.
      exact (clique_events_In Render cliques 1 cl clique p Hcl Hp).
    + intros e He.
      exact (clique_events_inv Render cliques 1 e He).
    + intros clique rest ->. reflexivity.
  - apply enumerate_events.
  - intros v g Hc. rewrite enumerate_events, Hc. apply app_nil_r.
  - intros argv t v g Hl Hloop Hopen Hg.
    rewrite (proj1 (main_renders env argv t v g Hl Hloop Hopen Hg)).
    apply enumerate_events.
Qed.

(** Witness of C4: [enummixed -q -c coordination.nfg] renders the three
    equilibria and then one clique for each of them. *)
Lemma clique_output_is_labelled_witness :
  renders (fst (EnumMixed.main Example.library
                  ["enummixed"; "-q"; "-c"; "coordination.nfg"]))
  = [ RenderRational SpecModel.pure_1 "NE";
      RenderRational SpecModel.pure_2 "NE";
      RenderRational SpecModel.mixed "NE";
      RenderRational SpecModel.pure_1 "convex-1";
      RenderRational SpecModel.pure_2 "convex-2";
      RenderRational SpecModel.mixed "convex-3" ]
  /\ renders (fst (EnumMixed.main Example.library
                     ["enummixed"; "-q"; "coordination.nfg"]))
     = [ RenderRational SpecModel.pure_1 "NE";
         RenderRational SpecModel.pure_2 "NE";
         RenderRational SpecModel.mixed "NE" ].
Proof.
  destruct (clique_output_is_labelled Example.library) as (_ & _ & _ & Hmain).
  split.
  - assert (Hne : ["enummixed"; "-q"; "-c"; "coordination.nfg"] <> [])
      by (intro H; discriminate H).
    rewrite (Hmain ["enummixed"; "-q"; "-c"; "coordination.nfg"] [] _
               SpecModel.coordination Hne eq_refl eq_refl eq_refl).
    reflexivity.
  - assert (Hne : ["enummixed"; "-q"; "coordination.nfg"] <> [])
      by (intro H; discriminate H).
    rewrite (Hmain ["enummixed"; "-q"; "coordination.nfg"] [] _
               SpecModel.coordination Hne eq_refl eq_refl eq_refl).
    reflexivity.
Defined.

(* ===================================================================== *)
(** * The option [-D] *)
(* ===================================================================== *)

Section Eliminate.

Context {double : Type}.
Variable env : Collaborators double.

Lemma bind_ret_r {A} (m : M double A) : bind m ret = m.
Proof.
  destruct m as [t [a | h]]; unfold bind; simpl; [| reflexivity].
  now rewrite app_nil_r.
Qed.

Lemma enumerate_ignores_eliminate b v g :
  EnumMixed.enumerate env (with_eliminate b v) g = EnumMixed.enumerate env v g.
Proof. reflexivity. Qed.

Lemma solve_ignores_eliminate b v s :
  EnumMixed.solve env (with_eliminate b v) s = EnumMixed.solve env v s.
Proof. reflexivity. Qed.

(** Scanning an argument commutes with clearing [eliminate]. *)
Lemma switch_with_eliminate argv0 optarg c v :
  EnumMixed.option_switch env argv0 optarg c (with_eliminate false v)
  = (fst (EnumMixed.option_switch env argv0 optarg c v),
     match snd (EnumMixed.option_switch env argv0 optarg c v) with
     | inl v' => inl (with_eliminate false v')
     | inr h => inr h
     end).
Proof.
  unfold EnumMixed.option_switch.
  switch_on c; try reflexivity.
  destruct (atoi_cases (double := double) optarg) as [[k ->] | [u ->]];
    reflexivity.
Qed.

End Eliminate.

(** C1, on the code: [main] assigns [eliminate] and never reads it.  The
    enumeration is the same whatever the flag holds, and a run with [-D] is,
    event for event, the run without it. *)
Theorem eliminate_flag_is_never_read :
  forall {double : Type} (env : Collaborators double),
    (forall b v g,
        EnumMixed.enumerate env (with_eliminate b v) g
        = EnumMixed.enumerate env v g)
    /\ (forall b v s,
          EnumMixed.solve env (with_eliminate b v) s = EnumMixed.solve env v s)
    /\ (forall prog file,
          EnumMixed.main env [prog; "-D"; file]
          = EnumMixed.main env [prog; file]).
Proof.
  intros double env.
  split; [intros; apply enumerate_ignores_eliminate |].
  split; [intros; apply solve_ignores_eliminate |].
  intros prog file.
  pose (L := EnumMixed.option_body env [prog; file] 1 EnumMixed.initial).
  assert (Hloop : EnumMixed.option_loop env [prog; file] = L).
  { unfold EnumMixed.option_loop. cbn [List.length Nat.sub for_loop].
    apply bind_ret_r. }
  assert (HloopD :
    EnumMixed.option_loop env [prog; "-D"; file]
    = (fst L, match snd L with
              | inl v' => inl (with_eliminate false v')
              | inr h => inr h
              end)).
  { unfold EnumMixed.option_loop. cbn [List.length Nat.sub for_loop].
    assert (HD : EnumMixed.option_body env [prog; "-D"; file] 1
                   EnumMixed.initial
                 = ret (with_eliminate false EnumMixed.initial))
      by reflexivity.
    rewrite HD, bind_ret_l, bind_ret_r.
    unfold L, EnumMixed.option_body. cbn [nth_error hd].
    destruct (negb _); [reflexivity |].
    apply switch_with_eliminate. }
  assert (Hopen : open_input env [prog; "-D"; file]
                  = open_input env [prog; file]).
  { now rewrite !open_input_last by discriminate. }
  unfold EnumMixed.main, EnumMixed.main_body.
  rewrite Hloop, HloopD, Hopen.
  destruct L as [t [v' | h]]; reflexivity.
Qed.

(* ===================================================================== *)
(** * The option [-L] *)
(* ===================================================================== *)

(** C2 fails as stated: with a library whose two engines report the same
    three equilibria of the coordination game, [-L -c] renders no clique
    output where [-c] alone renders three cliques, and [-L -d 3] renders
    rationals where [-d 3] alone renders doubles with three decimals. *)
Lemma lrs_engine_ignores_c_and_d :
  renders (fst (EnumMixed.main Example.library
                  ["enummixed"; "-q"; "-L"; "-c"; "coordination.nfg"]))
  <> renders (fst (EnumMixed.main Example.library
                     ["enummixed"; "-q"; "-c"; "coordination.nfg"]))
  /\ renders (fst (EnumMixed.main Example.library
                     ["enummixed"; "-q"; "-L"; "-d"; "3";
                      "coordination.nfg"]))
     = map (fun p => RenderRational p "NE") Example.equilibria
  /\ renders (fst (EnumMixed.main Example.library
                     ["enummixed"; "-q"; "-d"; "3"; "coordination.nfg"]))
     = map (fun p => RenderDouble 3 p "NE") Example.equilibria_double.
Proof.
  split; [| split]; [| reflexivity | reflexivity].
  intros H. apply (f_equal (@List.length _)) in H. discriminate H.
Qed.

(** C2, amended.  With [-L] the run calls the lrs solver on a renderer of
    exact rationals and does nothing else with the game: its events are that
    solver's rendering, it returns 0 unless the solver throws, and neither
    [-d] nor [-c] changes it. *)
Theorem lrs_engine_is_rational_only :
  forall {double : Type} (env : Collaborators double)
         (v : EnumMixed.Locals) (g : Game),
    EnumMixed.uselrs v = true ->
    EnumMixed.enumerate env v g
    = (rendering RenderRational (lrs_Solve env g),
       match outcome (lrs_Solve env g) with
       | inl _ => inl 0%Z
       | inr e => inr (Throw e)
       end)
    /\ (forall v', EnumMixed.uselrs v' = true ->
                   EnumMixed.enumerate env v' g = EnumMixed.enumerate env v g)
    /\ (forall e, In e (fst (EnumMixed.enumerate env v g)) ->
                  exists p label, e = RenderRational p label).
Proof.
  intros double env v g Hl.
  assert (He : forall w, EnumMixed.uselrs w = true ->
             EnumMixed.enumerate env w g
             = (rendering RenderRational (lrs_Solve env g),
                match outcome (lrs_Solve env g) with
                | inl _ => inl 0%Z
                | inr e => inr (Throw e)
                end)).
  { intros w Hw. unfold EnumMixed.enumerate. rewrite Hw, call_run.
    destruct (outcome (lrs_Solve env g)); unfold bind; cbn [fst snd];
      now rewrite ?app_nil_r. }
  split; [now apply He |].
  split; [intros v' Hv'; now rewrite (He v' Hv'), (He v Hl) |].
  rewrite (He v Hl). cbn [fst]. unfold rendering. intros e He'.
  apply in_map_iff in He'. destruct He' as ([p label] & <- & _).
  now exists p, label.
Qed.

(** Witness of the amended C2: the options of [-L -d 3 -c]. *)
Lemma lrs_engine_is_rational_only_witness :
  EnumMixed.enumerate Example.library
    {| EnumMixed.useFloat := true; EnumMixed.uselrs := true;
       EnumMixed.quiet := true; EnumMixed.eliminate := true;
       EnumMixed.showConnect := true; EnumMixed.numDecimals := 3 |}
    SpecModel.coordination
  = (map (fun p => RenderRational p "NE") Example.equilibria, inl 0%Z).
Proof.
  exact (proj1 (lrs_engine_is_rational_only Example.library
                  {| EnumMixed.useFloat := true; EnumMixed.uselrs := true;
                     EnumMixed.quiet := true; EnumMixed.eliminate := true;
                     EnumMixed.showConnect := true;
                     EnumMixed.numDecimals := 3 |}
                  SpecModel.coordination eq_refl)).
Defined.

(* ===================================================================== *)
(** * The equilibria of the coordination game *)
(* ===================================================================== *)

Import SpecModel.

Lemma this_Q2Qc (q : Q) : (this (Q2Qc q) == q)%Q.
Proof. unfold Q2Qc. cbn [this]. apply Qred_correct. Qed.

Lemma frac_this n d : (this (frac n d) == n # d)%Q.
Proof. apply this_Q2Qc. Qed.

Lemma all2_length {A B} (f : A -> B -> bool) l m :
  all2 f l m = true -> List.length l = List.length m.
Proof.
  revert m; induction l as [| a l IH]; intros [| b m] H; simpl in *;
    try discriminate; [reflexivity |].
  apply andb_true_iff in H. f_equal. now apply IH.
Qed.

Lemma is_distribution_length n w :
  is_distribution n w = true -> List.length w = n.
Proof.
  unfold is_distribution. intros H.
  apply andb_true_iff in H; destruct H as [H _].
  apply andb_true_iff in H; destruct H as [H _].
  now apply Nat.eqb_eq.
Qed.

(** A profile of the coordination game has two weights for each of the two
    players. *)
Lemma coordination_shape sigma :
  is_profile coordination sigma = true ->
  exists x1 x2 y1 y2, sigma = [[x1; x2]; [y1; y2]].
Proof.
  intros H. pose proof (all2_length _ _ _ H) as L.
  destruct sigma as [| x [| y [|]]]; try discriminate L.
  cbn [is_profile coordination bimatrix strategies List.length nth all2] in H.
  apply andb_true_iff in H; destruct H as [Hx H].
  apply andb_true_iff in H; destruct H as [Hy _].
  apply is_distribution_length in Hx, Hy.
  destruct x as [| x1 [| x2 [|]]]; try discriminate Hx.
  destruct y as [| y1 [| y2 [|]]]; try discriminate Hy.
  now exists x1, x2, y1, y2.
Qed.

Ltac to_props :=
  repeat match goal with
  | H : _ && _ = true |- _ => apply andb_true_iff in H; destruct H
  | H : _ || _ = true |- _ => apply orb_true_iff in H; destruct H
  | H : Qle_bool _ _ = true |- _ => apply Qle_bool_iff in H
  | H : Qeq_bool _ _ = true |- _ => apply Qeq_bool_iff in H
  | H : true = true |- _ => clear H
  | H : (_ =? _)%nat = true |- _ => clear H
  end.

Lemma profile_2x2_eq (a1 a2 b1 b2 x1 x2 y1 y2 : Rational) :
  (a1 == x1)%Q -> (a2 == x2)%Q -> (b1 == y1)%Q -> (b2 == y2)%Q ->
  [[a1; a2]; [b1; b2]] = [[x1; x2]; [y1; y2]].
Proof.
  intros H1 H2 H3 H4.
  apply Qc_is_canon in H1, H2, H3, H4. now subst.
Qed.

Ltac profile_eq :=
  unfold pure_1, pure_2, mixed;
  apply profile_2x2_eq; rewrite ?frac_this, ?this_Q2Qc; lra.

(** The profiles that satisfy complementarity in the coordination game. *)
Lemma coordination_equilibria sigma :
  is_equilibrium coordination sigma = true
  <-> In sigma [pure_1; pure_2; mixed].
Proof.
  split.
  - unfold is_equilibrium. intros H.
    apply andb_true_iff in H. destruct H as [Hp Hc].
    destruct (coordination_shape _ Hp) as (x1 & x2 & y1 & y2 & ->).
    cbv [is_profile coordination bimatrix strategies all2 is_distribution
         List.length Nat.eqb List.nth List.forallb total List.fold_right
         List.map] in Hp.
    cbv [complementary coordination bimatrix players strategies List.length
         List.seq List.forallb List.nth best_response payoff_against
         pure_profiles List.flat_map List.map List.app List.filter Nat.eqb
         others weight payoff matrix_entry total List.fold_right inject_Z]
      in Hc.
    repeat rewrite andb_true_r in *.
    to_props; cbn [In];
      first [ left; profile_eq
            | right; left; profile_eq
            | right; right; left; profile_eq
            | exfalso; lra ].
  - intros [<- | [<- | [<- | []]]]; vm_compute; reflexivity.
Qed.

Lemma three_equilibria_NoDup : NoDup [pure_1; pure_2; mixed].
Proof.
  assert (D : forall a b : MixedStrategyProfile Rational,
             Qnum (this (nth 0 (nth 0 a []) 0%Qc))
             <> Qnum (this (nth 0 (nth 0 b []) 0%Qc)) -> a <> b)
    by (intros a b H ->; now apply H).
  repeat constructor; cbn [In]; intros H;
    repeat (destruct H as [H | H]; [revert H; apply D; vm_compute; discriminate |]);
    exact H.
Qed.

Lemma three_equilibria_enumerate :
  enumerates coordination [pure_1; pure_2; mixed].
Proof.
  split; [apply three_equilibria_NoDup |].
  intros sigma. symmetry. apply coordination_equilibria.
Qed.

(** C7 fails as stated: the profile in which player 1 plays (2/5, 3/5) and
    player 2 plays (3/5, 2/5) is no equilibrium of the coordination game --
    against (3/5, 2/5) the first row pays 9/5 and the second 4/5 -- so no
    enumeration of the equilibria lists it. *)
Lemma swapped_weights_are_no_equilibrium :
  is_equilibrium coordination mixed_swapped = false
  /\ payoff_against coordination mixed_swapped 0 0 == 9 # 5
  /\ payoff_against coordination mixed_swapped 0 1 == 4 # 5
  /\ ~ enumerates coordination [pure_1; pure_2; mixed_swapped].
Proof.
  split; [vm_compute; reflexivity |].
  split; [vm_compute; reflexivity |].
  split; [vm_compute; reflexivity |].
  intros [_ H].
  assert (E : is_equilibrium coordination mixed_swapped = true)
    by (apply H; cbn [In]; tauto).
  vm_compute in E. discriminate E.
Qed.

(** C7, amended.  The coordination game has exactly three equilibria: both
    players on their first strategy, both on their second, and player 1 on
    (3/5, 2/5) with player 2 on (2/5, 3/5).  An exact enumeration lists
    these three, in some order, and a run of enummixed without [-d], [-L]
    and [-c] on that game renders what the enumeration lists and exits
    with status 0. *)
Theorem coordination_game_has_three_equilibria :
  (forall sigma,
      is_equilibrium coordination sigma = true
      <-> In sigma [pure_1; pure_2; mixed])
  /\ (forall out,
        enumerates coordination out ->
        Permutation out [pure_1; pure_2; mixed] /\ List.length out = 3%nat)
  /\ (forall {double : Type} (env : Collaborators double)
             (argv : list string) t v solution,
        argv <> [] ->
        EnumMixed.option_loop env argv = (t, inl v) ->
        EnumMixed.uselrs v = false ->
        EnumMixed.useFloat v = false ->
        EnumMixed.showConnect v = false ->
        is_open env (last argv "") = true ->
        ReadGame env (file_stream (last argv "")) = inl coordination ->
        outcome (SolveDetailed_Rational env coordination) = inl solution ->
        enumerates coordination
          (map fst (rendered (SolveDetailed_Rational env coordination))) ->
        renders (fst (EnumMixed.main env argv))
        = rendering RenderRational (SolveDetailed_Rational env coordination)
        /\ Permutation
             (map fst (rendered (SolveDetailed_Rational env coordination)))
             [pure_1; pure_2; mixed]
        /\ snd (EnumMixed.main env argv) = Exited 0).
Proof.
  assert (P : forall out, enumerates coordination out ->
                Permutation out [pure_1; pure_2; mixed]).
  { intros out [Hnd Hout].
    apply NoDup_Permutation; [exact Hnd | apply three_equilibria_NoDup |].
    intros sigma. rewrite Hout. apply coordination_equilibria. }
  split; [exact coordination_equilibria |].
  split.
  { intros out Hout. split; [now apply P |].
    now rewrite (Permutation_length (P out Hout)). }
  intros double env argv t v solution Hl Hloop Hlrs Hfloat Hc Hopen Hg Hsol
         Hout.
  destruct (main_renders env argv t v coordination Hl Hloop Hopen Hg)
    as [Hr Hs].
  split; [| split; [now apply P |]].
  - rewrite Hr, enumerate_events, Hc, app_nil_r.
    unfold solver_rendering. now rewrite Hlrs, Hfloat.
  - rewrite Hs. unfold EnumMixed.enumerate.
    rewrite Hlrs, Hfloat, Hc, call_run, Hsol. reflexivity.
Qed.

(** Witness of the amended C7: [enummixed -q coordination.nfg]. *)
Lemma coordination_game_has_three_equilibria_witness :
  renders (fst (EnumMixed.main Example.library
                  ["enummixed"; "-q"; "coordination.nfg"]))
  = [ RenderRational pure_1 "NE"; RenderRational pure_2 "NE";
      RenderRational mixed "NE" ]
  /\ snd (EnumMixed.main Example.library
            ["enummixed"; "-q"; "coordination.nfg"]) = Exited 0.
Proof.
  assert (Hne : ["enummixed"; "-q"; "coordination.nfg"] <> [])
    by (intro H; discriminate H).
  destruct coordination_game_has_three_equilibria as (_ & _ & Hmain).
  destruct (Hmain Example.binary64 Example.library
              ["enummixed"; "-q"; "coordination.nfg"] [] _ _ Hne
              eq_refl eq_refl eq_refl eq_refl eq_refl eq_refl eq_refl
              three_equilibria_enumerate) as (Hr & _ & Hs).
  split; [exact Hr | exact Hs].
Defined.

(* ===================================================================== *)
(** * The polymatrix approximation *)
(* ===================================================================== *)

Section Approximation.

Context {T : Type}.
Variable refine : Game -> MixedStrategyProfile T -> MixedStrategyProfile T.
Variable below_tolerance :
  MixedStrategyProfile T -> MixedStrategyProfile T -> bool.

(** The loop ends in one of its two result states; when it reports
    convergence it returns the first iterate whose update was below the
    tolerance, and otherwise the last iterate, after all its rounds. *)
Lemma iterate_result (g : Game) fuel sigma :
  (snd (iterate refine below_tolerance g fuel sigma) = Converged
   /\ exists k, (k < fuel)%nat
        /\ fst (iterate refine below_tolerance g fuel sigma)
           = Nat.iter (S k) (refine g) sigma
        /\ below_tolerance (Nat.iter k (refine g) sigma)
                           (Nat.iter (S k) (refine g) sigma) = true
        /\ forall j, (j < k)%nat ->
             below_tolerance (Nat.iter j (refine g) sigma)
                             (Nat.iter (S j) (refine g) sigma) = false)
  \/ (snd (iterate refine below_tolerance g fuel sigma) = NotConverged
      /\ fst (iterate refine below_tolerance g fuel sigma)
         = Nat.iter fuel (refine g) sigma
      /\ forall j, (j < fuel)%nat ->
           below_tolerance (Nat.iter j (refine g) sigma)
                           (Nat.iter (S j) (refine g) sigma) = false).
Proof.
  revert sigma. induction fuel as [| fuel IH]; intros sigma.
  - right. repeat split. intros j Hj. lia.
  - cbn [iterate].
    destruct (below_tolerance sigma (refine g sigma)) eqn:Hb.
    + left. split; [reflexivity |]. exists O. repeat split; trivial; [lia |].
      intros j Hj. lia.
    + assert (shift : forall n, Nat.iter (S n) (refine g) sigma
                                = Nat.iter n (refine g) (refine g sigma))
        by (intros n; apply Nat.iter_succ_r).
      destruct (IH (refine g sigma))
        as [(Hc & k & Hk & Hfst & Hbelow & Hbefore) | (Hn & Hfst & Hnone)].
      * left. split; [exact Hc |]. exists (S k).
        rewrite (shift (S k)), (shift k).
        split; [lia |]. split; [exact Hfst |]. split; [exact Hbelow |].
        intros [| j] Hj; [exact Hb |].
        rewrite (shift (S j)), (shift j). apply Hbefore. lia.
      * right. split; [exact Hn |].
        rewrite (shift fuel). split; [exact Hfst |].
        intros [| j] Hj; [exact Hb |].
        rewrite (shift (S j)), (shift j). apply Hnone. lia.
Qed.

End Approximation.

Section ApproximationRun.

Context {double : Type}.
Variable env : Collaborators double.

(** A run of nfgipa whose solver returns: lines 120-127 render what the
    solver hands to the renderer, with [numDecimals] decimals, drop the
    value it returns, and return 0. *)
Lemma nfgipa_main_solved argv t v g rs r :
  argv <> [] ->
  NfgIpa.option_loop env argv = (t, inl v) ->
  is_open env (last argv "") = true ->
  ReadGame env (file_stream (last argv "")) = inl g ->
  ipa_Solve env g = mkRun rs (inl r) ->
  NfgIpa.main env argv
  = (t ++ (if NfgIpa.quiet v then [] else map cerr (NfgIpa.banner env))
       ++ ifstream_open (last argv "")
       :: ReadGameFrom (file_stream (last argv ""))
       :: map (fun pl => RenderDouble (NfgIpa.numDecimals v) (fst pl) (snd pl))
              rs,
     Exited 0).
Proof.
  intros Hl Hloop Hopen Hg Hrun.
  rewrite (nfgipa_main_stages env argv t v Hl Hloop), Hopen.
  assert (Hs : NfgIpa.solve env v (file_stream (last argv ""))
               = (ReadGameFrom (file_stream (last argv ""))
                    :: map (fun pl => RenderDouble (NfgIpa.numDecimals v)
                                                   (fst pl) (snd pl)) rs,
                  inl 0%Z)).
  { unfold NfgIpa.solve, NfgIpa.try_block, NfgIpa.approximate.
    rewrite (read_game_succeeds env _ g Hg).
    unfold bind at 1; cbn [fst snd]. rewrite Hrun.
    unfold call, bind, try_catch; cbn [rendered outcome fst snd].
    now rewrite List.app_nil_r. }
  rewrite Hs. reflexivity.
Qed.

End ApproximationRun.

(** C6. The polymatrix solver, started from the uniform profile, hands one
    profile to its renderer and returns it with one of the two result states
    [Converged] and [NotConverged]: [Converged] with the first iterate whose
    update is below the tolerance, none before it being so, and
    [NotConverged] with the last iterate when no update within the iteration
    bound is.  This holds whatever the number of players, three or more
    included.  A run of nfgipa on a game for which the solver returns so
    writes the banner unless [-q] was given, opens the file, reads the game,
    renders that one profile with [numDecimals] decimals and exits with
    status 0, in either result state: [main] does not look at the state. *)
Theorem polymatrix_solver_reports_its_state :
  forall {double : Type}
         (refine : Game -> MixedStrategyProfile double
                   -> MixedStrategyProfile double)
         (below_tolerance : MixedStrategyProfile double
                            -> MixedStrategyProfile double -> bool)
         (max_iterations : nat) (one_over : nat -> double) (label : string)
         (g : Game),
    let start := uniform one_over g in
    let run :=
      polymatrix_Solve refine below_tolerance max_iterations one_over label g
    in
    let ran (env : Collaborators double) (argv : list string)
            (t : list (Event double)) (v : NfgIpa.Locals) :=
      argv <> []
      /\ NfgIpa.option_loop env argv = (t, inl v)
      /\ is_open env (last argv "") = true
      /\ ReadGame env (file_stream (last argv "")) = inl g in
    let trace (env : Collaborators double) (argv : list string)
              (t : list (Event double)) (v : NfgIpa.Locals)
              (sigma : MixedStrategyProfile double) :=
      t ++ (if NfgIpa.quiet v then [] else map cerr (NfgIpa.banner env))
        ++ [ifstream_open (last argv "");
            ReadGameFrom (file_stream (last argv ""));
            RenderDouble (NfgIpa.numDecimals v) sigma label] in
    (exists sigma c,
        run = mkRun [(sigma, label)] (inl (sigma, c))
        /\ sigma = fst (iterate refine below_tolerance g max_iterations start)
        /\ ((c = Converged
             /\ exists k, (k < max_iterations)%nat
                  /\ sigma = Nat.iter (S k) (refine g) start
                  /\ below_tolerance (Nat.iter k (refine g) start)
                                     (Nat.iter (S k) (refine g) start) = true
                  /\ forall j, (j < k)%nat ->
                       below_tolerance (Nat.iter j (refine g) start)
                                       (Nat.iter (S j) (refine g) start)
                       = false)
            \/ (c = NotConverged
                /\ sigma = Nat.iter max_iterations (refine g) start
                /\ forall j, (j < max_iterations)%nat ->
                     below_tolerance (Nat.iter j (refine g) start)
                                     (Nat.iter (S j) (refine g) start)
                     = false)))
    /\ (forall env argv t v sigma c,
          ran env argv t v ->
          ipa_Solve env g = mkRun [(sigma, label)] (inl (sigma, c)) ->
          NfgIpa.main env argv = (trace env argv t v sigma, Exited 0))
    /\ (forall env argv t v,
          ran env argv t v ->
          ipa_Solve env g = run ->
          NfgIpa.main env argv
          = (trace env argv t v
               (fst (iterate refine below_tolerance g max_iterations start)),
             Exited 0)).
Proof.
  intros double refine below_tolerance max_iterations one_over label g
         start run ran trace.
  assert (Hrun : run
                 = mkRun [(fst (iterate refine below_tolerance g
                                        max_iterations start), label)]
                         (inl (fst (iterate refine below_tolerance g
                                            max_iterations start),
                               snd (iterate refine below_tolerance g
                                            max_iterations start)))).
  { unfold run, polymatrix_Solve. now rewrite <- surjective_pairing. }
  split; [| split].
  - exists (fst (iterate refine below_tolerance g max_iterations start)),
           (snd (iterate refine below_tolerance g max_iterations start)).
    split; [exact Hrun |]. split; [reflexivity |].
    destruct (iterate_result refine below_tolerance g max_iterations start)
      as [(Hc & k & Hk & Hfst & Hb & Hbefore) | (Hc & Hfst & Hnone)].
    + left. split; [exact Hc |]. now exists k.
    + right. now repeat split.
  - intros env argv t v sigma c (Hl & Hloop & Hopen & Hg) Hsolve.
    exact (nfgipa_main_solved env argv t v g _ _ Hl Hloop Hopen Hg Hsolve).
  - intros env argv t v (Hl & Hloop & Hopen & Hg) Hsolve.
    rewrite Hrun in Hsolve.
    exact (nfgipa_main_solved env argv t v g _ _ Hl Hloop Hopen Hg Hsolve).
Qed.

(** Witness of C6: [nfgipa -q -d 3 three.nfg], three players with two
    strategies each, on a solver that reports convergence at once, and
    [nfgipa -q three.nfg] on one that reports non-convergence. *)
Lemma polymatrix_solver_reports_its_state_witness :
  NfgIpa.main Example.library ["nfgipa"; "-q"; "-d"; "3"; "three.nfg"]
  = ([ifstream_open "three.nfg"; ReadGameFrom (file_stream "three.nfg");
      RenderDouble 3
        [[(4503599627370496, -53); (4503599627370496, -53)];
         [(4503599627370496, -53); (4503599627370496, -53)];
         [(4503599627370496, -53); (4503599627370496, -53)]]%Z "NE"],
     Exited 0)
  /\ NfgIpa.main Example.stalled ["nfgipa"; "-q"; "three.nfg"]
     = ([ifstream_open "three.nfg"; ReadGameFrom (file_stream "three.nfg");
         RenderDouble 6
           [[(4503599627370496, -53); (4503599627370496, -53)];
            [(4503599627370496, -53); (4503599627370496, -53)];
            [(4503599627370496, -53); (4503599627370496, -53)]]%Z "NE"],
        Exited 0).
Proof.
  split.
  - etransitivity; [| reflexivity].
    refine (proj2 (proj2 (polymatrix_solver_reports_its_state
                            (fun _ sigma => sigma) (fun _ _ => true) 100
                            (fun n => ((2 ^ 53 / Z.of_nat n)%Z, (-53)%Z))
                            "NE" Example.three_players))
              Example.library ["nfgipa"; "-q"; "-d"; "3"; "three.nfg"] []
              {| NfgIpa.quiet := true; NfgIpa.verbose := false;
                 NfgIpa.numDecimals := 3 |} _ eq_refl).
    split; [discriminate |]. split; [reflexivity |]. split; reflexivity.
  - etransitivity; [| reflexivity].
    refine (proj2 (proj2 (polymatrix_solver_reports_its_state
                            (fun _ sigma => sigma) (fun _ _ => false) 100
                            (fun n => ((2 ^ 53 / Z.of_nat n)%Z, (-53)%Z))
                            "NE" Example.three_players))
              Example.stalled ["nfgipa"; "-q"; "three.nfg"] []
              {| NfgIpa.quiet := true; NfgIpa.verbose := false;
                 NfgIpa.numDecimals := 6 |} _ eq_refl).
    split; [discriminate |]. split; [reflexivity |]. split; reflexivity.
Defined.

(* ===================================================================== *)
(** * The option loops, argument by argument *)
(* ===================================================================== *)

Section Scanning.

Context {double : Type}.
Variable env : Collaborators double.

Lemma nth_error_middle {A} (pre : list A) a rest :
  nth_error (pre ++ a :: rest) (List.length pre) = Some a.
Proof. now rewrite nth_error_app2, Nat.sub_diag by lia. Qed.

Lemma nth_error_after {A} (pre : list A) a rest :
  nth_error (pre ++ a :: rest) (S (List.length pre)) = hd_error rest.
Proof.
  rewrite nth_error_app2 by lia.
  replace (S (List.length pre) - List.length pre)%nat with 1%nat by lia.
  now destruct rest.
Qed.

(** The loop of enummixed from index [length pre] on is the scan of the
    arguments from there. *)
Lemma enummixed_loop_scan argv0 pre args v :
  for_loop (EnumMixed.option_body env ((argv0 :: pre) ++ args))
           (List.length args) (List.length (argv0 :: pre)) v
  = scan (EnumMixed.option_switch env) argv0 args v.
Proof.
  revert pre v. induction args as [| a rest IH]; intros pre v;
    [reflexivity |].
  cbn [List.length for_loop scan].
  assert (Hbody : EnumMixed.option_body env ((argv0 :: pre) ++ a :: rest)
                    (List.length (argv0 :: pre)) v
                  = scan_arg (EnumMixed.option_switch env) argv0 a
                             (hd_error rest) v).
  { unfold EnumMixed.option_body, scan_arg.
    rewrite nth_error_middle, nth_error_after. reflexivity. }
  cbn [List.length] in Hbody. rewrite Hbody.
  apply bind_ext. intros v'.
  specialize (IH (pre ++ [a]) v').
  cbn [List.length] in IH. rewrite length_app, Nat.add_comm in IH.
  cbn [List.length Nat.add] in IH.
  rewrite <- IH. f_equal. cbn [List.app]. now rewrite <- app_assoc.
Qed.

Lemma nfgipa_loop_scan argv0 pre args v :
  for_loop (NfgIpa.option_body env ((argv0 :: pre) ++ args))
           (List.length args) (List.length (argv0 :: pre)) v
  = scan (NfgIpa.option_switch env) argv0 args v.
Proof.
  revert pre v. induction args as [| a rest IH]; intros pre v;
    [reflexivity |].
  cbn [List.length for_loop scan].
  assert (Hbody : NfgIpa.option_body env ((argv0 :: pre) ++ a :: rest)
                    (List.length (argv0 :: pre)) v
                  = scan_arg (NfgIpa.option_switch env) argv0 a
                             (hd_error rest) v).
  { unfold NfgIpa.option_body, scan_arg.
    rewrite nth_error_middle, nth_error_after. reflexivity. }
  cbn [List.length] in Hbody. rewrite Hbody.
  apply bind_ext. intros v'.
  specialize (IH (pre ++ [a]) v').
  cbn [List.length] in IH. rewrite length_app, Nat.add_comm in IH.
  cbn [List.length Nat.add] in IH.
  rewrite <- IH. f_equal. cbn [List.app]. now rewrite <- app_assoc.
Qed.

Lemma enummixed_option_loop_scan argv0 args :
  EnumMixed.option_loop env (argv0 :: args)
  = scan (EnumMixed.option_switch env) argv0 args EnumMixed.initial.
Proof.
  unfold EnumMixed.option_loop. cbn [List.length Nat.sub].
  rewrite Nat.sub_0_r. exact (enummixed_loop_scan argv0 [] args _).
Qed.

Lemma nfgipa_option_loop_scan argv0 args :
  NfgIpa.option_loop env (argv0 :: args)
  = scan (NfgIpa.option_switch env) argv0 args NfgIpa.initial.
Proof.
  unfold NfgIpa.option_loop. cbn [List.length Nat.sub].
  rewrite Nat.sub_0_r. exact (nfgipa_loop_scan argv0 [] args _).
Qed.

End Scanning.

Section Flags.

Context {double : Type}.
Variable env : Collaborators double.

Ltac flags_done :=
  subst; cbn;
  rewrite ?orb_false_r, ?orb_true_r, ?andb_true_r, ?andb_false_r;
  repeat split; trivial.

(** A [case] that lets the loop go on wrote nothing and changed the one
    variable of its letter. *)
Lemma enummixed_switch_returns argv0 optarg c v t v' :
  EnumMixed.option_switch env argv0 optarg c v = (t, inl v') ->
  t = []
  /\ EnumMixed.useFloat v' = EnumMixed.useFloat v || (c =? "d")%char
  /\ EnumMixed.uselrs v' = EnumMixed.uselrs v || (c =? "L")%char
  /\ EnumMixed.quiet v' = EnumMixed.quiet v || (c =? "q")%char
  /\ EnumMixed.eliminate v' = EnumMixed.eliminate v && negb (c =? "D")%char
  /\ EnumMixed.showConnect v' = EnumMixed.showConnect v || (c =? "c")%char
  /\ EnumMixed.numDecimals v'
     = (if (c =? "d")%char
        then match optarg with
             | Some s => decimal_prefix s
             | None => EnumMixed.numDecimals v
             end
        else EnumMixed.numDecimals v)
  /\ (fits_int (EnumMixed.numDecimals v) = true ->
      fits_int (EnumMixed.numDecimals v') = true).
Proof.
  unfold EnumMixed.option_switch.
  switch_on c; intros H; try discriminate H;
    try (injection H as <- <-; flags_done; fail).
  destruct optarg as [s |]; [| discriminate H].
  cbn in H. destruct (fits_int (decimal_prefix s)) eqn:Hs;
    [| discriminate H].
  injection H as <- <-. flags_done.
Qed.

Lemma nfgipa_switch_returns argv0 optarg c v t v' :
  NfgIpa.option_switch env argv0 optarg c v = (t, inl v') ->
  t = []
  /\ NfgIpa.quiet v' = NfgIpa.quiet v || (c =? "q")%char
  /\ NfgIpa.verbose v' = NfgIpa.verbose v || (c =? "V")%char
  /\ NfgIpa.numDecimals v'
     = (if (c =? "d")%char
        then match optarg with
             | Some s => decimal_prefix s
             | None => NfgIpa.numDecimals v
             end
        else NfgIpa.numDecimals v)
  /\ (fits_int (NfgIpa.numDecimals v) = true ->
      fits_int (NfgIpa.numDecimals v') = true).
Proof.
  unfold NfgIpa.option_switch.
  switch_on c; intros H; try discriminate H;
    try (injection H as <- <-; flags_done; fail).
  destruct optarg as [s |]; [| discriminate H].
  cbn in H. destruct (fits_int (decimal_prefix s)) eqn:Hs;
    [| discriminate H].
  injection H as <- <-. flags_done.
Qed.

End Flags.

Section ScanResults.

Context {double : Type}.
Variable env : Collaborators double.

Lemma bind_returns_inv {A B} (m : M double A) (f : A -> M double B) t b :
  bind m f = (t, inl b) ->
  exists t1 a t2, m = (t1, inl a) /\ f a = (t2, inl b) /\ t = t1 ++ t2.
Proof.
  destruct m as [t1 [a | h]]; unfold bind; cbn [fst snd]; intros H;
    [| discriminate H].
  exists t1, a, (fst (f a)). injection H as <- Hb.
  repeat split. destruct (f a) as [t2 r]. cbn in *. now subst.
Qed.

Lemma option_is_no_dash c a :
  (char_at a 0 =? "-")%char = false -> option_is c a = false.
Proof. unfold option_is. now intros ->. Qed.

Lemma option_is_dash c a :
  (char_at a 0 =? "-")%char = true ->
  option_is c a = (char_at a 1 =? c)%char.
Proof. unfold option_is. now intros ->. Qed.

Lemma enummixed_scan_returns argv0 args v t v' :
  scan (EnumMixed.option_switch env) argv0 args v = (t, inl v') ->
  t = []
  /\ EnumMixed.useFloat v'
     = EnumMixed.useFloat v || existsb (option_is "d") args
  /\ EnumMixed.uselrs v'
     = EnumMixed.uselrs v || existsb (option_is "L") args
  /\ EnumMixed.quiet v'
     = EnumMixed.quiet v || existsb (option_is "q") args
  /\ EnumMixed.eliminate v'
     = EnumMixed.eliminate v && negb (existsb (option_is "D") args)
  /\ EnumMixed.showConnect v'
     = EnumMixed.showConnect v || existsb (option_is "c") args
  /\ EnumMixed.numDecimals v'
     = decimals_after args (EnumMixed.numDecimals v)
  /\ (fits_int (EnumMixed.numDecimals v) = true ->
      fits_int (EnumMixed.numDecimals v') = true).
Proof.
  revert v t. induction args as [| a rest IH]; intros v t H.
  - injection H as <- <-. cbn.
    rewrite ?orb_false_r, ?andb_true_r. repeat split; trivial.
  - cbn [scan] in H. apply bind_returns_inv in H.
    destruct H as (t1 & v1 & t2 & Harg & Hrest & ->).
    destruct (IH _ _ Hrest) as (-> & Hf & Hl & Hq & He & Hc & Hd & Hfit).
    rewrite Hf, Hl, Hq, He, Hc, Hd. cbn [existsb decimals_after].
    unfold scan_arg in Harg.
    destruct (char_at a 0 =? "-")%char eqn:Hdash; cbn [negb] in Harg.
    + apply enummixed_switch_returns in Harg.
      destruct Harg as (-> & Hf1 & Hl1 & Hq1 & He1 & Hc1 & Hd1 & Hfit1).
      rewrite !(option_is_dash _ a Hdash), Hf1, Hl1, Hq1, He1, Hc1, Hd1.
      rewrite negb_orb, !orb_assoc, andb_assoc.
      do 6 (split; [reflexivity |]).
      split; [| intros Hv; rewrite <- Hd1, <- Hd; apply Hfit, Hfit1, Hv].
      destruct (char_at a 1 =? "d")%char; [| reflexivity].
      now destruct rest.
    + injection Harg as <- <-.
      rewrite !(option_is_no_dash _ a Hdash). cbn [orb negb List.app].
      rewrite ?andb_true_r.
      do 7 (split; [reflexivity |]).
      intros Hv. rewrite <- Hd. now apply Hfit.
Qed.

Lemma nfgipa_scan_returns argv0 args v t v' :
  scan (NfgIpa.option_switch env) argv0 args v = (t, inl v') ->
  t = []
  /\ NfgIpa.quiet v' = NfgIpa.quiet v || existsb (option_is "q") args
  /\ NfgIpa.verbose v' = NfgIpa.verbose v || existsb (option_is "V") args
  /\ NfgIpa.numDecimals v' = decimals_after args (NfgIpa.numDecimals v)
  /\ (fits_int (NfgIpa.numDecimals v) = true ->
      fits_int (NfgIpa.numDecimals v') = true).
Proof.
  revert v t. induction args as [| a rest IH]; intros v t H.
  - injection H as <- <-. cbn.
    rewrite ?orb_false_r. repeat split; trivial.
  - cbn [scan] in H. apply bind_returns_inv in H.
    destruct H as (t1 & v1 & t2 & Harg & Hrest & ->).
    destruct (IH _ _ Hrest) as (-> & Hq & Hv & Hd & Hfit).
    rewrite Hq, Hv, Hd. cbn [existsb decimals_after].
    unfold scan_arg in Harg.
    destruct (char_at a 0 =? "-")%char eqn:Hdash; cbn [negb] in Harg.
    + apply nfgipa_switch_returns in Harg.
      destruct Harg as (-> & Hq1 & Hv1 & Hd1 & Hfit1).
      rewrite !(option_is_dash _ a Hdash), Hq1, Hv1, Hd1.
      rewrite !orb_assoc.
      do 3 (split; [reflexivity |]).
      split; [| intros Hv0; rewrite <- Hd1, <- Hd; apply Hfit, Hfit1, Hv0].
      destruct (char_at a 1 =? "d")%char; [| reflexivity].
      now destruct rest.
    + injection Harg as <- <-.
      rewrite !(option_is_no_dash _ a Hdash). cbn [orb negb List.app].
      do 4 (split; [reflexivity |]).
      intros Hv0. rewrite <- Hd. now apply Hfit.
Qed.

Lemma enummixed_loop_returns argv t v :
  EnumMixed.option_loop env argv = (t, inl v) ->
  scan (EnumMixed.option_switch env) (hd "" argv) (tl argv) EnumMixed.initial
  = (t, inl v).
Proof.
  destruct argv as [| argv0 args]; [trivial |].
  now rewrite enummixed_option_loop_scan.
Qed.

Lemma nfgipa_loop_returns argv t v :
  NfgIpa.option_loop env argv = (t, inl v) ->
  scan (NfgIpa.option_switch env) (hd "" argv) (tl argv) NfgIpa.initial
  = (t, inl v).
Proof.
  destruct argv as [| argv0 args]; [trivial |].
  now rewrite nfgipa_option_loop_scan.
Qed.

End ScanResults.

(** X1. When the option loop of enummixed lets the run go on, each flag
    holds exactly what the arguments after [argv[0]] say, in whatever order
    and however often they come: a flag is set when some argument begins
    with ['-'] and its letter, and [eliminate] is cleared when some argument
    begins with [-D].  The same for [quiet] and [verbose] in nfgipa. *)
Theorem flags_follow_the_arguments :
  forall {double : Type} (env : Collaborators double) (argv : list string),
    (forall t v,
        EnumMixed.option_loop env argv = (t, inl v) ->
        EnumMixed.useFloat v = existsb (option_is "d") (tl argv)
        /\ EnumMixed.uselrs v = existsb (option_is "L") (tl argv)
        /\ EnumMixed.quiet v = existsb (option_is "q") (tl argv)
        /\ EnumMixed.eliminate v = negb (existsb (option_is "D") (tl argv))
        /\ EnumMixed.showConnect v = existsb (option_is "c") (tl argv))
    /\ (forall t v,
          NfgIpa.option_loop env argv = (t, inl v) ->
          NfgIpa.quiet v = existsb (option_is "q") (tl argv)
          /\ NfgIpa.verbose v = existsb (option_is "V") (tl argv)).
Proof.
  intros double env argv. split; intros t v H.
  - apply enummixed_loop_returns, enummixed_scan_returns in H.
    destruct H as (_ & Hf & Hl & Hq & He & Hc & _). now repeat split.
  - apply nfgipa_loop_returns, nfgipa_scan_returns in H.
    destruct H as (_ & Hq & Hv & _). now repeat split.
Qed.

(** Witness of X1: [enummixed -c -q -c coordination.nfg]. *)
Lemma flags_follow_the_arguments_witness :
  exists v,
    EnumMixed.option_loop Example.library
      ["enummixed"; "-c"; "-q"; "-c"; "coordination.nfg"] = ([], inl v)
    /\ EnumMixed.showConnect v = existsb (option_is "c")
                                   ["-c"; "-q"; "-c"; "coordination.nfg"]
    /\ EnumMixed.uselrs v = existsb (option_is "L")
                              ["-c"; "-q"; "-c"; "coordination.nfg"].
Proof.
  eexists. split; [reflexivity |].
  destruct (flags_follow_the_arguments Example.library
              ["enummixed"; "-c"; "-q"; "-c"; "coordination.nfg"])
    as [He _].
  destruct (He [] _ eq_refl) as (_ & Hl & _ & _ & Hc).
  split; [exact Hc | exact Hl].
Defined.

Lemma decimals_after_none args d :
  existsb (option_is "d") args = false -> decimals_after args d = d.
Proof.
  revert d. induction args as [| a rest IH]; intros d H; [reflexivity |].
  cbn [existsb] in H. apply orb_false_iff in H. destruct H as [Ha Hrest].
  cbn [decimals_after]. rewrite Ha. now apply IH.
Qed.

Lemma decimals_after_last pre a s rest d :
  option_is "d" a = true ->
  existsb (option_is "d") (s :: rest) = false ->
  decimals_after (pre ++ a :: s :: rest) d = decimal_prefix s.
Proof.
  intros Ha Hrest. revert d. induction pre as [| p pre IH]; intros d.
  - cbn [List.app].
    change (decimals_after (a :: s :: rest) d)
      with (decimals_after (s :: rest)
              (if option_is "d" a then decimal_prefix s else d)).
    rewrite Ha. now apply decimals_after_none.
  - change (decimals_after ((p :: pre) ++ a :: s :: rest) d)
      with (decimals_after (pre ++ a :: s :: rest)
              (if option_is "d" p
               then match pre ++ a :: s :: rest with
                    | s0 :: _ => decimal_prefix s0
                    | [] => d
                    end
               else d)).
    apply IH.
Qed.

(** X2. When the option loop lets the run go on, [numDecimals] fits an
    [int]; it is 6 when no argument begins with [-d], and otherwise what
    [atoi] makes of the argument that follows the last such argument,
    whatever that argument is.  Both programs. *)
Theorem decimals_follow_the_last_d :
  forall {double : Type} (env : Collaborators double) (argv : list string),
    (forall t v,
        EnumMixed.option_loop env argv = (t, inl v) ->
        fits_int (EnumMixed.numDecimals v) = true
        /\ EnumMixed.numDecimals v = decimals_after (tl argv) 6
        /\ (existsb (option_is "d") (tl argv) = false ->
            EnumMixed.numDecimals v = 6%Z)
        /\ (forall pre a s rest,
               tl argv = pre ++ a :: s :: rest ->
               option_is "d" a = true ->
               existsb (option_is "d") (s :: rest) = false ->
               EnumMixed.numDecimals v = decimal_prefix s))
    /\ (forall t v,
          NfgIpa.option_loop env argv = (t, inl v) ->
          fits_int (NfgIpa.numDecimals v) = true
          /\ NfgIpa.numDecimals v = decimals_after (tl argv) 6
          /\ (existsb (option_is "d") (tl argv) = false ->
              NfgIpa.numDecimals v = 6%Z)
          /\ (forall pre a s rest,
                 tl argv = pre ++ a :: s :: rest ->
                 option_is "d" a = true ->
                 existsb (option_is "d") (s :: rest) = false ->
                 NfgIpa.numDecimals v = decimal_prefix s)).
Proof.
  intros double env argv. split; intros t v H.
  - apply enummixed_loop_returns, enummixed_scan_returns in H.
    destruct H as (_ & _ & _ & _ & _ & _ & Hd & Hfit).
    split; [now apply Hfit |]. split; [exact Hd |].
    split.
    + intros Hnone. rewrite Hd. now apply decimals_after_none.
    + intros pre a s rest Hargs Ha Hrest. rewrite Hd, Hargs.
      now apply decimals_after_last.
  - apply nfgipa_loop_returns, nfgipa_scan_returns in H.
    destruct H as (_ & _ & _ & Hd & Hfit).
    split; [now apply Hfit |]. split; [exact Hd |].
    split.
    + intros Hnone. rewrite Hd. now apply decimals_after_none.
    + intros pre a s rest Hargs Ha Hrest. rewrite Hd, Hargs.
      now apply decimals_after_last.
Qed.

(** Witness of X2: [nfgipa -d 12 -q -d 3 three.nfg]. *)
Lemma decimals_follow_the_last_d_witness :
  exists v,
    NfgIpa.option_loop Example.library
      ["nfgipa"; "-d"; "12"; "-q"; "-d"; "3"; "three.nfg"] = ([], inl v)
    /\ NfgIpa.numDecimals v = decimal_prefix "3".
Proof.
  eexists. split; [reflexivity |].
  destruct (decimals_follow_the_last_d Example.library
              ["nfgipa"; "-d"; "12"; "-q"; "-d"; "3"; "three.nfg"])
    as [_ Hn].
  destruct (Hn [] _ eq_refl) as (_ & _ & _ & Hlast).
  exact (Hlast ["-d"; "12"; "-q"] "-d" "3" ["three.nfg"]
               eq_refl eq_refl eq_refl).
Defined.

Section Silence.

Context {double : Type}.
Variable env : Collaborators double.

Lemma enummixed_body_returns argv i v t v' :
  EnumMixed.option_body env argv i v = (t, inl v') -> t = [].
Proof.
  unfold EnumMixed.option_body.
  destruct (nth_error argv i) as [a |]; [| discriminate].
  destruct (negb _); [now intros H; injection H as <- <- |].
  intros H. now apply enummixed_switch_returns in H.
Qed.

Lemma nfgipa_body_returns argv i v t v' :
  NfgIpa.option_body env argv i v = (t, inl v') -> t = [].
Proof.
  unfold NfgIpa.option_body.
  destruct (nth_error argv i) as [a |]; [| discriminate].
  destruct (negb _); [now intros H; injection H as <- <- |].
  intros H. now apply nfgipa_switch_returns in H.
Qed.

Lemma for_loop_silent {V} (body : nat -> V -> M double V) :
  (forall i v t v', body i v = (t, inl v') -> t = []) ->
  forall count from v t v',
    for_loop body count from v = (t, inl v') -> t = [].
Proof.
  intros Hbody count. induction count as [| k IH]; intros from v t v' H.
  - now injection H as <- <-.
  - cbn [for_loop] in H. apply bind_returns_inv in H.
    destruct H as (t1 & v1 & t2 & H1 & H2 & ->).
    apply Hbody in H1. apply IH in H2. now subst.
Qed.

End Silence.

(* ===================================================================== *)
(** * Every way a run can go *)
(* ===================================================================== *)

Section Cases.

Context {double : Type}.
Variable env : Collaborators double.

Lemma atoi_halts optarg h :
  snd (atoi (double := double) optarg) = inr h ->
  h = Undefined atoi_null \/ h = Undefined atoi_range.
Proof.
  destruct optarg as [s |]; cbn.
  - destruct (fits_int (decimal_prefix s)); cbn; intros H;
      [discriminate H | injection H as <-; tauto].
  - intros H. injection H as <-. tauto.
Qed.

Lemma enummixed_switch_halts argv0 optarg c v h :
  snd (EnumMixed.option_switch env argv0 optarg c v) = inr h ->
  h = Exit 1 \/ h = Abort
  \/ h = Undefined atoi_null \/ h = Undefined atoi_range.
Proof.
  unfold EnumMixed.option_switch.
  switch_on c; intros H; try discriminate H;
    try (injection H as <-; tauto).
  apply bind_inr in H. destruct H as [H | (k & _ & H)];
    [apply atoi_halts in H; tauto | discriminate H].
Qed.

Lemma nfgipa_switch_halts argv0 optarg c v h :
  snd (NfgIpa.option_switch env argv0 optarg c v) = inr h ->
  h = Exit 1 \/ h = Abort
  \/ h = Undefined atoi_null \/ h = Undefined atoi_range.
Proof.
  unfold NfgIpa.option_switch.
  switch_on c; intros H; try discriminate H;
    try (injection H as <-; tauto).
  apply bind_inr in H. destruct H as [H | (k & _ & H)];
    [apply atoi_halts in H; tauto | discriminate H].
Qed.

(** The loops index [argv] within its bounds. *)
Lemma enummixed_loop_halts argv h :
  snd (EnumMixed.option_loop env argv) = inr h ->
  h = Exit 1 \/ h = Abort
  \/ h = Undefined atoi_null \/ h = Undefined atoi_range.
Proof.
  unfold EnumMixed.option_loop. intros H.
  apply for_loop_halts_at in H. destruct H as (i & w & Hi & H).
  unfold EnumMixed.option_body in H.
  destruct (nth_error argv i) as [a |] eqn:Ha.
  - destruct (negb _); [discriminate H |].
    now apply enummixed_switch_halts in H.
  - apply nth_error_None in Ha. lia.
Qed.

Lemma nfgipa_loop_halts argv h :
  snd (NfgIpa.option_loop env argv) = inr h ->
  h = Exit 1 \/ h = Abort
  \/ h = Undefined atoi_null \/ h = Undefined atoi_range.
Proof.
  unfold NfgIpa.option_loop. intros H.
  apply for_loop_halts_at in H. destruct H as (i & w & Hi & H).
  unfold NfgIpa.option_body in H.
  destruct (nth_error argv i) as [a |] eqn:Ha.
  - destruct (negb _); [discriminate H |].
    now apply nfgipa_switch_halts in H.
  - apply nth_error_None in Ha. lia.
Qed.

Lemma enummixed_loop_silent argv t v :
  EnumMixed.option_loop env argv = (t, inl v) -> t = [].
Proof.
  apply for_loop_silent. intros i w t' w'. apply enummixed_body_returns.
Qed.

Lemma nfgipa_loop_silent argv t v :
  NfgIpa.option_loop env argv = (t, inl v) -> t = [].
Proof.
  apply for_loop_silent. intros i w t' w'. apply nfgipa_body_returns.
Qed.

(** The three ways a run of enummixed can go: the option loop ends it;
    there is no [argv[0]]; the last argument is opened. *)
Lemma enummixed_main_cases argv :
  (exists t h,
      EnumMixed.option_loop env argv = (t, inr h)
      /\ Forall quiet_event t
      /\ (h = Exit 1 \/ h = Abort
          \/ h = Undefined atoi_null \/ h = Undefined atoi_range)
      /\ EnumMixed.main env argv = (t, ends h))
  \/ (argv = []
      /\ EnumMixed.main env argv
         = (map cerr (EnumMixed.banner env),
            UndefinedBehaviour argv_out_of_bounds))
  \/ (argv <> []
      /\ exists v,
           EnumMixed.option_loop env argv = ([], inl v)
           /\ EnumMixed.main env argv
              = if is_open env (last argv "")
                then ((if EnumMixed.quiet v then []
                       else map cerr (EnumMixed.banner env))
                        ++ ifstream_open (last argv "")
                        :: fst (EnumMixed.solve env v
                                  (file_stream (last argv ""))),
                      termination (EnumMixed.solve env v
                                     (file_stream (last argv ""))))
                else ((if EnumMixed.quiet v then []
                       else map cerr (EnumMixed.banner env))
                        ++ [ifstream_open (last argv "");
                            perror (hd "" argv ++ ": " ++ last argv "")],
                      Exited 1)).
Proof.
  destruct (EnumMixed.option_loop env argv) as [t [v | h]] eqn:Hloop.
  - right. pose proof (enummixed_loop_silent argv t v Hloop) as ->.
    destruct argv as [| argv0 args]; [left | right].
    + split; [reflexivity |]. reflexivity.
    + split; [discriminate |]. exists v. split; [reflexivity |].
      now rewrite (enummixed_main_stages env _ [] v) by (discriminate || trivial).
  - left. exists t, h. split; [reflexivity |].
    split.
    { pose proof (enummixed_loop_quiet env argv (List.length argv - 1) 1
                    EnumMixed.initial) as Hq.
      unfold EnumMixed.option_loop in Hloop. now rewrite Hloop in Hq. }
    split.
    { apply (enummixed_loop_halts argv). now rewrite Hloop. }
    unfold EnumMixed.main, EnumMixed.main_body.
    now apply process_halts.
Qed.

Lemma nfgipa_main_cases argv :
  (exists t h,
      NfgIpa.option_loop env argv = (t, inr h)
      /\ Forall quiet_event t
      /\ (h = Exit 1 \/ h = Abort
          \/ h = Undefined atoi_null \/ h = Undefined atoi_range)
      /\ NfgIpa.main env argv = (t, ends h))
  \/ (argv = []
      /\ NfgIpa.main env argv
         = (map cerr (NfgIpa.banner env),
            UndefinedBehaviour argv_out_of_bounds))
  \/ (argv <> []
      /\ exists v,
           NfgIpa.option_loop env argv = ([], inl v)
           /\ NfgIpa.main env argv
              = if is_open env (last argv "")
                then ((if NfgIpa.quiet v then []
                       else map cerr (NfgIpa.banner env))
                        ++ ifstream_open (last argv "")
                        :: fst (NfgIpa.solve env v
                                  (file_stream (last argv ""))),
                      termination (NfgIpa.solve env v
                                     (file_stream (last argv ""))))
                else ((if NfgIpa.quiet v then []
                       else map cerr (NfgIpa.banner env))
                        ++ [ifstream_open (last argv "");
                            perror (hd "" argv ++ ": " ++ last argv "")],
                      Exited 1)).
Proof.
  destruct (NfgIpa.option_loop env argv) as [t [v | h]] eqn:Hloop.
  - right. pose proof (nfgipa_loop_silent argv t v Hloop) as ->.
    destruct argv as [| argv0 args]; [left | right].
    + split; [reflexivity |]. reflexivity.
    + split; [discriminate |]. exists v. split; [reflexivity |].
      now rewrite (nfgipa_main_stages env _ [] v) by (discriminate || trivial).
  - left. exists t, h. split; [reflexivity |].
    split.
    { pose proof (nfgipa_loop_quiet env argv (List.length argv - 1) 1
                    NfgIpa.initial) as Hq.
      unfold NfgIpa.option_loop in Hloop. now rewrite Hloop in Hq. }
    split.
    { apply (nfgipa_loop_halts argv). now rewrite Hloop. }
    unfold NfgIpa.main, NfgIpa.main_body.
    now apply process_halts.
Qed.

(** ** The solving stage *)

(** What a [try] block around reading and solving writes and returns. *)
Lemma solving_cases (k : Game -> M double Z) s :
  (forall g, Forall render_event (fst (k g))) ->
  (forall g n, snd (k g) = inl n -> n = 0%Z) ->
  (forall g, throws_only (k g)) ->
  let m := try_catch (bind (read_game env s) k) in
  (exists g, ReadGame env s = inl g /\ snd (k g) = inl 0%Z
             /\ m = (ReadGameFrom s :: fst (k g), inl 0%Z))
  \/ (exists rs what,
         Forall render_event rs
         /\ m = (ReadGameFrom s :: rs ++ [cerr ("Error: " ++ what ++ nl)],
                 inl 1%Z))
  \/ (exists rs,
         Forall render_event rs
         /\ m = (ReadGameFrom s :: rs, inr (Throw other_exception))).
Proof.
  intros Hr H0 Ht m. subst m.
  destruct (ReadGame env s) as [g | [what |]] eqn:Hg.
  - rewrite (read_game_succeeds env s g Hg).
    unfold bind; cbn [fst snd]. specialize (Hr g).
    destruct (k g) as [rs [n | h]] eqn:Hk; cbn [fst snd] in *.
    + left. exists g. rewrite Hk. cbn [snd fst].
      rewrite (H0 g n) by (now rewrite Hk).
      split; [reflexivity | split; reflexivity].
    + destruct (Ht g h) as [e ->]; [now rewrite Hk |].
      destruct e as [what |]; [right; left | right; right].
      * exists rs, what. split; [exact Hr | reflexivity].
      * exists rs. split; [exact Hr | reflexivity].
  - right; left. exists [], what. split; [constructor |].
    now rewrite (read_game_fails env s _ Hg).
  - right; right. exists []. split; [constructor |].
    now rewrite (read_game_fails env s _ Hg).
Qed.

Lemma enummixed_solve_cases v s :
  (exists g, ReadGame env s = inl g
             /\ snd (EnumMixed.enumerate env v g) = inl 0%Z
             /\ EnumMixed.solve env v s
                = (ReadGameFrom s :: fst (EnumMixed.enumerate env v g),
                   inl 0%Z))
  \/ (exists rs what,
         Forall render_event rs
         /\ EnumMixed.solve env v s
            = (ReadGameFrom s :: rs ++ [cerr ("Error: " ++ what ++ nl)],
               inl 1%Z))
  \/ (exists rs,
         Forall render_event rs
         /\ EnumMixed.solve env v s
            = (ReadGameFrom s :: rs, inr (Throw other_exception))).
Proof.
  apply (solving_cases (EnumMixed.enumerate env v) s).
  - apply enumerate_renders.
  - apply enumerate_returns_0.
  - apply enumerate_throws_only.
Qed.

Lemma approximate_returns_0 v g n :
  snd (NfgIpa.approximate env v g) = inl n -> n = 0%Z.
Proof.
  unfold NfgIpa.approximate. intros H.
  apply bind_inl in H. destruct H as (? & _ & H). now inversion H.
Qed.

Lemma approximate_throws_only v g :
  throws_only (NfgIpa.approximate env v g).
Proof.
  unfold NfgIpa.approximate.
  apply throws_only_bind; [apply throws_only_call |].
  intros; apply throws_only_ret.
Qed.

Lemma nfgipa_solve_cases v s :
  (exists g, ReadGame env s = inl g
             /\ snd (NfgIpa.approximate env v g) = inl 0%Z
             /\ NfgIpa.solve env v s
                = (ReadGameFrom s :: fst (NfgIpa.approximate env v g),
                   inl 0%Z))
  \/ (exists rs what,
         Forall render_event rs
         /\ NfgIpa.solve env v s
            = (ReadGameFrom s :: rs ++ [cerr ("Error: " ++ what ++ nl)],
               inl 1%Z))
  \/ (exists rs,
         Forall render_event rs
         /\ NfgIpa.solve env v s
            = (ReadGameFrom s :: rs, inr (Throw other_exception))).
Proof.
  apply (solving_cases (NfgIpa.approximate env v) s).
  - apply approximate_renders.
  - apply approximate_returns_0.
  - apply approximate_throws_only.
Qed.

End Cases.

(* ===================================================================== *)
(** * [-v] and [-h] *)
(* ===================================================================== *)

Lemma option_is_true c a :
  option_is c a = true ->
  char_at a 0 = "-"%char /\ char_at a 1 = c.
Proof.
  unfold option_is. intros H. apply andb_true_iff in H.
  destruct H as [H0 H1]. now apply Ascii.eqb_eq in H0, H1.
Qed.

(** X3. The options [-v] and [-h] end the run wherever the loop meets them,
    whatever came before, [-q] included: [-v] writes the banner, [-h] the
    banner and the usage text with [argv[0]] as the program's name; nothing
    else is written, no file is opened, and the exit status is 1.  Both
    programs. *)
Theorem version_and_help_end_the_run :
  forall {double : Type} (env : Collaborators double)
         (argv : list string) (i : nat) (a : string),
    (1 <= i)%nat ->
    nth_error argv i = Some a ->
    (forall t v,
        for_loop (EnumMixed.option_body env argv) (i - 1) 1
                 EnumMixed.initial = (t, inl v) ->
        (option_is "v" a = true ->
         EnumMixed.main env argv
         = (map cerr (EnumMixed.banner env), Exited 1))
        /\ (option_is "h" a = true ->
            EnumMixed.main env argv
            = (map cerr (EnumMixed.banner env
                           ++ EnumMixed.usage (hd "" argv)),
               Exited 1)))
    /\ (forall t v,
          for_loop (NfgIpa.option_body env argv) (i - 1) 1
                   NfgIpa.initial = (t, inl v) ->
          (option_is "v" a = true ->
           NfgIpa.main env argv
           = (map cerr (NfgIpa.banner env), Exited 1))
          /\ (option_is "h" a = true ->
              NfgIpa.main env argv
              = (map cerr (NfgIpa.banner env ++ NfgIpa.usage (hd "" argv)),
                 Exited 1))).
Proof.
  intros double env argv i a Hi Hnth.
  assert (Hlen : (i < List.length argv)%nat)
    by (apply nth_error_Some; congruence).
  split; intros t v Hreach.
  - assert (t = []) as ->.
    { revert Hreach. apply for_loop_silent.
      intros j w t' w'. apply enummixed_body_returns. }
    split; intros Ho; apply option_is_true in Ho; destruct Ho as [H0 H1].
    + assert (Hbody : EnumMixed.option_body env argv i v
                      = (map cerr (EnumMixed.banner env), inr (Exit 1))).
      { unfold EnumMixed.option_body. now rewrite Hnth, H0, H1. }
      exact (process_halts _ _ _ _
               (for_loop_stops _ argv i _ v [] _ _ Hi Hlen Hreach Hbody)).
    + assert (Hbody : EnumMixed.option_body env argv i v
                      = (map cerr (EnumMixed.banner env
                                     ++ EnumMixed.usage (hd "" argv)),
                         inr (Exit 1))).
      { unfold EnumMixed.option_body. rewrite Hnth, H0, H1, map_app.
        reflexivity. }
      exact (process_halts _ _ _ _
               (for_loop_stops _ argv i _ v [] _ _ Hi Hlen Hreach Hbody)).
  - assert (t = []) as ->.
    { revert Hreach. apply for_loop_silent.
      intros j w t' w'. apply nfgipa_body_returns. }
    split; intros Ho; apply option_is_true in Ho; destruct Ho as [H0 H1].
    + assert (Hbody : NfgIpa.option_body env argv i v
                      = (map cerr (NfgIpa.banner env), inr (Exit 1))).
      { unfold NfgIpa.option_body. now rewrite Hnth, H0, H1. }
      exact (process_halts _ _ _ _
               (for_loop_stops _ argv i _ v [] _ _ Hi Hlen Hreach Hbody)).
    + assert (Hbody : NfgIpa.option_body env argv i v
                      = (map cerr (NfgIpa.banner env
                                     ++ NfgIpa.usage (hd "" argv)),
                         inr (Exit 1))).
      { unfold NfgIpa.option_body. rewrite Hnth, H0, H1, map_app.
        reflexivity. }
      exact (process_halts _ _ _ _
               (for_loop_stops _ argv i _ v [] _ _ Hi Hlen Hreach Hbody)).
Qed.

(** Witness of X3: [-q -v] still prints the banner of enummixed, and
    [-q -h] the banner and the usage text of nfgipa. *)
Lemma version_and_help_end_the_run_witness :
  EnumMixed.main Example.library
    ["enummixed"; "-q"; "-v"; "coordination.nfg"]
  = (map cerr (EnumMixed.banner Example.library), Exited 1)
  /\ NfgIpa.main Example.library ["nfgipa"; "-q"; "-h"; "three.nfg"]
     = (map cerr (NfgIpa.banner Example.library ++ NfgIpa.usage "nfgipa"),
        Exited 1).
Proof.
  split.
  - destruct (version_and_help_end_the_run Example.library
                ["enummixed"; "-q"; "-v"; "coordination.nfg"] 2 "-v"
                ltac:(lia) eq_refl) as [He _].
    exact (proj1 (He [] _ eq_refl) eq_refl).
  - destruct (version_and_help_end_the_run Example.library
                ["nfgipa"; "-q"; "-h"; "three.nfg"] 2 "-h"
                ltac:(lia) eq_refl) as [_ Hn].
    exact (proj2 (Hn [] _ eq_refl) eq_refl).
Defined.

(* ===================================================================== *)
(** * How a run ends *)
(* ===================================================================== *)

Section Endings.

Context {double : Type}.
Variable env : Collaborators double.

Lemma enummixed_loop_nil_returns t h :
  EnumMixed.option_loop env [] <> (t, inr h).
Proof. discriminate. Qed.

Lemma nfgipa_loop_nil_returns t h :
  NfgIpa.option_loop env [] <> (t, inr h).
Proof. discriminate. Qed.

Lemma termination_cases (m : M double Z) :
  throws_only m ->
  (exists n, snd m = inl n /\ termination m = Exited n)
  \/ (exists e, snd m = inr (Throw e) /\ termination m = Aborted).
Proof.
  intros Ht. unfold termination. destruct (snd m) as [n | h] eqn:Hm.
  - left. now exists n.
  - right. destruct (Ht h Hm) as [e ->]. now exists e.
Qed.

End Endings.

(** X4. Neither program indexes [argv] outside its bounds unless [argv] is
    empty: the loop stays below [argc], and [argv[argc - 1]] and [argv[0]]
    exist as soon as there is a program name.  With an empty [argv] the
    run reaches [argv[-1]]. *)
Theorem argv_is_indexed_within_bounds :
  forall {double : Type} (env : Collaborators double) (argv : list string),
    (snd (EnumMixed.main env argv) = UndefinedBehaviour argv_out_of_bounds
     <-> argv = [])
    /\ (snd (NfgIpa.main env argv) = UndefinedBehaviour argv_out_of_bounds
        <-> argv = []).
Proof.
  intros double env argv. split.
  - destruct (enummixed_main_cases env argv)
      as [(t & h & Hloop & _ & Hh & ->)
         | [[-> ->] | (Hne & v & _ & ->)]].
    + split.
      * destruct Hh as [-> | [-> | [-> | ->]]]; discriminate.
      * intros ->. discriminate Hloop.
    + split; reflexivity.
    + split; [| intros ->; now elim Hne].
      destruct (is_open env (last argv "")); cbn [snd];
        [| discriminate].
      destruct (termination_cases
                  (EnumMixed.solve env v (file_stream (last argv "")))
                  (enummixed_solve_throws_only env v _))
        as [(n & _ & ->) | (e & _ & ->)]; discriminate.
  - destruct (nfgipa_main_cases env argv)
      as [(t & h & Hloop & _ & Hh & ->)
         | [[-> ->] | (Hne & v & _ & ->)]].
    + split.
      * destruct Hh as [-> | [-> | [-> | ->]]]; discriminate.
      * intros ->. discriminate Hloop.
    + split; reflexivity.
    + split; [| intros ->; now elim Hne].
      destruct (is_open env (last argv "")); cbn [snd];
        [| discriminate].
      destruct (termination_cases
                  (NfgIpa.solve env v (file_stream (last argv "")))
                  (nfgipa_solve_throws_only env v _))
        as [(n & _ & ->) | (e & _ & ->)]; discriminate.
Qed.

(** Witness of X4: the empty argument vector, and a run with a program
    name only. *)
Lemma argv_is_indexed_within_bounds_witness :
  snd (EnumMixed.main Example.library [])
  = UndefinedBehaviour argv_out_of_bounds
  /\ (snd (NfgIpa.main Example.library ["nfgipa"])
      = UndefinedBehaviour argv_out_of_bounds -> ["nfgipa"] = []).
Proof.
  split.
  - apply (proj1 (argv_is_indexed_within_bounds Example.library [])).
    reflexivity.
  - apply (proj2 (argv_is_indexed_within_bounds Example.library ["nfgipa"])).
Defined.

(** X5. The exit status of either program is 0 or 1, and it is 0 exactly
    when the option loop lets the run go on, the last argument opens as a
    file, the game is read from it, and the solver returns. *)
Theorem exit_status_is_0_or_1 :
  forall {double : Type} (env : Collaborators double) (argv : list string),
    (forall status,
        snd (EnumMixed.main env argv) = Exited status ->
        status = 0%Z \/ status = 1%Z)
    /\ (snd (EnumMixed.main env argv) = Exited 0
        <-> exists v g,
              EnumMixed.option_loop env argv = ([], inl v)
              /\ argv <> []
              /\ is_open env (last argv "") = true
              /\ ReadGame env (file_stream (last argv "")) = inl g
              /\ snd (EnumMixed.enumerate env v g) = inl 0%Z)
    /\ (forall status,
          snd (NfgIpa.main env argv) = Exited status ->
          status = 0%Z \/ status = 1%Z)
    /\ (snd (NfgIpa.main env argv) = Exited 0
        <-> exists v g,
              NfgIpa.option_loop env argv = ([], inl v)
              /\ argv <> []
              /\ is_open env (last argv "") = true
              /\ ReadGame env (file_stream (last argv "")) = inl g
              /\ snd (NfgIpa.approximate env v g) = inl 0%Z).
Proof.
  intros double env argv.
  assert (He :
    (forall status,
        snd (EnumMixed.main env argv) = Exited status ->
        (status = 0%Z \/ status = 1%Z)
        /\ (status = 0%Z ->
            exists v g,
              EnumMixed.option_loop env argv = ([], inl v)
              /\ argv <> []
              /\ is_open env (last argv "") = true
              /\ ReadGame env (file_stream (last argv "")) = inl g
              /\ snd (EnumMixed.enumerate env v g) = inl 0%Z))).
  { intros status.
    destruct (enummixed_main_cases env argv)
      as [(t & h & Hloop & _ & Hh & ->)
         | [[-> ->] | (Hne & v & Hloop & ->)]].
    - destruct Hh as [-> | [-> | [-> | ->]]]; cbn; intros H;
        try discriminate H.
      injection H as <-. split; [tauto | discriminate].
    - discriminate.
    - destruct (is_open env (last argv "")) eqn:Hopen; cbn [snd].
      + destruct (enummixed_solve_cases env v (file_stream (last argv "")))
          as [(g & Hg & H0 & ->) | [(rs & what & _ & ->) | (rs & _ & ->)]];
          cbn; intros H; try discriminate H; injection H as <-.
        * split; [tauto |]. intros _. now exists v, g.
        * split; [tauto | discriminate].
      + intros H. injection H as <-. split; [tauto | discriminate]. }
  assert (Hn :
    (forall status,
        snd (NfgIpa.main env argv) = Exited status ->
        (status = 0%Z \/ status = 1%Z)
        /\ (status = 0%Z ->
            exists v g,
              NfgIpa.option_loop env argv = ([], inl v)
              /\ argv <> []
              /\ is_open env (last argv "") = true
              /\ ReadGame env (file_stream (last argv "")) = inl g
              /\ snd (NfgIpa.approximate env v g) = inl 0%Z))).
  { intros status.
    destruct (nfgipa_main_cases env argv)
      as [(t & h & Hloop & _ & Hh & ->)
         | [[-> ->] | (Hne & v & Hloop & ->)]].
    - destruct Hh as [-> | [-> | [-> | ->]]]; cbn; intros H;
        try discriminate H.
      injection H as <-. split; [tauto | discriminate].
    - discriminate.
    - destruct (is_open env (last argv "")) eqn:Hopen; cbn [snd].
      + destruct (nfgipa_solve_cases env v (file_stream (last argv "")))
          as [(g & Hg & H0 & ->) | [(rs & what & _ & ->) | (rs & _ & ->)]];
          cbn; intros H; try discriminate H; injection H as <-.
        * split; [tauto |]. intros _. now exists v, g.
        * split; [tauto | discriminate].
      + intros H. injection H as <-. split; [tauto | discriminate]. }
  split; [intros status H; now apply He |].
  split.
  { split; [intros H; now apply (He 0%Z) |].
    intros (v & g & Hloop & Hne & Hopen & Hg & H0).
    rewrite (enummixed_main_stages env argv [] v Hne Hloop), Hopen.
    cbn [snd]. unfold termination, EnumMixed.solve, EnumMixed.try_block.
    rewrite (read_game_succeeds env _ g Hg), (bind_returns _ _ _ _ eq_refl).
    destruct (EnumMixed.enumerate env v g) as [te re].
    cbn [snd] in H0. subst re. reflexivity. }
  split; [intros status H; now apply Hn |].
  split; [intros H; now apply (Hn 0%Z) |].
  intros (v & g & Hloop & Hne & Hopen & Hg & H0).
  rewrite (nfgipa_main_stages env argv [] v Hne Hloop), Hopen.
  cbn [snd]. unfold termination, NfgIpa.solve, NfgIpa.try_block.
  rewrite (read_game_succeeds env _ g Hg), (bind_returns _ _ _ _ eq_refl).
  destruct (NfgIpa.approximate env v g) as [te re].
  cbn [snd] in H0. subst re. reflexivity.
Qed.

(** Witness of X5: a file that does not parse gives status 1; the
    coordination game gives status 0, which tells that it was read. *)
Lemma exit_status_is_0_or_1_witness :
  (1 = 0 \/ 1 = 1)%Z
  /\ exists v g,
       EnumMixed.option_loop Example.library
         ["enummixed"; "-q"; "coordination.nfg"] = ([], inl v)
       /\ ["enummixed"; "-q"; "coordination.nfg"] <> []
       /\ is_open Example.library "coordination.nfg" = true
       /\ ReadGame Example.library (file_stream "coordination.nfg") = inl g
       /\ snd (EnumMixed.enumerate Example.library v g) = inl 0%Z.
Proof.
  split.
  - apply (proj1 (exit_status_is_0_or_1 Example.library
                    ["enummixed"; "-q"; "malformed.nfg"]) 1%Z).
    reflexivity.
  - apply (proj1 (proj1 (proj2 (exit_status_is_0_or_1 Example.library
                    ["enummixed"; "-q"; "coordination.nfg"])))).
    reflexivity.
Defined.

(** X6. The trace of any run of either program has one shape: first
    diagnostics and file handling only; then, if the game is read at all,
    one read from the file named by the last argument, then renderings
    only, and last at most one line, which begins with ["Error: "].  Nothing
    is rendered before the game is read, and nothing follows an error
    line. *)
Theorem runs_have_one_shape :
  forall {double : Type} (env : Collaborators double) (argv : list string),
    run_shape (file_stream (last argv "")) (fst (EnumMixed.main env argv))
    /\ run_shape (file_stream (last argv "")) (fst (NfgIpa.main env argv)).
Proof.
  intros double env argv.
  assert (Hb : forall (q : bool) (l : list string),
             Forall quiet_event
               (if q then [] else map (cerr (double := double)) l)).
  { intros [|] l; [constructor | apply cerr_quiet]. }
  split.
  - destruct (enummixed_main_cases env argv)
      as [(t & h & _ & Hq & _ & ->)
         | [[-> ->] | (Hne & v & _ & ->)]].
    + exists t, []. rewrite app_nil_r. cbn [fst]. tauto.
    + exists (map cerr (EnumMixed.banner env)), []. rewrite app_nil_r.
      cbn [fst]. split; [reflexivity |]. split; [apply cerr_quiet | tauto].
    + destruct (is_open env (last argv "")); cbn [fst].
      * exists ((if EnumMixed.quiet v then []
                 else map cerr (EnumMixed.banner env))
                  ++ [ifstream_open (last argv "")]),
          (fst (EnumMixed.solve env v (file_stream (last argv "")))).
        split; [now rewrite <- app_assoc |].
        split; [apply Forall_app; split; [apply Hb |];
                now repeat constructor |].
        right.
        destruct (enummixed_solve_cases env v (file_stream (last argv "")))
          as [(g & Hg & H0 & ->) | [(rs & what & Hrs & ->) | (rs & Hrs & ->)]];
          cbn [fst].
        -- exists (fst (EnumMixed.enumerate env v g)), [].
           rewrite app_nil_r. split; [reflexivity |].
           split; [apply enumerate_renders | tauto].
        -- exists rs, [cerr ("Error: " ++ what ++ nl)].
           split; [reflexivity |]. split; [exact Hrs |].
           right. now exists what.
        -- exists rs, []. rewrite app_nil_r. tauto.
      * exists ((if EnumMixed.quiet v then []
                 else map cerr (EnumMixed.banner env))
                  ++ [ifstream_open (last argv "");
                      perror (hd "" argv ++ ": " ++ last argv "")]), [].
        rewrite app_nil_r. split; [reflexivity |].
        split; [| tauto].
        apply Forall_app; split; [apply Hb | now repeat constructor].
  - destruct (nfgipa_main_cases env argv)
      as [(t & h & _ & Hq & _ & ->)
         | [[-> ->] | (Hne & v & _ & ->)]].
    + exists t, []. rewrite app_nil_r. cbn [fst]. tauto.
    + exists (map cerr (NfgIpa.banner env)), []. rewrite app_nil_r.
      cbn [fst]. split; [reflexivity |]. split; [apply cerr_quiet | tauto].
    + destruct (is_open env (last argv "")); cbn [fst].
      * exists ((if NfgIpa.quiet v then []
                 else map cerr (NfgIpa.banner env))
                  ++ [ifstream_open (last argv "")]),
          (fst (NfgIpa.solve env v (file_stream (last argv "")))).
        split; [now rewrite <- app_assoc |].
        split; [apply Forall_app; split; [apply Hb |];
                now repeat constructor |].
        right.
        destruct (nfgipa_solve_cases env v (file_stream (last argv "")))
          as [(g & Hg & H0 & ->) | [(rs & what & Hrs & ->) | (rs & Hrs & ->)]];
          cbn [fst].
        -- exists (fst (NfgIpa.approximate env v g)), [].
           rewrite app_nil_r. split; [reflexivity |].
           split; [apply approximate_renders | tauto].
        -- exists rs, [cerr ("Error: " ++ what ++ nl)].
           split; [reflexivity |]. split; [exact Hrs |].
           right. now exists what.
        -- exists rs, []. rewrite app_nil_r. tauto.
      * exists ((if NfgIpa.quiet v then []
                 else map cerr (NfgIpa.banner env))
                  ++ [ifstream_open (last argv "");
                      perror (hd "" argv ++ ": " ++ last argv "")]), [].
        rewrite app_nil_r. split; [reflexivity |].
        split; [| tauto].
        apply Forall_app; split; [apply Hb | now repeat constructor].
Qed.


(* ===================================================================== *)
(** * What the options make of the output *)
(* ===================================================================== *)

Section Rendering.

Context {double : Type}.
Variable env : Collaborators double.

(** A rendering in the trace of the solving stage comes from the
    solver or from [PrintCliques]. *)
Lemma solving_render_inv (k : Game -> M double Z) s e :
  In e (fst (try_catch (bind (read_game env s) k))) ->
  is_render e = true ->
  exists g, ReadGame env s = inl g /\ In e (fst (k g)).
Proof.
  destruct (ReadGame env s) as [g | x] eqn:Hg.
  - rewrite (read_game_succeeds env s g Hg), (bind_returns _ _ _ _ eq_refl).
    intros Hin He. exists g. split; [reflexivity |].
    unfold try_catch in Hin. cbn [fst snd] in Hin.
    destruct (snd (k g)) as [n | [st | | u | [what |]]]; cbn [fst] in Hin;
      rewrite ?in_app_iff in Hin; cbn [In] in Hin;
      intuition (subst; try discriminate; trivial).
  - rewrite (read_game_fails env s x Hg). intros Hin He.
    destruct x as [what |]; cbn in Hin;
      repeat (destruct Hin as [<- | Hin]; [discriminate He |]);
      destruct Hin.
Qed.

(** The numbers the enumeration renders are all of one kind. *)
Lemma enumerate_domain v g e :
  In e (fst (EnumMixed.enumerate env v g)) ->
  if EnumMixed.useFloat v && negb (EnumMixed.uselrs v)
  then exists p label, e = RenderDouble (EnumMixed.numDecimals v) p label
  else exists p label, e = RenderRational p label.
Proof.
  rewrite enumerate_events. unfold solver_rendering, clique_output, rendering.
  intros H. apply in_app_or in H.
  destruct (EnumMixed.uselrs v); [rewrite andb_false_r |
    rewrite andb_true_r; destruct (EnumMixed.useFloat v)].
  - destruct H as [H | H]; [| now destruct (EnumMixed.showConnect v)].
    apply in_map_iff in H. destruct H as ([p l] & <- & _). now exists p, l.
  - destruct H as [H | H].
    + apply in_map_iff in H. destruct H as ([p l] & <- & _). now exists p, l.
    + destruct (EnumMixed.showConnect v); [| destruct H].
      destruct (outcome (SolveDetailed_double env g)); [| destruct H].
      apply clique_events_inv in H.
      destruct H as (cl & clique & p & _ & _ & ->). now eexists _, _.
  - destruct H as [H | H].
    + apply in_map_iff in H. destruct H as ([p l] & <- & _). now exists p, l.
    + destruct (EnumMixed.showConnect v); [| destruct H].
      destruct (outcome (SolveDetailed_Rational env g)); [| destruct H].
      apply clique_events_inv in H.
      destruct H as (cl & clique & p & _ & _ & ->). now eexists _, _.
Qed.

Lemma approximate_domain v g e :
  In e (fst (NfgIpa.approximate env v g)) ->
  exists p label, e = RenderDouble (NfgIpa.numDecimals v) p label.
Proof.
  unfold NfgIpa.approximate. rewrite call_run.
  destruct (outcome (ipa_Solve env g)) as [r | x]; unfold bind;
    cbn [fst snd];
    rewrite ?app_nil_r; unfold rendering; intros H;
    apply in_map_iff in H; destruct H as ([p l] & <- & _); now exists p, l.
Qed.

Lemma quiet_is_no_render (t : list (Event double)) e :
  Forall quiet_event t -> In e t -> is_render e = true -> False.
Proof.
  intros Hq Hin He. rewrite Forall_forall in Hq. specialize (Hq e Hin).
  unfold quiet_event in Hq. destruct e; discriminate.
Qed.

Lemma banner_quiet (q : bool) (l : list string) :
  Forall quiet_event (if q then [] else map (cerr (double := double)) l).
Proof. destruct q; [constructor | apply cerr_quiet]. Qed.

(** A rendering in the trace of a run comes from the enumeration, under
    the options the loop has left. *)
Lemma enummixed_main_render_inv argv e :
  In e (fst (EnumMixed.main env argv)) ->
  is_render e = true ->
  exists v g,
    EnumMixed.option_loop env argv = ([], inl v)
    /\ In e (fst (EnumMixed.enumerate env v g)).
Proof.
  destruct (enummixed_main_cases env argv)
    as [(t & h & _ & Hq & _ & ->)
       | [[-> ->] | (Hne & v & Hloop & ->)]]; intros Hin He.
  - now destruct (quiet_is_no_render t e Hq Hin He).
  - now destruct (quiet_is_no_render _ e (cerr_quiet _) Hin He).
  - destruct (is_open env (last argv "")); cbn [fst] in Hin;
      apply in_app_or in Hin; destruct Hin as [Hin | Hin];
      try (now destruct (quiet_is_no_render _ e (banner_quiet _ _) Hin He)).
    + destruct Hin as [<- | Hin]; [discriminate He |].
      destruct (solving_render_inv (EnumMixed.enumerate env v) _ e Hin He)
        as (g & _ & Hg).
      now exists v, g.
    + destruct Hin as [<- | [<- | []]]; discriminate He.
Qed.

Lemma nfgipa_main_render_inv argv e :
  In e (fst (NfgIpa.main env argv)) ->
  is_render e = true ->
  exists v g,
    NfgIpa.option_loop env argv = ([], inl v)
    /\ In e (fst (NfgIpa.approximate env v g)).
Proof.
  destruct (nfgipa_main_cases env argv)
    as [(t & h & _ & Hq & _ & ->)
       | [[-> ->] | (Hne & v & Hloop & ->)]]; intros Hin He.
  - now destruct (quiet_is_no_render t e Hq Hin He).
  - now destruct (quiet_is_no_render _ e (cerr_quiet _) Hin He).
  - destruct (is_open env (last argv "")); cbn [fst] in Hin;
      apply in_app_or in Hin; destruct Hin as [Hin | Hin];
      try (now destruct (quiet_is_no_render _ e (banner_quiet _ _) Hin He)).
    + destruct Hin as [<- | Hin]; [discriminate He |].
      destruct (solving_render_inv (NfgIpa.approximate env v) _ e Hin He)
        as (g & _ & Hg).
      now exists v, g.
    + destruct Hin as [<- | [<- | []]]; discriminate He.
Qed.

End Rendering.

(** X7. What a run renders is all of one kind, and the arguments tell
    which: enummixed renders doubles exactly when some argument is a [-d]
    and none is a [-L], and rationals otherwise, the clique output
    included; nfgipa renders doubles always.  The number of decimals of
    every double rendered is what [atoi] makes of the argument after the
    last [-d], or 6. *)
Theorem arguments_select_the_numbers :
  forall {double : Type} (env : Collaborators double)
         (argv : list string) (e : Event double),
    is_render e = true ->
    (In e (fst (EnumMixed.main env argv)) ->
     if existsb (option_is "d") (tl argv)
        && negb (existsb (option_is "L") (tl argv))
     then exists p label,
            e = RenderDouble (decimals_after (tl argv) 6) p label
     else exists p label, e = RenderRational p label)
    /\ (In e (fst (NfgIpa.main env argv)) ->
        exists p label,
          e = RenderDouble (decimals_after (tl argv) 6) p label).
Proof.
  intros double env argv e He. split; intros Hin.
  - destruct (enummixed_main_render_inv env argv e Hin He)
      as (v & g & Hloop & Hev).
    apply enummixed_loop_returns in Hloop.
    apply enummixed_scan_returns in Hloop.
    destruct Hloop as (_ & Hf & Hl & _ & _ & _ & Hd & _).
    apply enumerate_domain in Hev.
    now rewrite Hf, Hl, Hd in Hev.
  - destruct (nfgipa_main_render_inv env argv e Hin He)
      as (v & g & Hloop & Hev).
    apply nfgipa_loop_returns in Hloop.
    apply nfgipa_scan_returns in Hloop.
    destruct Hloop as (_ & _ & _ & Hd & _).
    apply approximate_domain in Hev.
    now rewrite Hd in Hev.
Qed.

(** Witness of X7: with [-c -d 3] the first equilibrium and the clique
    output are doubles with three decimals. *)
Lemma arguments_select_the_numbers_witness :
  exists p label,
    RenderDouble 3 [[(1, 0); (0, 0)]; [(1, 0); (0, 0)]]%Z "convex-1"
    = RenderDouble
        (decimals_after ["-q"; "-c"; "-d"; "3"; "coordination.nfg"] 6)
        p label.
Proof.
  apply (proj1 (arguments_select_the_numbers Example.library
                  ["enummixed"; "-q"; "-c"; "-d"; "3"; "coordination.nfg"]
                  (RenderDouble 3 [[(1, 0); (0, 0)]; [(1, 0); (0, 0)]]%Z
                                "convex-1")
                  eq_refl)).
  vm_compute. tauto.
Defined.

(* ===================================================================== *)
(** * Where a run is cut short *)
(* ===================================================================== *)

Section Escaping.

Context {double : Type}.
Variable env : Collaborators double.



End Escaping.



(* ===================================================================== *)
(** * The banner *)
(* ===================================================================== *)

(** X9. A run that gets past the option loop begins with the banner unless
    some argument is a [-q], wherever it stands, and then opens the file:
    with [-q] opening the file is the first thing the run does.  Both
    programs. *)
Theorem banner_is_printed_unless_quiet :
  forall {double : Type} (env : Collaborators double) (argv : list string),
    argv <> [] ->
    (forall t v,
        EnumMixed.option_loop env argv = (t, inl v) ->
        exists rest,
          fst (EnumMixed.main env argv)
          = (if existsb (option_is "q") (tl argv) then []
             else map cerr (EnumMixed.banner env))
              ++ ifstream_open (last argv "") :: rest)
    /\ (forall t v,
          NfgIpa.option_loop env argv = (t, inl v) ->
          exists rest,
            fst (NfgIpa.main env argv)
            = (if existsb (option_is "q") (tl argv) then []
               else map cerr (NfgIpa.banner env))
                ++ ifstream_open (last argv "") :: rest).
Proof.
  intros double env argv Hne. split; intros t v Hloop.
  - rewrite (enummixed_main_stages env argv t v Hne Hloop).
    apply enummixed_loop_returns in Hloop.
    apply enummixed_scan_returns in Hloop.
    destruct Hloop as (-> & _ & _ & Hq & _). cbn [orb EnumMixed.quiet
      EnumMixed.initial] in Hq. rewrite <- Hq.
    destruct (is_open env (last argv "")); cbn [fst List.app]; eauto.
  - rewrite (nfgipa_main_stages env argv t v Hne Hloop).
    apply nfgipa_loop_returns in Hloop.
    apply nfgipa_scan_returns in Hloop.
    destruct Hloop as (-> & Hq & _). cbn [orb NfgIpa.quiet
      NfgIpa.initial] in Hq. rewrite <- Hq.
    destruct (is_open env (last argv "")); cbn [fst List.app]; eauto.
Qed.

(** Witness of X9: a [-q] after other options still silences the banner. *)
Lemma banner_is_printed_unless_quiet_witness :
  exists rest,
    fst (EnumMixed.main Example.library
           ["enummixed"; "-c"; "-q"; "coordination.nfg"])
    = (if existsb (option_is "q") ["-c"; "-q"; "coordination.nfg"] then []
       else map cerr (EnumMixed.banner Example.library))
        ++ ifstream_open "coordination.nfg" :: rest.
Proof.
  apply (proj1 (banner_is_printed_unless_quiet Example.library
                  ["enummixed"; "-c"; "-q"; "coordination.nfg"]
                  ltac:(discriminate)) [] _ eq_refl).
Defined.

(* ===================================================================== *)
(** * Options that change nothing *)
(* ===================================================================== *)

Lemma last_app_cons {A} (l rest : list A) d :
  rest <> [] -> last (l ++ rest) d = last rest d.
Proof.
  intros Hr. induction l as [| x l IH]; [reflexivity |].
  cbn [List.app]. destruct (l ++ rest) eqn:E; [| exact IH].
  apply app_eq_nil in E. now destruct E.
Qed.

Lemma option_is_false_d a :
  option_is "d" a = false ->
  (char_at a 0 =? "-")%char = false \/ char_at a 1 <> "d"%char.
Proof.
  unfold option_is. intros H. apply andb_false_iff in H.
  destruct H as [H | H]; [now left | right].
  now apply Ascii.eqb_neq in H.
Qed.

Section Splitting.

Context {double V : Type}.
Variable switch : string -> option string -> ascii -> V -> M double V.

(** [optarg] is read under [case 'd'] only. *)
Hypothesis switch_optarg :
  forall argv0 o o' c v,
    c <> "d"%char -> switch argv0 o c v = switch argv0 o' c v.

Lemma scan_arg_optarg argv0 a o o' v :
  option_is "d" a = false ->
  scan_arg switch argv0 a o v = scan_arg switch argv0 a o' v.
Proof.
  intros H. unfold scan_arg. apply option_is_false_d in H.
  destruct H as [-> | H]; [reflexivity |].
  destruct (negb _); [reflexivity | now apply switch_optarg].
Qed.

(** The loop can be cut after any argument that is no [-d]. *)
Lemma scan_app argv0 pre rest v :
  option_is "d" (last pre "") = false ->
  scan switch argv0 (pre ++ rest) v
  = bind (scan switch argv0 pre v) (scan switch argv0 rest).
Proof.
  revert v. induction pre as [| p pre IH]; intros v Hd.
  - cbn [List.app scan]. now rewrite bind_ret_l.
  - cbn [List.app scan]. rewrite bind_assoc. destruct pre as [| p' pre].
    + cbn [List.app scan last] in *.
      rewrite (scan_arg_optarg argv0 p (hd_error rest) None v Hd).
      apply bind_ext. intros w. now rewrite bind_ret_l.
    + cbn [List.app hd_error]. apply bind_ext. intros w.
      apply IH. exact Hd.
Qed.

End Splitting.

Section Ignored.

Context {double : Type}.
Variable env : Collaborators double.

Lemma enummixed_switch_optarg argv0 o o' c v :
  c <> "d"%char ->
  EnumMixed.option_switch env argv0 o c v
  = EnumMixed.option_switch env argv0 o' c v.
Proof.
  intros Hc. unfold EnumMixed.option_switch.
  destruct (Ascii.eqb_spec c "d"); [contradiction | reflexivity].
Qed.

Lemma nfgipa_switch_optarg argv0 o o' c v :
  c <> "d"%char ->
  NfgIpa.option_switch env argv0 o c v
  = NfgIpa.option_switch env argv0 o' c v.
Proof.
  intros Hc. unfold NfgIpa.option_switch.
  destruct (Ascii.eqb_spec c "d"); [contradiction | reflexivity].
Qed.

(** [verbose] stays what it is set to, and nothing else depends on it. *)
Lemma nfgipa_switch_with_verbose argv0 o c v :
  NfgIpa.option_switch env argv0 o c (with_verbose true v)
  = bind (NfgIpa.option_switch env argv0 o c v)
         (fun w => ret (with_verbose true w)).
Proof.
  unfold NfgIpa.option_switch. switch_on c; try reflexivity.
  destruct o as [s |]; cbn; [| reflexivity].
  now destruct (fits_int (decimal_prefix s)).
Qed.

Lemma nfgipa_scan_with_verbose argv0 args v :
  scan (NfgIpa.option_switch env) argv0 args (with_verbose true v)
  = bind (scan (NfgIpa.option_switch env) argv0 args v)
         (fun w => ret (with_verbose true w)).
Proof.
  revert v. induction args as [| a rest IH]; intros v; [reflexivity |].
  cbn [scan]. rewrite bind_assoc.
  transitivity
    (bind (bind (scan_arg (NfgIpa.option_switch env) argv0 a
                   (hd_error rest) v)
                (fun w => ret (with_verbose true w)))
          (scan (NfgIpa.option_switch env) argv0 rest)).
  - f_equal. unfold scan_arg. destruct (negb _); [reflexivity |].
    apply nfgipa_switch_with_verbose.
  - rewrite bind_assoc. apply bind_ext. intros w.
    now rewrite bind_ret_l, IH.
Qed.

(** What [main] does once the loop is through. *)
Lemma enummixed_main_scan prog args :
  EnumMixed.main env (prog :: args)
  = process
      (bind (scan (EnumMixed.option_switch env) prog args EnumMixed.initial)
         (fun v =>
            (if negb (EnumMixed.quiet v) then EnumMixed.PrintBanner env
             else ret tt) ;;
            input_stream <- open_input env (prog :: args) ;;
            EnumMixed.solve env v input_stream)).
Proof.
  unfold EnumMixed.main, EnumMixed.main_body.
  now rewrite enummixed_option_loop_scan.
Qed.

Lemma nfgipa_main_scan prog args :
  NfgIpa.main env (prog :: args)
  = process
      (bind (scan (NfgIpa.option_switch env) prog args NfgIpa.initial)
         (fun v =>
            (if negb (NfgIpa.quiet v) then NfgIpa.PrintBanner env
             else ret tt) ;;
            input_stream <- open_input env (prog :: args) ;;
            NfgIpa.solve env v input_stream)).
Proof.
  unfold NfgIpa.main, NfgIpa.main_body.
  now rewrite nfgipa_option_loop_scan.
Qed.

Lemma open_input_drop prog pre a rest :
  rest <> [] ->
  open_input env (prog :: pre ++ a :: rest)
  = open_input env (prog :: pre ++ rest).
Proof.
  intros Hr. rewrite !open_input_last by discriminate.
  cbn [hd].
  change (prog :: pre ++ a :: rest) with ((prog :: pre) ++ a :: rest).
  change (prog :: pre ++ rest) with ((prog :: pre) ++ rest).
  rewrite (last_app_cons (prog :: pre) (a :: rest)) by discriminate.
  rewrite (last_app_cons (prog :: pre) rest) by exact Hr.
  change (a :: rest) with ([a] ++ rest).
  now rewrite (last_app_cons [a] rest) by exact Hr.
Qed.

End Ignored.

(** X10. The options [-S] of both programs and [-V] of nfgipa change
    nothing: a run with such an argument, anywhere before the last argument
    and not where a [-d] takes its number from, writes what the run without
    it writes and ends as it ends.  [-V] sets [verbose], which nothing
    reads. *)
Theorem options_S_and_V_change_nothing :
  forall {double : Type} (env : Collaborators double)
         (prog : string) (pre : list string) (a : string)
         (rest : list string),
    rest <> [] ->
    option_is "d" (last pre "") = false ->
    (option_is "S" a = true ->
     EnumMixed.main env (prog :: pre ++ a :: rest)
     = EnumMixed.main env (prog :: pre ++ rest)
     /\ NfgIpa.main env (prog :: pre ++ a :: rest)
        = NfgIpa.main env (prog :: pre ++ rest))
    /\ (option_is "V" a = true ->
        NfgIpa.main env (prog :: pre ++ a :: rest)
        = NfgIpa.main env (prog :: pre ++ rest)).
Proof.
  intros double env prog pre a rest Hr Hd. split; intros Ha;
    apply option_is_true in Ha; destruct Ha as [H0 H1]; [split |].
  - rewrite !enummixed_main_scan, (open_input_drop env prog pre a rest Hr).
    rewrite !(scan_app _ (enummixed_switch_optarg env) prog pre _ _ Hd).
    f_equal. rewrite !bind_assoc. apply bind_ext. intros w.
    f_equal. cbn [scan]. unfold scan_arg. rewrite H0, H1.
    change (negb ("-" =? "-")%char) with false. cbv iota.
    change (EnumMixed.option_switch env prog (hd_error rest) "S" w)
      with (ret (double := double) w).
    now rewrite bind_ret_l.
  - rewrite !nfgipa_main_scan, (open_input_drop env prog pre a rest Hr).
    rewrite !(scan_app _ (nfgipa_switch_optarg env) prog pre _ _ Hd).
    f_equal. rewrite !bind_assoc. apply bind_ext. intros w.
    f_equal. cbn [scan]. unfold scan_arg. rewrite H0, H1.
    change (negb ("-" =? "-")%char) with false. cbv iota.
    change (NfgIpa.option_switch env prog (hd_error rest) "S" w)
      with (ret (double := double) w).
    now rewrite bind_ret_l.
  - rewrite !nfgipa_main_scan, (open_input_drop env prog pre a rest Hr).
    rewrite !(scan_app _ (nfgipa_switch_optarg env) prog pre _ _ Hd).
    f_equal. rewrite !bind_assoc. apply bind_ext. intros w.
    cbn [scan]. unfold scan_arg at 1. rewrite H0, H1.
    change (negb ("-" =? "-")%char) with false. cbv iota.
    change (NfgIpa.option_switch env prog (hd_error rest) "V" w)
      with (ret (double := double) (with_verbose true w)).
    rewrite bind_ret_l, nfgipa_scan_with_verbose, bind_assoc.
    apply bind_ext. intros x. now rewrite bind_ret_l.
Qed.

(** Witness of X10: [-S] between [-q] and the file of enummixed, and [-V]
    in front of [-d 3] of nfgipa. *)
Lemma options_S_and_V_change_nothing_witness :
  EnumMixed.main Example.library
    ["enummixed"; "-q"; "-S"; "coordination.nfg"]
  = EnumMixed.main Example.library ["enummixed"; "-q"; "coordination.nfg"]
  /\ NfgIpa.main Example.library ["nfgipa"; "-V"; "-d"; "3"; "three.nfg"]
     = NfgIpa.main Example.library ["nfgipa"; "-d"; "3"; "three.nfg"].
Proof.
  split.
  - apply (proj1 (options_S_and_V_change_nothing Example.library
                    "enummixed" ["-q"] "-S" ["coordination.nfg"]
                    ltac:(discriminate) eq_refl)).
    reflexivity.
  - apply (proj2 (options_S_and_V_change_nothing Example.library
                    "nfgipa" [] "-V" ["-d"; "3"; "three.nfg"]
                    ltac:(discriminate) eq_refl)).
    reflexivity.
Defined.

(* ===================================================================== *)
(** * The labels of the clique output *)
(* ===================================================================== *)

Lemma to_little_uint_nonnil n d :
  d <> Decimal.Nil -> Nat.to_little_uint n d <> Decimal.Nil.
Proof.
  revert d. induction n as [| n IH]; intros d Hd; [exact Hd |].
  cbn [Nat.to_little_uint]. apply IH. now destruct d.
Qed.

Lemma to_uint_nonnil n : Nat.to_uint n <> Decimal.Nil.
Proof.
  unfold Nat.to_uint. intros H. apply DecimalFacts.rev_nil_inv in H.
  now apply to_little_uint_nonnil in H.
Qed.

(** Different numbers have different decimal writings. *)
Lemma lexical_cast_inj n m : lexical_cast n = lexical_cast m -> n = m.
Proof.
  unfold lexical_cast. intros H.
  apply (f_equal NilZero.uint_of_string) in H.
  rewrite !NilZero.usu in H by apply to_uint_nonnil.
  injection H as H. now apply DecimalNat.Unsigned.to_uint_inj.
Qed.

Lemma clique_events_length {double P}
    (Render : P -> string -> Event double) cl (cliques : list (list P)) :
  List.length (clique_events Render cl cliques) = profiles_in cliques.
Proof.
  unfold profiles_in. revert cl.
  induction cliques as [| c rest IH]; intros cl; [reflexivity |].
  cbn [clique_events List.concat].
  now rewrite !length_app, length_map, IH.
Qed.

(** X11. The label of a line of clique output identifies the clique:
    [PrintCliques] renders a profile under the label of clique number [cl]
    exactly when the profile is in that clique, since different numbers
    are written differently; and it renders one line for every profile of
    every clique. *)
Theorem clique_labels_identify_cliques :
  forall {double : Type} (env : Collaborators double),
    (forall (cliques : list (list (MixedStrategyProfile Rational)))
            (cl : nat) (p : MixedStrategyProfile Rational),
        In (RenderRational p ("convex-" ++ lexical_cast (S cl)))
           (fst (EnumMixed.PrintCliques env cliques RenderRational))
        <-> exists clique, nth_error cliques cl = Some clique /\ In p clique)
    /\ (forall (d : Z) (cliques : list (list (MixedStrategyProfile double)))
               (cl : nat) (p : MixedStrategyProfile double),
          In (RenderDouble d p ("convex-" ++ lexical_cast (S cl)))
             (fst (EnumMixed.PrintCliques env cliques (RenderDouble d)))
          <-> exists clique,
                nth_error cliques cl = Some clique /\ In p clique)
    /\ (forall (T : Type) (cliques : list (list (MixedStrategyProfile T)))
               (Render : MixedStrategyProfile T -> string -> Event double),
          List.length (fst (EnumMixed.PrintCliques env cliques Render))
          = profiles_in cliques).
Proof.
  intros double env. split; [| split].
  - intros cliques cl p. rewrite PrintCliques_events. cbn [fst]. split.
    + intros H. apply clique_events_inv in H.
      destruct H as (cl' & clique & p' & Hcl & Hp & He).
      injection He as -> Hl. apply lexical_cast_inj in Hl.
      injection Hl as ->. now exists clique.
    + intros (clique & Hcl & Hp).
      exact (clique_events_In RenderRational cliques 1 cl clique p Hcl Hp).
  - intros d cliques cl p. rewrite PrintCliques_events. cbn [fst]. split.
    + intros H. apply clique_events_inv in H.
      destruct H as (cl' & clique & p' & Hcl & Hp & He).
      injection He as -> Hl. apply lexical_cast_inj in Hl.
      injection Hl as ->. now exists clique.
    + intros (clique & Hcl & Hp).
      exact (clique_events_In (RenderDouble d) cliques 1 cl clique p Hcl Hp).
  - intros T cliques Render. rewrite PrintCliques_events. cbn [fst].
    apply clique_events_length.
Qed.

(** Witness of X11: the mixed equilibrium of the coordination game is
    rendered under [convex-3], so it is in the third clique. *)
Lemma clique_labels_identify_cliques_witness :
  exists clique,
    nth_error (map (fun p => [p]) Example.equilibria) 2 = Some clique
    /\ In SpecModel.mixed clique.
Proof.
  apply (proj1 (clique_labels_identify_cliques Example.library)
           (map (fun p => [p]) Example.equilibria) 2%nat SpecModel.mixed).
  right. right. left. reflexivity.
Defined.

(* ===================================================================== *)
(** * Numbers that [atoi] cannot represent *)
(* ===================================================================== *)

Section Range.

Context {double : Type}.
Variable env : Collaborators double.

Lemma atoi_range_only (optarg : option string) :
  snd (atoi (double := double) optarg) = inr (Undefined atoi_range) ->
  exists s, optarg = Some s /\ fits_int (decimal_prefix s) = false.
Proof.
  destruct optarg as [s |]; [| discriminate].
  cbn. destruct (fits_int (decimal_prefix s)) eqn:E; [discriminate |].
  intros _. now exists s.
Qed.

Lemma enummixed_switch_atoi_range argv0 optarg c v :
  snd (EnumMixed.option_switch env argv0 optarg c v)
  = inr (Undefined atoi_range) ->
  c = "d"%char
  /\ exists s, optarg = Some s /\ fits_int (decimal_prefix s) = false.
Proof.
  unfold EnumMixed.option_switch.
  switch_on c; try discriminate.
  intros H. split; [reflexivity |].
  apply bind_inr in H. destruct H as [H | (k & _ & H)];
    [now apply atoi_range_only | discriminate H].
Qed.

Lemma nfgipa_switch_atoi_range argv0 optarg c v :
  snd (NfgIpa.option_switch env argv0 optarg c v)
  = inr (Undefined atoi_range) ->
  c = "d"%char
  /\ exists s, optarg = Some s /\ fits_int (decimal_prefix s) = false.
Proof.
  unfold NfgIpa.option_switch.
  switch_on c; try discriminate.
  intros H. split; [reflexivity |].
  apply bind_inr in H. destruct H as [H | (k & _ & H)];
    [now apply atoi_range_only | discriminate H].
Qed.

Lemma enummixed_body_atoi_range argv i v :
  snd (EnumMixed.option_body env argv i v) = inr (Undefined atoi_range) ->
  exists a s,
    nth_error argv i = Some a /\ option_is "d" a = true
    /\ nth_error argv (S i) = Some s
    /\ fits_int (decimal_prefix s) = false.
Proof.
  unfold EnumMixed.option_body.
  destruct (nth_error argv i) as [a |]; [| discriminate].
  destruct (char_at a 0 =? "-")%char eqn:Hdash; cbn [negb];
    [| discriminate].
  intros H. apply enummixed_switch_atoi_range in H.
  destruct H as (Hc & s & Hs & Hfit). exists a, s.
  split; [reflexivity |]. split; [| now split].
  unfold option_is. now rewrite Hdash, Hc.
Qed.

Lemma nfgipa_body_atoi_range argv i v :
  snd (NfgIpa.option_body env argv i v) = inr (Undefined atoi_range) ->
  exists a s,
    nth_error argv i = Some a /\ option_is "d" a = true
    /\ nth_error argv (S i) = Some s
    /\ fits_int (decimal_prefix s) = false.
Proof.
  unfold NfgIpa.option_body.
  destruct (nth_error argv i) as [a |]; [| discriminate].
  destruct (char_at a 0 =? "-")%char eqn:Hdash; cbn [negb];
    [| discriminate].
  intros H. apply nfgipa_switch_atoi_range in H.
  destruct H as (Hc & s & Hs & Hfit). exists a, s.
  split; [reflexivity |]. split; [| now split].
  unfold option_is. now rewrite Hdash, Hc.
Qed.

End Range.

(** X12. The number after [-d] goes to [atoi] unchecked: if the loop
    arrives at a [-d] whose argument denotes a number outside the range of
    [int], the run is undefined behaviour there, with nothing written; a
    number inside the range lets the loop go on, silently.  No other
    argument makes [atoi] overflow.  Both programs. *)
Theorem d_takes_its_number_unchecked :
  forall {double : Type} (env : Collaborators double) (argv : list string),
    (forall i a s,
        (1 <= i)%nat ->
        nth_error argv i = Some a -> option_is "d" a = true ->
        nth_error argv (S i) = Some s ->
        (forall t v,
            for_loop (EnumMixed.option_body env argv) (i - 1) 1
                     EnumMixed.initial = (t, inl v) ->
            if fits_int (decimal_prefix s)
            then exists v',
                   EnumMixed.option_body env argv i v = ([], inl v')
                   /\ EnumMixed.numDecimals v' = decimal_prefix s
            else EnumMixed.main env argv
                 = ([], UndefinedBehaviour atoi_range))
        /\ (forall t v,
              for_loop (NfgIpa.option_body env argv) (i - 1) 1
                       NfgIpa.initial = (t, inl v) ->
              if fits_int (decimal_prefix s)
              then exists v',
                     NfgIpa.option_body env argv i v = ([], inl v')
                     /\ NfgIpa.numDecimals v' = decimal_prefix s
              else NfgIpa.main env argv
                   = ([], UndefinedBehaviour atoi_range)))
    /\ (snd (EnumMixed.main env argv) = UndefinedBehaviour atoi_range
        \/ snd (NfgIpa.main env argv) = UndefinedBehaviour atoi_range ->
        exists i a s,
          (1 <= i)%nat
          /\ nth_error argv i = Some a /\ option_is "d" a = true
          /\ nth_error argv (S i) = Some s
          /\ fits_int (decimal_prefix s) = false).
Proof.
  intros double env argv. split.
  - intros i a s Hi Ha Hd Hs.
    assert (Hlen : (i < List.length argv)%nat)
      by (apply nth_error_Some; congruence).
    apply option_is_true in Hd. destruct Hd as [H0 H1].
    split; intros t v Hreach.
    + assert (t = []) as ->.
      { revert Hreach. apply for_loop_silent.
        intros j w t' w'. apply enummixed_body_returns. }
      destruct (fits_int (decimal_prefix s)) eqn:Hfit.
      * eexists. unfold EnumMixed.option_body.
        rewrite Ha, H0, H1, Hs. cbn. rewrite Hfit. split; reflexivity.
      * assert (Hbody : EnumMixed.option_body env argv i v
                        = ([], inr (Undefined atoi_range))).
        { unfold EnumMixed.option_body. rewrite Ha, H0, H1, Hs. cbn.
          now rewrite Hfit. }
        exact (process_halts _ _ _ _
                 (for_loop_stops _ argv i _ v [] _ _ Hi Hlen Hreach Hbody)).
    + assert (t = []) as ->.
      { revert Hreach. apply for_loop_silent.
        intros j w t' w'. apply nfgipa_body_returns. }
      destruct (fits_int (decimal_prefix s)) eqn:Hfit.
      * eexists. unfold NfgIpa.option_body.
        rewrite Ha, H0, H1, Hs. cbn. rewrite Hfit. split; reflexivity.
      * assert (Hbody : NfgIpa.option_body env argv i v
                        = ([], inr (Undefined atoi_range))).
        { unfold NfgIpa.option_body. rewrite Ha, H0, H1, Hs. cbn.
          now rewrite Hfit. }
        exact (process_halts _ _ _ _
                 (for_loop_stops _ argv i _ v [] _ _ Hi Hlen Hreach Hbody)).
  - intros [H | H].
    + destruct (enummixed_main_cases env argv)
        as [(t & h & Hloop & _ & _ & Hm)
           | [[-> Hm] | (Hne & v & _ & Hm)]]; rewrite Hm in H.
      * assert (Hh : h = Undefined atoi_range)
          by (destruct h as [st | | u | e]; cbn in H;
              try discriminate H; now injection H as ->).
        subst h. unfold EnumMixed.option_loop in Hloop.
        apply (f_equal snd) in Hloop. cbn [snd] in Hloop.
        apply for_loop_halts_at in Hloop.
        destruct Hloop as (i & w & Hi & Hb).
        apply enummixed_body_atoi_range in Hb.
        destruct Hb as (a & s & Hb). exists i, a, s.
        split; [lia | exact Hb].
      * discriminate H.
      * destruct (is_open env (last argv "")); cbn [snd] in H;
          [| discriminate H].
        destruct (termination_cases
                    (EnumMixed.solve env v (file_stream (last argv "")))
                    (enummixed_solve_throws_only env v _))
          as [(n & _ & Ht) | (e & _ & Ht)]; rewrite Ht in H;
          discriminate H.
    + destruct (nfgipa_main_cases env argv)
        as [(t & h & Hloop & _ & _ & Hm)
           | [[-> Hm] | (Hne & v & _ & Hm)]]; rewrite Hm in H.
      * assert (Hh : h = Undefined atoi_range)
          by (destruct h as [st | | u | e]; cbn in H;
              try discriminate H; now injection H as ->).
        subst h. unfold NfgIpa.option_loop in Hloop.
        apply (f_equal snd) in Hloop. cbn [snd] in Hloop.
        apply for_loop_halts_at in Hloop.
        destruct Hloop as (i & w & Hi & Hb).
        apply nfgipa_body_atoi_range in Hb.
        destruct Hb as (a & s & Hb). exists i, a, s.
        split; [lia | exact Hb].
      * discriminate H.
      * destruct (is_open env (last argv "")); cbn [snd] in H;
          [| discriminate H].
        destruct (termination_cases
                    (NfgIpa.solve env v (file_stream (last argv "")))
                    (nfgipa_solve_throws_only env v _))
          as [(n & _ & Ht) | (e & _ & Ht)]; rewrite Ht in H;
          discriminate H.
Qed.

(** Witness of X12: ten decimal digits are too many for [-d]. *)
Lemma d_takes_its_number_unchecked_witness :
  NfgIpa.main Example.library ["nfgipa"; "-q"; "-d"; "4294967296"; "three.nfg"]
  = ([], UndefinedBehaviour atoi_range).
Proof.
  destruct (d_takes_its_number_unchecked Example.library
              ["nfgipa"; "-q"; "-d"; "4294967296"; "three.nfg"])
    as [Hd _].
  destruct (Hd 2%nat "-d" "4294967296" ltac:(lia) eq_refl eq_refl eq_refl)
    as [_ Hn].
  exact (Hn [] _ eq_refl).
Defined.

(* ===================================================================== *)
(** * What of an option is read *)
(* ===================================================================== *)

(** X13. Of an argument that begins with ['-'] the loop reads the second
    character and nothing more: two arguments that agree on it, in the same
    place before the last argument and not where a [-d] takes its number
    from, give the same run.  So [-help] is [-h] and [-quiet] is [-q].
    Both programs. *)
Theorem only_the_letter_of_an_option_counts :
  forall {double : Type} (env : Collaborators double)
         (prog : string) (pre : list string) (a a' : string)
         (rest : list string),
    rest <> [] ->
    option_is "d" (last pre "") = false ->
    char_at a 0 = "-"%char -> char_at a' 0 = "-"%char ->
    char_at a 1 = char_at a' 1 ->
    EnumMixed.main env (prog :: pre ++ a :: rest)
    = EnumMixed.main env (prog :: pre ++ a' :: rest)
    /\ NfgIpa.main env (prog :: pre ++ a :: rest)
       = NfgIpa.main env (prog :: pre ++ a' :: rest).
Proof.
  intros double env prog pre a a' rest Hr Hd H0 H0' H1. split.
  - rewrite !enummixed_main_scan.
    rewrite (open_input_drop env prog pre a rest Hr),
      (open_input_drop env prog pre a' rest Hr).
    rewrite !(scan_app _ (enummixed_switch_optarg env) prog pre _ _ Hd).
    f_equal. rewrite !bind_assoc. apply bind_ext. intros w.
    f_equal. cbn [scan]. unfold scan_arg. now rewrite H0, H0', H1.
  - rewrite !nfgipa_main_scan.
    rewrite (open_input_drop env prog pre a rest Hr),
      (open_input_drop env prog pre a' rest Hr).
    rewrite !(scan_app _ (nfgipa_switch_optarg env) prog pre _ _ Hd).
    f_equal. rewrite !bind_assoc. apply bind_ext. intros w.
    f_equal. cbn [scan]. unfold scan_arg. now rewrite H0, H0', H1.
Qed.

(** Witness of X13: [-help] in place of [-h]. *)
Lemma only_the_letter_of_an_option_counts_witness :
  EnumMixed.main Example.library ["enummixed"; "-help"; "coordination.nfg"]
  = EnumMixed.main Example.library ["enummixed"; "-h"; "coordination.nfg"].
Proof.
  apply (proj1 (only_the_letter_of_an_option_counts Example.library
                  "enummixed" [] "-help" "-h" ["coordination.nfg"]
                  ltac:(discriminate) eq_refl eq_refl eq_refl eq_refl)).
Defined.
